(** * Fixture upload: validation engine and persistence coordinator

    A shallow embedding of the fixture upload handler
    (interview-validation-service.ts, interview-simplified-fixture-handler.ts
    and the Postgres repository layer) together with the properties its
    specification states about it. *)

From Stdlib Require Import ZArith QArith String Ascii List DecimalString Lia.
From stdpp Require Import base option list gmap sets strings.

Close Scope Q_scope.
Open Scope string_scope.
Open Scope list_scope.

(** ** The JavaScript host

    Strings are byte strings in UTF-8; the numbers that the code handles
    are the doubles without a fraction, NaN and the infinities.  What the
    ECMAScript standard leaves to the implementation (legacy date parsing,
    the clock), and the coercion of a string to a number with its
    fractions and exponents, is a field of [Host]. *)

Module Js.

(** A JS number as the handler meets it: a double without a fraction
    ([Finite], by its value), NaN or an infinity.  Negative zero is zero:
    the handler compares numbers, prints them and keeps them in Sets, and
    none of these tells the two apart. *)
Inductive number :=
| Finite (z : Z)
| NaN
| Infinity
| NegInfinity.

#[global] Instance number_eq_dec : EqDecision number.
Proof. solve_decision. Defined.

#[global] Instance number_countable : Countable number :=
  inj_countable'
    (fun n => match n with
              | Finite z => inl z
              | NaN => inr 0%nat
              | Infinity => inr 1%nat
              | NegInfinity => inr 2%nat
              end)
    (fun c => match c with
              | inl z => Finite z
              | inr 0%nat => NaN
              | inr 1%nat => Infinity
              | inr _ => NegInfinity
              end)
    (fun n => match n with
              | Finite _ | NaN | Infinity | NegInfinity => eq_refl
              end).

(** The double nearest to an integer, ties to the even significand of 53
    bits; from 2^1024 - 2^970 on, an infinity. *)
Definition nearest_double (z : Z) : number :=
  let a := Z.abs z in
  let shift := (Z.log2 a - 52)%Z in
  let rounded :=
    if (shift <=? 0)%Z then a
    else
      let q := Z.shiftr a shift in
      let r := Z.land a (Z.ones shift) in
      let half := Z.shiftl 1 (shift - 1) in
      let up := (half <? r)%Z || ((r =? half)%Z && Z.odd q) in
      Z.shiftl (if up then q + 1 else q)%Z shift in
  if (rounded <? 2 ^ 1024)%Z
  then Finite (if (z <? 0)%Z then - rounded else rounded)%Z
  else if (z <? 0)%Z then NegInfinity else Infinity.

Definition is_digit (a : ascii) : bool :=
  let n := nat_of_ascii a in
  Nat.leb 48 n && Nat.leb n 57.

(** White space and line terminators as [trim] and [parseInt] strip them,
    each code point in its UTF-8 encoding: U+0009 to U+000D, U+0020, U+00A0,
    U+1680, U+2000 to U+200A, U+2028, U+2029, U+202F, U+205F, U+3000 and
    U+FEFF. *)
Definition white_space : list (list nat) :=
  [ [9]; [10]; [11]; [12]; [13]; [32];
    [194; 160];
    [225; 154; 128];
    [226; 128; 128]; [226; 128; 129]; [226; 128; 130]; [226; 128; 131];
    [226; 128; 132]; [226; 128; 133]; [226; 128; 134]; [226; 128; 135];
    [226; 128; 136]; [226; 128; 137]; [226; 128; 138];
    [226; 128; 168]; [226; 128; 169]; [226; 128; 175];
    [226; 129; 159];
    [227; 128; 128];
    [239; 187; 191] ].

(** The string after the bytes [code], when it starts with them. *)
Fixpoint after (code : list nat) (s : string) : option string :=
  match code, s with
  | [], _ => Some s
  | n :: code', String a s' => if Nat.eqb (nat_of_ascii a) n then after code' s' else None
  | _ :: _, EmptyString => None
  end.

(** The string after its first code point, when that is one of [codes]. *)
Fixpoint after_any (codes : list (list nat)) (s : string) : option string :=
  match codes with
  | [] => None
  | code :: codes' =>
      match after code s with
      | Some rest => Some rest
      | None => after_any codes' s
      end
  end.

Fixpoint strip (codes : list (list nat)) (fuel : nat) (s : string) : string :=
  match fuel with
  | O => s
  | S fuel' =>
      match after_any codes s with
      | Some rest => strip codes fuel' rest
      | None => s
      end
  end.

Definition trimStart (s : string) : string := strip white_space (String.length s) s.

Definition reverse_string (s : string) : string :=
  string_of_list_ascii (List.rev (list_ascii_of_string s)).

(** From the end, the encodings are met last byte first. *)
Definition trimEnd (s : string) : string :=
  reverse_string
    (strip (map (@List.rev nat) white_space) (String.length s) (reverse_string s)).

(** [String.prototype.trim] *)
Definition trim (s : string) : string := trimEnd (trimStart s).

(** [String.prototype.split] with a one-character separator. *)
Fixpoint split (sep : ascii) (s : string) : list string :=
  match s with
  | EmptyString => [EmptyString]
  | String a s' =>
      if Ascii.eqb a sep then EmptyString :: split sep s'
      else match split sep s' with
           | h :: t => String a h :: t
           | [] => [String a EmptyString]
           end
  end.

(** Template-literal rendering of numbers. *)
Definition nat_to_string (n : nat) : string :=
  NilZero.string_of_uint (Nat.to_uint n).

Definition Z_to_string (z : Z) : string :=
  NilZero.string_of_int (Z.to_int z).

(** [Number::toString] in radix 10 on a positive double [x] without a
    fraction: the decimal digits [s], as few as give back [x] when
    [s * 10 ^ (n - k)] is rounded to a double, where [k] is the number of
    digits of [s]; of several [s] with as few digits, the nearest to [x].
    [candidates] lists the pairs [(s, n)] for one [k]. *)
Definition decimal_length (a : Z) : Z := Z.of_nat (String.length (Z_to_string a)).

Definition candidates (x k : Z) : list (Z * Z) :=
  flat_map
    (fun n =>
       flat_map
         (fun s =>
            if (10 ^ (k - 1) <=? s)%Z && (s <? 10 ^ k)%Z && (k <=? n)%Z
               && bool_decide (nearest_double (s * 10 ^ (n - k)) = Finite x)
            then [(s, n)] else [])
         [(x / 10 ^ (n - k))%Z; (x / 10 ^ (n - k) + 1)%Z])
    [decimal_length x; (decimal_length x + 1)%Z].

Definition nearer (x : Z) (k : Z) (c1 c2 : Z * Z) : Z * Z :=
  if (Z.abs (c2.1 * 10 ^ (c2.2 - k) - x) <? Z.abs (c1.1 * 10 ^ (c1.2 - k) - x))%Z
  then c2 else c1.

Definition nearest (x k : Z) (cs : list (Z * Z)) : option (Z * Z) :=
  match cs with
  | [] => None
  | c :: cs' => Some (fold_left (nearer x k) cs' c)
  end.

Fixpoint shortest (x : Z) (k : Z) (fuel : nat) : Z * Z * Z :=
  match fuel with
  | O => (x, decimal_length x, decimal_length x)
  | S fuel' =>
      match nearest x k (candidates x k) with
      | Some (s, n) => (s, n, k)
      | None => shortest x (k + 1)%Z fuel'
      end
  end.

Fixpoint zeros (n : nat) : string :=
  match n with
  | O => EmptyString
  | S n' => String "0" (zeros n')
  end.

(** The digits [s] followed by [n - k] zeros up to 21 digits, and from 22
    digits on the first digit, the others after a point, and the exponent
    [n - 1]. *)
Definition positive_to_string (x : Z) : string :=
  let '(s, n, k) := shortest x 1 17 in
  let digits := Z_to_string s in
  if (n <=? 21)%Z
  then digits +:+ zeros (Z.to_nat (n - k))
  else
    match digits with
    | String first EmptyString => String first ("e+" +:+ Z_to_string (n - 1))
    | String first more => String first ("." +:+ more +:+ "e+" +:+ Z_to_string (n - 1))
    | EmptyString => EmptyString
    end.

Definition number_to_string (n : number) : string :=
  match n with
  | Finite z =>
      if (z =? 0)%Z then "0"
      else if (z <? 0)%Z then "-" +:+ positive_to_string (- z)
      else positive_to_string z
  | NaN => "NaN"
  | Infinity => "Infinity"
  | NegInfinity => "-Infinity"
  end.

(** Truthiness of a string: only the empty string is falsy. *)
Definition truthy (s : string) : bool := negb (String.eqb s EmptyString).

(** Value of a digit character in the given radix, if it is one. *)
Definition digit_value (radix : Z) (a : ascii) : option Z :=
  let n := nat_of_ascii a in
  let v := if Nat.leb 48 n && Nat.leb n 57 then Some (Z.of_nat (n - 48))
           else if Nat.leb 97 n && Nat.leb n 122 then Some (Z.of_nat (n - 87))
           else if Nat.leb 65 n && Nat.leb n 90 then Some (Z.of_nat (n - 55))
           else None in
  match v with
  | Some d => if (d <? radix)%Z then Some d else None
  | None => None
  end.

(** The longest prefix of digits, as an integer; [acc] is [None] until a
    digit has been read. *)
Fixpoint read_digits (radix : Z) (s : string) (acc : option Z) : option Z :=
  match s with
  | String a s' =>
      match digit_value radix a with
      | Some d => read_digits radix s' (Some (radix * default 0%Z acc + d)%Z)
      | None => acc
      end
  | EmptyString => acc
  end.

Definition read_unsigned (s : string) : option Z :=
  match s with
  | String "0" (String "x" s') => read_digits 16 s' None
  | String "0" (String "X" s') => read_digits 16 s' None
  | _ => read_digits 10 s None
  end.

Definition signed (sign : Z) (digits : option Z) : number :=
  match digits with
  | Some z => nearest_double (sign * z)
  | None => NaN
  end.

(** [parseInt(string)] without a radix: leading white space is skipped, a
    sign is read, a [0x] prefix selects radix 16, then the longest run of
    digits is read and the result is the double nearest to their value; no
    digit gives NaN. *)
Definition parseInt (s : string) : number :=
  match trimStart s with
  | String "-" s' => signed (-1) (read_unsigned s')
  | String "+" s' => signed 1 (read_unsigned s')
  | s' => signed 1 (read_unsigned s')
  end.

(** *** Plain objects

    An object made by a literal or filled by a [reduce] is modelled by the
    map of its own properties.  Reading [object[key]] goes on to
    [Object.prototype] when the object has no own property [key]. *)

(** What every plain object inherits: the methods of [Object.prototype],
    each a function with its [length], and the accessor [__proto__], which
    reads as [Object.prototype] itself. *)
Inductive inherited := BuiltinFunction (length : nat) | ObjectPrototype.

Definition Object_prototype : list (string * inherited) :=
  [ ("constructor", BuiltinFunction 1);
    ("__defineGetter__", BuiltinFunction 2);
    ("__defineSetter__", BuiltinFunction 2);
    ("hasOwnProperty", BuiltinFunction 1);
    ("__lookupGetter__", BuiltinFunction 1);
    ("__lookupSetter__", BuiltinFunction 1);
    ("isPrototypeOf", BuiltinFunction 1);
    ("propertyIsEnumerable", BuiltinFunction 1);
    ("toString", BuiltinFunction 0);
    ("valueOf", BuiltinFunction 0);
    ("__proto__", ObjectPrototype);
    ("toLocaleString", BuiltinFunction 0) ].

Definition inheritedAt (key : string) : option inherited :=
  snd <$> List.find (fun entry => String.eqb (fst entry) key) Object_prototype.

(** The outcome of [object[key]]. *)
Inductive property (V : Type) :=
| Own (v : V)
| Inherited (p : inherited)
| Undefined.
Arguments Own {V} v.
Arguments Inherited {V} p.
Arguments Undefined {V}.

Definition get {V} (object : gmap string V) (key : string) : property V :=
  match object !! key with
  | Some v => Own v
  | None =>
      match inheritedAt key with
      | Some p => Inherited p
      | None => Undefined
      end
  end.

(** Truthiness of what is read where a boolean flag is expected: a
    function and [Object.prototype] are truthy, [undefined] is not. *)
Definition holds (flag : property bool) : bool :=
  match flag with
  | Own b => b
  | Inherited _ => true
  | Undefined => false
  end.

Record Host := {
  (** [Date.parse] on a non-ISO string: milliseconds since the epoch, or
      NaN ([None]). *)
  Date_parse : string -> option Z;
  (** [new Date()]: the current processing time in milliseconds. *)
  Date_now : Z;
  (** [ToNumber] applied to a string, as relational comparison does;
      [None] is NaN.  The one comparison made with it is [< 1], where
      +Infinity behaves as NaN and -Infinity as any negative number. *)
  ToNumber : string -> option Q;
}.

End Js.

Import Js.

(** ** Exceptions

    A call either returns or throws; [try]/[catch] is a match on the
    outcome. *)

Inductive exn := Error (message : string) | TypeError (message : string).

Inductive result (A : Type) := Ok (a : A) | Throw (e : exn).
Arguments Ok {A} a.
Arguments Throw {A} e.

Definition bind {A B} (r : result A) (k : A -> result B) : result B :=
  match r with
  | Ok a => k a
  | Throw e => Throw e
  end.

Declare Scope js_scope.
Delimit Scope js_scope with js.
Notation "'let*' x := r 'in' k" := (bind r (fun x => k))
  (at level 10, x pattern, r at level 100, k at level 200) : js_scope.
Open Scope js_scope.

(** Code that also reads and writes a store threads the store [S] through:
    a call returns or throws, and leaves a store behind either way. *)
Definition M (S A : Type) : Type := S -> result A * S.

Definition ret {S A} (a : A) : M S A := fun s => (Ok a, s).

Definition throw {S A} (e : exn) : M S A := fun s => (Throw e, s).

Definition lift {S A} (r : result A) : M S A := fun s => (r, s).

Definition bindM {S A B} (m : M S A) (k : A -> M S B) : M S B :=
  fun s =>
    match m s with
    | (Ok a, s') => k a s'
    | (Throw e, s') => (Throw e, s')
    end.

(** [try { body } catch (error) { handler }] *)
Definition tryCatch {S A} (body : M S A) (handler : exn -> M S A) : M S A :=
  fun s =>
    match body s with
    | (Ok a, s') => (Ok a, s')
    | (Throw e, s') => handler e s'
    end.

(** [... finally { cleanup }], for a cleanup that cannot throw. *)
Definition finally {S A} (body : M S A) (cleanup : S -> S) : M S A :=
  fun s => let '(r, s') := body s in (r, cleanup s').

Notation "'let!' x := m 'in' k" := (bindM m (fun x => k))
  (at level 10, x pattern, m at level 100, k at level 200) : js_scope.

(** [[...new Set(xs)]]: duplicates dropped, first occurrences kept in order. *)
Fixpoint uniqueFrom (seen : gset string) (xs : list string) : list string :=
  match xs with
  | [] => []
  | x :: xs' =>
      if bool_decide (x ∈ seen) then uniqueFrom seen xs'
      else x :: uniqueFrom ({[x]} ∪ seen) xs'
  end.

Definition unique (xs : list string) : list string := uniqueFrom ∅ xs.

(** ** Data model (types.ts) *)

Inductive ErrorType := FILE_FORMAT | BUSINESS_RULE | DATA_INTEGRITY.

#[global] Instance ErrorType_eq_dec : EqDecision ErrorType.
Proof. solve_decision. Defined.

Module ValidationError.
Record t := mk {
  type : ErrorType;
  message : string;
  row : option nat;
  column : option string;
  gradeID : option string;
}.
End ValidationError.

Module FixtureRow.
Record t := mk {
  gradeCode : string;
  homeTeam : string;
  awayTeam : string;
  date : string;
  round : number;
  gameType : option string;
}.
End FixtureRow.

Module Grade.
Record t := mk {
  id : string;
  code : string;
  seasonID : string;
  noOfRounds : Z;
}.
End Grade.

Module Team.
Record t := mk {
  id : string;
  name : string;
  gradeID : string;
}.
End Team.

Module ValidationContext.
Record t := mk {
  seasonID : string;
  grades : list Grade.t;
  teams : list Team.t;
  existingFixtures : gmap string bool;
}.
End ValidationContext.

(** A row as the workbook decoder hands it over: every cell is a string or
    missing. *)
Module RawRow.
Record t := mk {
  gradeCode : option string;
  homeTeam : option string;
  awayTeam : option string;
  date : option string;
  round : option string;
  gameType : option string;
}.
End RawRow.

(** ** Validation service (interview-validation-service.ts) *)

Module FixtureValidationService.

(** [parseDate]: DD/MM/YYYY to MM/DD/YYYY; a missing piece of the
    destructured split renders as "undefined". *)
Definition parseDate (dateString : string) : string :=
  let parts := split "/" dateString in
  let piece (i : nat) := default "undefined" (parts !! i) in
  piece 1%nat +:+ "/" +:+ piece 0%nat +:+ "/" +:+ piece 2%nat.

(** The regular expression [^\d{2}\/\d{2}\/\d{4}$]. *)
Definition dateRegex_test (s : string) : bool :=
  match list_ascii_of_string s with
  | [d1; d2; s1; m1; m2; s2; y1; y2; y3; y4] =>
      is_digit d1 && is_digit d2 && Ascii.eqb s1 "/" &&
      is_digit m1 && is_digit m2 && Ascii.eqb s2 "/" &&
      is_digit y1 && is_digit y2 && is_digit y3 && is_digit y4
  | _ => false
  end.

Section WithHost.
Context (host : Host).

Definition isValidDate (dateString : option string) : bool :=
  match dateString with
  | None => false
  | Some s =>
      if negb (truthy s) then false
      else dateRegex_test s && bool_decide (is_Some (Date_parse host (parseDate s)))
  end.

(** [fixtureDate < today]: a comparison with an invalid date is false. *)
Definition isPast (date : string) : bool :=
  match Date_parse host (parseDate date) with
  | Some t => (t <? Date_now host)%Z
  | None => false
  end.

Definition gradeMissing (row : FixtureRow.t) : ValidationError.t :=
  {| ValidationError.type := BUSINESS_RULE;
     ValidationError.message :=
       "Grade '" +:+ FixtureRow.gradeCode row +:+ "' does not exist in this season";
     ValidationError.row := None;
     ValidationError.column := None;
     ValidationError.gradeID := Some (FixtureRow.gradeCode row) |}.

Definition businessRule (grade : Grade.t) (msg : string) : ValidationError.t :=
  {| ValidationError.type := BUSINESS_RULE;
     ValidationError.message := msg;
     ValidationError.row := None;
     ValidationError.column := None;
     ValidationError.gradeID := Some (Grade.id grade) |}.

Definition homeTeamMissing (row : FixtureRow.t) (grade : Grade.t) :=
  businessRule grade
    ("Home team '" +:+ FixtureRow.homeTeam row +:+ "' is not registered in grade '"
       +:+ FixtureRow.gradeCode row +:+ "'").

Definition awayTeamMissing (row : FixtureRow.t) (grade : Grade.t) :=
  businessRule grade
    ("Away team '" +:+ FixtureRow.awayTeam row +:+ "' is not registered in grade '"
       +:+ FixtureRow.gradeCode row +:+ "'").

Definition roundExceeds (row : FixtureRow.t) (grade : Grade.t) :=
  businessRule grade
    ("Round " +:+ number_to_string (FixtureRow.round row)
       +:+ " exceeds maximum rounds ("
       +:+ number_to_string (Finite (Grade.noOfRounds grade))
       +:+ ") for grade '" +:+ FixtureRow.gradeCode row +:+ "'").

Definition pastDate (row : FixtureRow.t) (grade : Grade.t) :=
  businessRule grade
    ("Cannot schedule games in the past for grade '" +:+ FixtureRow.gradeCode row
       +:+ "'. Date: " +:+ FixtureRow.date row).

(** [errors.push(e)] under a condition. *)
Definition pushIf {A} (c : bool) (e : A) (errors : list A) : list A :=
  if c then errors ++ [e] else errors.

(** [row.round > grade.noOfRounds]; false when the round is NaN. *)
Definition roundAbove (r : number) (bound : Z) : bool :=
  match r with
  | Finite z => (bound <? z)%Z
  | NaN => false
  | Infinity => true
  | NegInfinity => false
  end.

Definition validateFixtureRow (row : FixtureRow.t) (context : ValidationContext.t)
  : list ValidationError.t :=
  let errors := [] in
  match List.find (fun g => String.eqb (Grade.code g) (FixtureRow.gradeCode row))
                  (ValidationContext.grades context) with
  | None => errors ++ [gradeMissing row]
  | Some grade =>
      let gradeTeams :=
        List.filter (fun t => String.eqb (Team.gradeID t) (Grade.id grade))
                    (ValidationContext.teams context) in
      let homeTeam :=
        List.find (fun t => String.eqb (Team.name t) (FixtureRow.homeTeam row)) gradeTeams in
      let awayTeam :=
        List.find (fun t => String.eqb (Team.name t) (FixtureRow.awayTeam row)) gradeTeams in
      let errors := pushIf (negb (bool_decide (is_Some homeTeam)))
                           (homeTeamMissing row grade) errors in
      let errors := pushIf (negb (bool_decide (is_Some awayTeam)))
                           (awayTeamMissing row grade) errors in
      let errors := pushIf (roundAbove (FixtureRow.round row) (Grade.noOfRounds grade))
                           (roundExceeds row grade) errors in
      let errors :=
        pushIf (isPast (FixtureRow.date row) &&
                negb (holds (get (ValidationContext.existingFixtures context)
                                 (Grade.id grade))))
               (pastDate row grade) errors in
      errors
  end.

End WithHost.

(** *** Cross-row rules *)

Definition dataIntegrity (msg : string) : ValidationError.t :=
  {| ValidationError.type := DATA_INTEGRITY;
     ValidationError.message := msg;
     ValidationError.row := None;
     ValidationError.column := None;
     ValidationError.gradeID := None |}.

Definition gameSignature (row : FixtureRow.t) : string :=
  FixtureRow.gradeCode row +:+ "-" +:+ FixtureRow.homeTeam row +:+ "-"
    +:+ FixtureRow.awayTeam row +:+ "-" +:+ number_to_string (FixtureRow.round row).

Definition duplicateGame (row : FixtureRow.t) : ValidationError.t :=
  dataIntegrity
    ("Duplicate game: " +:+ FixtureRow.homeTeam row +:+ " vs " +:+ FixtureRow.awayTeam row
       +:+ " in round " +:+ number_to_string (FixtureRow.round row)
       +:+ " of grade " +:+ FixtureRow.gradeCode row).

Definition doubleBooked (team : string) (row : FixtureRow.t) : ValidationError.t :=
  dataIntegrity
    ("Team '" +:+ team +:+ "' is scheduled for multiple games in round "
       +:+ number_to_string (FixtureRow.round row)
       +:+ " of grade " +:+ FixtureRow.gradeCode row).

(** The three accumulators of the [forEach] body. *)
Record CrossRowState := {
  errors : list ValidationError.t;
  gameSignatures : gset string;
  teamRoundTracker : gmap string (gset number);
}.

Definition ensureKey (k : string) (m : gmap string (gset number))
  : gmap string (gset number) :=
  match m !! k with
  | Some _ => m
  | None => <[k := ∅]> m
  end.

Definition roundsOf (k : string) (m : gmap string (gset number)) : gset number :=
  default ∅ (m !! k).

Definition addRound (k : string) (r : number) (m : gmap string (gset number))
  : gmap string (gset number) :=
  <[k := {[r]} ∪ roundsOf k m]> m.

(** The key under which a team's rounds are tracked. *)
Definition teamKey (row : FixtureRow.t) (team : string) : string :=
  FixtureRow.gradeCode row +:+ "-" +:+ team.

Definition crossRowStep (st : CrossRowState) (row : FixtureRow.t) : CrossRowState :=
  let sig := gameSignature row in
  let errors1 :=
    if bool_decide (sig ∈ gameSignatures st)
    then errors st ++ [duplicateGame row] else errors st in
  let homeKey := teamKey row (FixtureRow.homeTeam row) in
  let awayKey := teamKey row (FixtureRow.awayTeam row) in
  let tracker := ensureKey awayKey (ensureKey homeKey (teamRoundTracker st)) in
  let errors2 :=
    if bool_decide (FixtureRow.round row ∈ roundsOf homeKey tracker)
    then errors1 ++ [doubleBooked (FixtureRow.homeTeam row) row] else errors1 in
  let errors3 :=
    if bool_decide (FixtureRow.round row ∈ roundsOf awayKey tracker)
    then errors2 ++ [doubleBooked (FixtureRow.awayTeam row) row] else errors2 in
  {| errors := errors3;
     gameSignatures := {[sig]} ∪ gameSignatures st;
     teamRoundTracker :=
       addRound awayKey (FixtureRow.round row)
         (addRound homeKey (FixtureRow.round row) tracker) |}.

Definition validateCrossRowRules (fixtureRows : list FixtureRow.t)
  : list ValidationError.t :=
  errors (fold_left crossRowStep fixtureRows
            {| errors := []; gameSignatures := ∅; teamRoundTracker := ∅ |}).

(** *** File-format rules and the orchestration *)

(** The collaborators handed to the service. *)
Record ValidationRepositories := {
  gradeRepo_findBySeasonIDAndCodes : string -> list string -> result (list Grade.t);
  teamRepo_findBySeasonID : string -> result (list Team.t);
  gradeRepo_hasFixtures : list string -> result (gmap string bool);
}.

Record ParseResult := {
  fixtureRows : list FixtureRow.t;
  formatErrors : list ValidationError.t;
}.

Record S3FileValidation := {
  fileBuffer : option string;
  validationErrors : option (list string);
  objectKey : string;
}.

Definition formatError (rowNumber : nat) (msg : string) (column : option string)
  : ValidationError.t :=
  {| ValidationError.type := FILE_FORMAT;
     ValidationError.message := "Row " +:+ nat_to_string rowNumber +:+ ": " +:+ msg;
     ValidationError.row := Some rowNumber;
     ValidationError.column := column;
     ValidationError.gradeID := None |}.

Definition unparsable : ValidationError.t :=
  {| ValidationError.type := FILE_FORMAT;
     ValidationError.message :=
       "Unable to parse Excel file. Please ensure file is in correct format.";
     ValidationError.row := None;
     ValidationError.column := None;
     ValidationError.gradeID := None |}.

(** [!cell?.trim()] *)
Definition blank (cell : option string) : bool :=
  match cell with
  | None => true
  | Some s => negb (truthy (trim s))
  end.

(** [cell.trim()], a TypeError on a missing cell. *)
Definition trimmed (cell : option string) : result string :=
  match cell with
  | Some s => Ok (trim s)
  | None => Throw (TypeError "Cannot read properties of undefined (reading 'trim')")
  end.

Section WithCollaborators.
Context (host : Host).
(** The workbook decoder behind [simulateExcelParsing]. *)
Context (simulateExcelParsing : string -> result (list RawRow.t)).
Context (repositories : ValidationRepositories).
(** [s3Adapter.getObject] *)
Context (getObject : string -> string -> result string).

(** [!row.round || row.round < 1] on a string cell. *)
Definition roundInvalid (cell : option string) : bool :=
  match cell with
  | None => true
  | Some s =>
      negb (truthy s) ||
      match ToNumber host s with
      | Some q => negb (Qle_bool 1 q)
      | None => false
      end
  end.

(** The errors one raw row adds, in the order of the checks. *)
Definition rowFormatErrors (row : RawRow.t) (rowNumber : nat) : list ValidationError.t :=
  let errors := [] in
  let errors := pushIf (blank (RawRow.gradeCode row))
                  (formatError rowNumber "Grade Code is required" (Some "Grade Code")) errors in
  let errors := pushIf (blank (RawRow.homeTeam row))
                  (formatError rowNumber "Home Team is required" (Some "Home Team")) errors in
  let errors := pushIf (blank (RawRow.awayTeam row))
                  (formatError rowNumber "Away Team is required" (Some "Away Team")) errors in
  let errors := pushIf (negb (isValidDate host (RawRow.date row)))
                  (formatError rowNumber "Invalid date format. Use DD/MM/YYYY" (Some "Date")) errors in
  let errors := pushIf (roundInvalid (RawRow.round row))
                  (formatError rowNumber "Round must be a positive number" (Some "Round")) errors in
  let errors := pushIf (bool_decide (RawRow.homeTeam row = RawRow.awayTeam row))
                  (formatError rowNumber "Home team and away team cannot be the same" None) errors in
  errors.

(** The row pushed onto [fixtureRows].  A missing date cannot reach this
    point ([isValidDate] has rejected it); [parseInt(undefined)] is NaN. *)
Definition acceptedRow (row : RawRow.t) : result FixtureRow.t :=
  let* gradeCode := trimmed (RawRow.gradeCode row) in
  let* homeTeam := trimmed (RawRow.homeTeam row) in
  let* awayTeam := trimmed (RawRow.awayTeam row) in
  Ok {| FixtureRow.gradeCode := gradeCode;
        FixtureRow.homeTeam := homeTeam;
        FixtureRow.awayTeam := awayTeam;
        FixtureRow.date := default EmptyString (RawRow.date row);
        FixtureRow.round := default NaN (parseInt <$> RawRow.round row);
        FixtureRow.gameType := trim <$> RawRow.gameType row |}.

(** One iteration of the validation loop. *)
Definition parseStep (st : ParseResult) (row : RawRow.t) (index : nat)
  : result ParseResult :=
  let rowNumber := (index + 2)%nat in
  let formatErrors' := formatErrors st ++ rowFormatErrors row rowNumber in
  if Nat.eqb
       (length (List.filter
                  (fun e => bool_decide (ValidationError.row e = Some rowNumber))
                  formatErrors')) 0
  then
    let* r := acceptedRow row in
    Ok {| fixtureRows := fixtureRows st ++ [r]; formatErrors := formatErrors' |}
  else Ok {| fixtureRows := fixtureRows st; formatErrors := formatErrors' |}.

Fixpoint parseLoop (rows : list RawRow.t) (index : nat) (st : ParseResult)
  : result ParseResult :=
  match rows with
  | [] => Ok st
  | row :: rows' =>
      let* st' := parseStep st row index in
      parseLoop rows' (S index) st'
  end.

Definition parseAndValidateFile (fileBuffer : string) : ParseResult :=
  let attempt :=
    let* mockExcelData := simulateExcelParsing fileBuffer in
    parseLoop mockExcelData 0 {| fixtureRows := []; formatErrors := [] |} in
  match attempt with
  | Ok r => r
  | Throw _ => {| fixtureRows := []; formatErrors := [unparsable] |}
  end.

(** The three lookups are started together and joined. *)
Definition loadValidationContext (seasonID : string) (fixtureRows : list FixtureRow.t)
  : result ValidationContext.t :=
  let uniqueGradeCodes := unique (map FixtureRow.gradeCode fixtureRows) in
  let* grades := gradeRepo_findBySeasonIDAndCodes repositories seasonID uniqueGradeCodes in
  let* teams := teamRepo_findBySeasonID repositories seasonID in
  let* existingFixtures := gradeRepo_hasFixtures repositories uniqueGradeCodes in
  Ok {| ValidationContext.seasonID := seasonID;
        ValidationContext.grades := grades;
        ValidationContext.teams := teams;
        ValidationContext.existingFixtures := existingFixtures |}.

(** Steps 2 and 3 of [validateBusinessRules], once the context is there. *)
Definition rowErrors (context : ValidationContext.t) (fixtureRows : list FixtureRow.t)
  : list ValidationError.t :=
  fold_left (fun errors row => errors ++ validateFixtureRow host row context)
            fixtureRows [].

Definition validateBusinessRules (fixtureRows : list FixtureRow.t) (seasonID : string)
  : result (list ValidationError.t) :=
  let* context := loadValidationContext seasonID fixtureRows in
  let errors := rowErrors context fixtureRows in
  Ok (errors ++ validateCrossRowRules fixtureRows).

Definition validateS3File (seasonID objectKey : string) : S3FileValidation :=
  let attempt :=
    let* fileBuffer := getObject "upload-bucket" objectKey in
    let parseResult := parseAndValidateFile fileBuffer in
    if Nat.ltb 0 (length (formatErrors parseResult))
    then Ok {| fileBuffer := None;
               validationErrors :=
                 Some (map ValidationError.message (formatErrors parseResult));
               objectKey := objectKey |}
    else
      let* businessValidationErrors :=
        validateBusinessRules (fixtureRows parseResult) seasonID in
      let allErrors := formatErrors parseResult ++ businessValidationErrors in
      Ok {| fileBuffer := Some fileBuffer;
            validationErrors :=
              if Nat.ltb 0 (length allErrors)
              then Some (map ValidationError.message allErrors) else None;
            objectKey := objectKey |} in
  match attempt with
  | Ok r => r
  | Throw _ =>
      {| fileBuffer := None;
         validationErrors := Some ["Failed to access or process uploaded file"];
         objectKey := objectKey |}
  end.

End WithCollaborators.

End FixtureValidationService.

(** ** Repository layer, Postgres (repository.ts) *)

Module RoundParam.
Record game := mkGame {
  id : string;
  homeTeamID : string;
  awayTeamID : string;
  date : string;
  provisionalDates : option (list string);
}.
Record round_t := mkRound {
  sequenceNo : Z;
  provisionalDate : string;
}.
Record t := mk {
  round : round_t;
  games : list game;
}.
End RoundParam.

Module GradeAttributes.
Record t := mk {
  noOfRounds : number;
  startDate : option string;
}.
End GradeAttributes.

(** An object whose key order matters ([Object.keys]): the entries in key
    order. *)
Definition Object_keys {V} (o : list (string * V)) : list string := map fst o.

Definition Object_get {V} (o : list (string * V)) (k : string) : option V :=
  snd <$> List.find (fun kv => String.eqb (fst kv) k) o.

Module Postgres.

(** The tables the statements of the persist service touch, with the
    columns they name; the timestamp columns are left out. *)
Record RoundRow := {
  round_id : nat;
  round_grade_id : string;
  sequence_no : Z;
  provisional_date : string;
}.

Record GameRow := {
  game_id : string;
  game_round_id : nat;
  home_team_id : string;
  away_team_id : string;
  game_date : string;
  provisional_dates : list string;
}.

(** [no_of_rounds] and [start_date] hold what the last UPDATE was given;
    a parameter that was [undefined] leaves nothing ([None]). *)
Record GradeRow := {
  grade_id : string;
  no_of_rounds : option number;
  start_date : option string;
}.

Record Database := {
  rounds : list RoundRow;
  games : list GameRow;
  grades : list GradeRow;
  (** the sequence behind [rounds.id] *)
  next_round_id : nat;
}.

Inductive Statement :=
| BEGIN
| COMMIT
| ROLLBACK
| UpsertRound (grade_id : string) (sequence_no : Z) (provisional_date : string)
| InsertGame (id : string) (round_id : nat) (home_team_id away_team_id date : string)
             (provisional_dates : list string)
| UpdateGrade (id : string) (no_of_rounds : option number) (start_date : option string).

(** What [RETURNING] hands back. *)
Inductive Rows :=
| NoRows
| RoundIds (ids : list nat)
| GameIds (ids : list string).

Definition isWrite (s : Statement) : bool :=
  match s with
  | UpsertRound _ _ _ | InsertGame _ _ _ _ _ _ | UpdateGrade _ _ _ => true
  | _ => false
  end.

Definition sameRound (g : string) (n : Z) (r : RoundRow) : bool :=
  String.eqb (round_grade_id r) g && Z.eqb (sequence_no r) n.

(** INSERT INTO rounds ... ON CONFLICT (grade_id, sequence_no) DO UPDATE
    SET provisional_date = EXCLUDED.provisional_date RETURNING id *)
Definition upsertRound (g : string) (n : Z) (d : string) (db : Database)
  : Database * Rows :=
  if existsb (sameRound g n) (rounds db)
  then
    ({| rounds := map (fun r => if sameRound g n r
                                then {| round_id := round_id r;
                                        round_grade_id := round_grade_id r;
                                        sequence_no := sequence_no r;
                                        provisional_date := d |}
                                else r) (rounds db);
        games := games db;
        grades := grades db;
        next_round_id := next_round_id db |},
     RoundIds (map round_id (List.filter (sameRound g n) (rounds db))))
  else
    ({| rounds := rounds db ++ [{| round_id := next_round_id db;
                                   round_grade_id := g;
                                   sequence_no := n;
                                   provisional_date := d |}];
        games := games db;
        grades := grades db;
        next_round_id := S (next_round_id db) |},
     RoundIds [next_round_id db]).

Definition hasGame (id : string) (db : Database) : bool :=
  existsb (fun g => String.eqb (game_id g) id) (games db).

Section Schema.
(** Whether [games.id] carries a primary-key or unique constraint; the
    schema is not part of the repository. *)
Context (games_id_unique : bool).

(** INSERT INTO games (...) VALUES (...) RETURNING id: a plain insert. *)
Definition insertGame (row : GameRow) (db : Database) : result (Database * Rows) :=
  if games_id_unique && hasGame (game_id row) db
  then Throw (Error "duplicate key value violates unique constraint")
  else Ok ({| rounds := rounds db;
              games := games db ++ [row];
              grades := grades db;
              next_round_id := next_round_id db |},
           GameIds [game_id row]).

(** UPDATE grades SET no_of_rounds = $2, start_date = $3 WHERE id = $1 *)
Definition updateGrade (id : string) (n : option number) (d : option string)
           (db : Database)
  : Database * Rows :=
  ({| rounds := rounds db;
      games := games db;
      grades := map (fun g => if String.eqb (grade_id g) id
                              then {| grade_id := grade_id g;
                                      no_of_rounds := n;
                                      start_date := d |}
                              else g) (grades db);
      next_round_id := next_round_id db |},
   NoRows).

Definition exec (s : Statement) (db : Database) : result (Database * Rows) :=
  match s with
  | UpsertRound g n d => Ok (upsertRound g n d db)
  | InsertGame id rid h a d pd =>
      insertGame {| game_id := id; game_round_id := rid; home_team_id := h;
                    away_team_id := a; game_date := d; provisional_dates := pd |} db
  | UpdateGrade id n d => Ok (updateGrade id n d db)
  | _ => Ok (db, NoRows)
  end.

(** A pooled connection: the committed database, the working copy of
    the open transaction if there is one, and the statements issued so
    far, each with whether it succeeded. *)
Record Client := {
  committed : Database;
  working : option Database;
  issued : list (Statement * bool);
  released : bool;
}.

(** Failures from outside the data (connection, timeout): the n-th
    statement issued on the connection fails when [fails n]. *)
Context (fails : nat -> bool).

Definition visible (c : Client) : Database := default (committed c) (working c).

Definition logged (s : Statement) (ok : bool) (c : Client) : list (Statement * bool) :=
  issued c ++ [(s, ok)].

(** [client.query]: a failed statement changes nothing. *)
Definition query (s : Statement) : M Client Rows :=
  fun c =>
    if fails (length (issued c))
    then (Throw (Error "query failed"),
          {| committed := committed c; working := working c;
             issued := logged s false c; released := released c |})
    else
      match s with
      | BEGIN =>
          (Ok NoRows,
           {| committed := committed c; working := Some (visible c);
              issued := logged s true c; released := released c |})
      | COMMIT =>
          (Ok NoRows,
           {| committed := visible c; working := None;
              issued := logged s true c; released := released c |})
      | ROLLBACK =>
          (Ok NoRows,
           {| committed := committed c; working := None;
              issued := logged s true c; released := released c |})
      | _ =>
          match exec s (visible c) with
          | Ok (db, rows) =>
              (Ok rows,
               match working c with
               | Some _ =>
                   {| committed := committed c; working := Some db;
                      issued := logged s true c; released := released c |}
               | None =>
                   {| committed := db; working := None;
                      issued := logged s true c; released := released c |}
               end)
          | Throw e =>
              (Throw e,
               {| committed := committed c; working := working c;
                  issued := logged s false c; released := released c |})
          end
      end.

Definition release (c : Client) : Client :=
  {| committed := committed c; working := working c;
     issued := issued c; released := true |}.

End Schema.

End Postgres.

Module FixturePersistService.
Import Postgres.

Record PersistResult := {
  gradeIDs : list string;
  teamIDs : list string;
  gameIDs : list string;
}.

(** [rows[0].round_id] and [rows[0].game_id]: reading a column of a
    missing first row is a TypeError. *)
Definition firstRoundId (rows : Rows) : result nat :=
  match rows with
  | RoundIds (id :: _) => Ok id
  | _ => Throw (TypeError "Cannot read properties of undefined (reading 'round_id')")
  end.

Definition firstGameId (rows : Rows) : result string :=
  match rows with
  | GameIds (id :: _) => Ok id
  | _ => Throw (TypeError "Cannot read properties of undefined (reading 'game_id')")
  end.

Section WithStore.
Context (games_id_unique : bool) (fails : nat -> bool).

Abbreviation query := (Postgres.query games_id_unique fails).

(** The loop over [roundParam.games]. *)
Fixpoint persistGames (roundID : nat) (games : list RoundParam.game)
         (gameIDs teamIDs : list string)
  : M Client (list string * list string) :=
  match games with
  | [] => ret (gameIDs, teamIDs)
  | gameData :: rest =>
      let! gameResult :=
        query (InsertGame (RoundParam.id gameData) roundID
                          (RoundParam.homeTeamID gameData)
                          (RoundParam.awayTeamID gameData)
                          (RoundParam.date gameData)
                          (default [] (RoundParam.provisionalDates gameData))) in
      let! gameID := lift (firstGameId gameResult) in
      persistGames roundID rest
        (gameIDs ++ [gameID])
        (teamIDs ++ [RoundParam.homeTeamID gameData; RoundParam.awayTeamID gameData])
  end.

Definition persistRound (gradeID : string) (roundParam : RoundParam.t)
  : M Client (list string * list string) :=
  let! roundResult :=
    query (UpsertRound gradeID
             (RoundParam.sequenceNo (RoundParam.round roundParam))
             (RoundParam.provisionalDate (RoundParam.round roundParam))) in
  let! roundID := lift (firstRoundId roundResult) in
  persistGames roundID (RoundParam.games roundParam) [] [].

(** [attributes] is what [gradeAttributes[gradeID]] gave: reading
    [noOfRounds] of [undefined] is a TypeError; a function or
    [Object.prototype] has neither property, and the UPDATE is issued with
    both values [undefined]. *)
Definition updateGradeAttributes (gradeID : string)
           (attributes : property GradeAttributes.t) : M Client unit :=
  match attributes with
  | Undefined =>
      throw (TypeError "Cannot read properties of undefined (reading 'noOfRounds')")
  | Own a =>
      let! _ := query (UpdateGrade gradeID
                         (Some (GradeAttributes.noOfRounds a))
                         (GradeAttributes.startDate a)) in
      ret ()
  | Inherited _ =>
      let! _ := query (UpdateGrade gradeID None None) in
      ret ()
  end.

(** The loop over one grade's rounds. *)
Fixpoint persistRounds (gradeID : string) (roundParams : list RoundParam.t)
         (allGameIDs allTeamIDs : list string)
  : M Client (list string * list string) :=
  match roundParams with
  | [] => ret (allGameIDs, allTeamIDs)
  | roundParam :: rest =>
      let! ids := persistRound gradeID roundParam in
      persistRounds gradeID rest (allGameIDs ++ fst ids) (allTeamIDs ++ snd ids)
  end.

(** The loop over the grades. *)
Fixpoint persistGrades (roundsParams : list (string * list RoundParam.t))
         (gradeAttributes : gmap string GradeAttributes.t)
         (gradeIDs : list string) (allGameIDs allTeamIDs : list string)
  : M Client (list string * list string) :=
  match gradeIDs with
  | [] => ret (allGameIDs, allTeamIDs)
  | gradeID :: rest =>
      let! roundParams :=
        match Object_get roundsParams gradeID with
        | Some rs => ret rs
        | None => throw (TypeError "roundParams is not iterable")
        end in
      let! ids := persistRounds gradeID roundParams allGameIDs allTeamIDs in
      let! _ := updateGradeAttributes gradeID (get gradeAttributes gradeID) in
      persistGrades roundsParams gradeAttributes rest (fst ids) (snd ids)
  end.

Definition persist (roundsParams : list (string * list RoundParam.t))
           (competitionType : string)
           (gradeAttributes : gmap string GradeAttributes.t)
  : M Client PersistResult :=
  let gradeIDs := Object_keys roundsParams in
  finally
    (tryCatch
       (let! _ := query BEGIN in
        let! ids := persistGrades roundsParams gradeAttributes gradeIDs [] [] in
        let! _ := query COMMIT in
        ret {| gradeIDs := gradeIDs;
               teamIDs := unique (snd ids);
               gameIDs := fst ids |})
       (fun error =>
          let! _ := query ROLLBACK in
          throw error))
    release.

End WithStore.

End FixturePersistService.

(** ** Upload handler (interview-simplified-fixture-handler.ts) *)

Module GameNode.
Record t := mk {
  id : string;
  gradeID : string;
  homeTeamID : string;
  awayTeamID : string;
  date : string;
  provisionalDates : list string;
}.
End GameNode.

Module Round.
Record t := mk {
  id : string;
  gradeID : string;
  sequenceNo : Z;
  provisionalDate : string;
}.
End Round.

Module Competition.
Inductive kind := DOMESTIC | TOURNAMENT.
Definition kind_to_string (k : kind) : string :=
  match k with
  | DOMESTIC => "DOMESTIC"
  | TOURNAMENT => "TOURNAMENT"
  end.
Record t := mk {
  id : string;
  seasonID : string;
  type : kind;
}.
End Competition.

Module SimplifiedFixtureUploadHandler.
Import FixtureValidationService.

Record FixtureUploadCommand := {
  seasonID : string;
  objectKey : string;
}.

(** [fixture] is null on every path and is left out. *)
Record BulkFixtureUpload := {
  errors : option (list string);
}.

Inductive Event :=
| CalculateLadder (gradeID : string)
| GamesAllocated (games : list GameNode.t)
| GamesAllocationCreated (gameIDs : list string)
| TeamUpdated (teamIDs : list string)
| FixtureUpdated (gradeID : string)
| FixtureCreated (gradeID : string).

Record Response := {
  result_ : BulkFixtureUpload;
  events : list Event;
}.

Record UploadResult := {
  gradeIDs : list string;
  teamIDs : list string;
  newGameIDs : list string;
  existingGames : list GameNode.t;
  hasFixtureByGradeIDs : gmap string bool;
}.

(** The repositories handed to the handler.  The lookups answer from the
    store as it is when they are called; [persist] writes to it. *)
Record FixtureRepositories (W : Type) := {
  gradeRepo_hasFixtures : list string -> result (gmap string bool);
  gameRepo_findByGradeIDs : list string -> result (list (string * list GameNode.t));
  competitionRepo_findBySeasonID : string -> result (option Competition.t);
  roundRepo_findByGradeIDs : list string -> result (gmap string (list Round.t));
  persistService_persist :
    list (string * list RoundParam.t) -> string -> gmap string GradeAttributes.t ->
    M W FixturePersistService.PersistResult;
}.
Arguments gradeRepo_hasFixtures {W} _.
Arguments gameRepo_findByGradeIDs {W} _.
Arguments competitionRepo_findBySeasonID {W} _.
Arguments roundRepo_findByGradeIDs {W} _.
Arguments persistService_persist {W} _.

(** [a || b] on possibly missing strings. *)
Definition orElse (a b : option string) : option string :=
  match a with
  | Some s => if truthy s then Some s else b
  | None => b
  end.

(** [existingRounds.length] and [existingRounds[0]] on what
    [allRoundsByGrade[gradeID] || []] gave: the rounds under an own
    property, the empty array when nothing is found, and otherwise what
    the grade id names in [Object.prototype], a function (with its
    [length] and no element) or the prototype itself (with neither). *)
Definition lengthOf (existingRounds : property (list Round.t)) : option Z :=
  match existingRounds with
  | Own rounds => Some (Z.of_nat (length rounds))
  | Inherited (BuiltinFunction n) => Some (Z.of_nat n)
  | Inherited ObjectPrototype => None
  | Undefined => Some 0%Z
  end.

(** [length + n], where [length] may be [undefined]. *)
Definition plus (length : option Z) (n : Z) : number :=
  match length with
  | Some m => Finite (m + n)
  | None => NaN
  end.

Definition firstOf (existingRounds : property (list Round.t)) : option Round.t :=
  match existingRounds with
  | Own rounds => head rounds
  | _ => None
  end.

(** [undefined + n] is NaN. *)
Definition gradeAttributesOf (existingRounds : property (list Round.t))
           (suppliedRounds : list RoundParam.t) : GradeAttributes.t :=
  let totalRoundsCount : number :=
    plus (lengthOf existingRounds) (Z.of_nat (length suppliedRounds)) in
  let firstDate :=
    orElse (Round.provisionalDate <$> firstOf existingRounds)
           ((fun r => RoundParam.provisionalDate (RoundParam.round r))
              <$> head suppliedRounds) in
  {| GradeAttributes.noOfRounds := totalRoundsCount;
     GradeAttributes.startDate := firstDate |}.

(** The body of the [reduce] in [calculateGradeAttributes].  The
    accumulator maps a grade id to what reading it gives back: the
    assignment makes an own property, except under [__proto__], where it
    makes the attributes the accumulator's prototype and the read returns
    them all the same. *)
Definition attributesStep (roundsParams : list (string * list RoundParam.t))
           (allRoundsByGrade : gmap string (list Round.t))
           (acc : result (gmap string GradeAttributes.t)) (gradeID : string)
  : result (gmap string GradeAttributes.t) :=
  let* acc := acc in
  let existingRounds := get allRoundsByGrade gradeID in
  match Object_get roundsParams gradeID with
  | None => Throw (TypeError "Cannot read properties of undefined (reading 'length')")
  | Some suppliedRounds =>
      Ok (<[gradeID := gradeAttributesOf existingRounds suppliedRounds]> acc)
  end.

Definition getFixtureWebhookEvents (gradeIDs : list string)
           (hasFixtureByGradeIDs : gmap string bool) : list Event :=
  map (fun gradeID =>
         if holds (get hasFixtureByGradeIDs gradeID)
         then FixtureUpdated gradeID else FixtureCreated gradeID)
      gradeIDs.

Definition generateEvents (uploadResult : UploadResult) : list Event :=
  let events := map CalculateLadder (gradeIDs uploadResult) in
  let events :=
    if Nat.ltb 0 (length (existingGames uploadResult))
    then events ++ [GamesAllocated (existingGames uploadResult)] else events in
  let events :=
    if Nat.ltb 0 (length (newGameIDs uploadResult))
    then events ++ [GamesAllocationCreated (newGameIDs uploadResult)] else events in
  let events := events ++ [TeamUpdated (teamIDs uploadResult)] in
  events ++ getFixtureWebhookEvents (gradeIDs uploadResult)
                                    (hasFixtureByGradeIDs uploadResult).

Section WithCollaborators.
Context {W : Type}.
Context (host : Host).
Context (simulateExcelParsing : string -> result (list RawRow.t)).
Context (validationRepositories : ValidationRepositories).
(** [s3Adapter.getObject] and [s3Adapter.copy] *)
Context (getObject : string -> string -> result string).
Context (copy : string -> string -> string -> M W unit).
Context (repositories : FixtureRepositories W).
(** The workbook parser behind [parseFixtureFile]; it is handed
    [fileBuffer!], the buffer of the validation as it is. *)
Context (parseFixtureFile :
           option string -> string -> result (list (string * list RoundParam.t))).

Definition calculateGradeAttributes (roundsParams : list (string * list RoundParam.t))
  : result (gmap string GradeAttributes.t) :=
  let gradeIDs := Object_keys roundsParams in
  let* allRoundsByGrade := roundRepo_findByGradeIDs repositories gradeIDs in
  fold_left (attributesStep roundsParams allRoundsByGrade) gradeIDs (Ok ∅).

Definition processFixtureUpload (fileBuffer : option string) (seasonID : string)
  : M W UploadResult :=
  let! roundsParams := lift (parseFixtureFile fileBuffer seasonID) in
  let gradeIDs := Object_keys roundsParams in
  let! hasFixtureByGradeIDs := lift (gradeRepo_hasFixtures repositories gradeIDs) in
  let! gamesByGradeIDs := lift (gameRepo_findByGradeIDs repositories gradeIDs) in
  let! competition := lift (competitionRepo_findBySeasonID repositories seasonID) in
  let! gradeAttributes := lift (calculateGradeAttributes roundsParams) in
  let! persistResult :=
    persistService_persist repositories roundsParams
      (default "DOMESTIC"
         ((fun c => Competition.kind_to_string (Competition.type c)) <$> competition))
      gradeAttributes in
  ret {| gradeIDs := FixturePersistService.gradeIDs persistResult;
         teamIDs := FixturePersistService.teamIDs persistResult;
         newGameIDs := FixturePersistService.gameIDs persistResult;
         existingGames := concat (map snd gamesByGradeIDs);
         hasFixtureByGradeIDs := hasFixtureByGradeIDs |}.

(** [validationErrors?.length] as a condition. *)
Definition hasErrors (validationErrors : option (list string)) : bool :=
  match validationErrors with
  | Some es => Nat.ltb 0 (length es)
  | None => false
  end.

Definition handle (command : FixtureUploadCommand) : M W Response :=
  tryCatch
    (let validation :=
       validateS3File host simulateExcelParsing validationRepositories getObject
                      (seasonID command) (objectKey command) in
     if hasErrors (validationErrors validation)
     then ret {| result_ := {| errors := validationErrors validation |};
                 events := [] |}
     else
       let! _ := copy "source-bucket" "dest-bucket"
                      (FixtureValidationService.objectKey validation) in
       let! uploadResult :=
         processFixtureUpload (fileBuffer validation) (seasonID command) in
       ret {| result_ := {| errors := None |};
              events := generateEvents uploadResult |})
    (fun _ => throw (Error "Fixture upload failed")).

End WithCollaborators.

End SimplifiedFixtureUploadHandler.

(** ** Worked inputs *)

Module Examples.
Import FixtureValidationService.

(** 15 March 2024 and 17 March 2024, midnight UTC, seen from a processing
    time of 16 March 2024.  The host reads a string of decimal digits as
    that number; the examples give it no other string. *)
Definition host : Host :=
  {| Date_parse := fun s =>
       if String.eqb s "03/15/2024" then Some 1710460800000%Z
       else if String.eqb s "03/17/2024" then Some 1710633600000%Z
       else None;
     Date_now := 1710547200000%Z;
     ToNumber := fun s =>
       if forallb is_digit (list_ascii_of_string s)
       then inject_Z <$> read_digits 10 s (Some 0%Z)
       else None |}.

Definition gradeA1 : Grade.t :=
  {| Grade.id := "A1"; Grade.code := "A1"; Grade.seasonID := "s1"; Grade.noOfRounds := 4 |}.

Definition teamsA1 : list Team.t :=
  [ {| Team.id := "t1"; Team.name := "Lions"; Team.gradeID := "A1" |};
    {| Team.id := "t2"; Team.name := "Tigers"; Team.gradeID := "A1" |};
    {| Team.id := "t3"; Team.name := "Bears"; Team.gradeID := "A1" |} ].

Definition context (hasFixtures : gmap string bool) : ValidationContext.t :=
  {| ValidationContext.seasonID := "s1";
     ValidationContext.grades := [gradeA1];
     ValidationContext.teams := teamsA1;
     ValidationContext.existingFixtures := hasFixtures |}.

Definition lionsTigers (gradeCode date : string) : FixtureRow.t :=
  {| FixtureRow.gradeCode := gradeCode;
     FixtureRow.homeTeam := "Lions";
     FixtureRow.awayTeam := "Tigers";
     FixtureRow.date := date;
     FixtureRow.round := Finite 1;
     FixtureRow.gameType := None |}.

Definition yesterday : FixtureRow.t := lionsTigers "A1" "15/03/2024".

(** Workbook rows: a well-formed one, one whose team names differ only by
    a trailing blank, one without an away team. *)
Definition rawRow (gradeCode homeTeam : string) (awayTeam : option string) : RawRow.t :=
  {| RawRow.gradeCode := Some gradeCode;
     RawRow.homeTeam := Some homeTeam;
     RawRow.awayTeam := awayTeam;
     RawRow.date := Some "17/03/2024";
     RawRow.round := Some "1";
     RawRow.gameType := None |}.

Definition paddedLions : RawRow.t := rawRow "A1" "Lions" (Some "Lions ").

(** An upload of two rows: the first names a grade the season does not
    have, the second lacks its away team. *)
Definition mixedUpload : list RawRow.t :=
  [rawRow "B7" "Lions" (Some "Tigers"); rawRow "A1" "Lions" None].

Definition repositories : ValidationRepositories :=
  {| gradeRepo_findBySeasonIDAndCodes := fun _ _ => Ok [gradeA1];
     teamRepo_findBySeasonID := fun _ => Ok teamsA1;
     gradeRepo_hasFixtures := fun _ => Ok ∅ |}.

Definition getObject (bucket key : string) : result string := Ok "excel-file-content".


Definition repositoriesWithRounds (existing : gmap string (list Round.t))
  : SimplifiedFixtureUploadHandler.FixtureRepositories nat :=
  {| SimplifiedFixtureUploadHandler.gradeRepo_hasFixtures := fun _ => Ok ∅;
     SimplifiedFixtureUploadHandler.gameRepo_findByGradeIDs := fun _ => Ok [];
     SimplifiedFixtureUploadHandler.competitionRepo_findBySeasonID := fun _ => Ok None;
     SimplifiedFixtureUploadHandler.roundRepo_findByGradeIDs := fun _ => Ok existing;
     SimplifiedFixtureUploadHandler.persistService_persist := fun roundsParams _ _ n =>
       (Ok {| FixturePersistService.gradeIDs := Object_keys roundsParams;
              FixturePersistService.teamIDs := [];
              FixturePersistService.gameIDs := [] |}, S n) |}.


(** A grade with one persisted round, and an upload that supplies its
    second round. *)
Definition persistedRound (provisionalDate : string) : Round.t :=
  {| Round.id := "r1"; Round.gradeID := "g1"; Round.sequenceNo := 1;
     Round.provisionalDate := provisionalDate |}.

Definition secondRound : list (string * list RoundParam.t) :=
  [("g1", [ {| RoundParam.round := {| RoundParam.sequenceNo := 2;
                                       RoundParam.provisionalDate := "2024-03-22" |};
               RoundParam.games := [] |} ])].

Definition command : SimplifiedFixtureUploadHandler.FixtureUploadCommand :=
  {| SimplifiedFixtureUploadHandler.seasonID := "s1";
     SimplifiedFixtureUploadHandler.objectKey := "fixtures.xlsx" |}.

(** A database with one grade and one persisted round of it. *)
Definition seededDatabase : Postgres.Database :=
  {| Postgres.rounds :=
       [ {| Postgres.round_id := 1; Postgres.round_grade_id := "g1";
            Postgres.sequence_no := 1; Postgres.provisional_date := "2024-03-15" |} ];
     Postgres.games := [];
     Postgres.grades :=
       [ {| Postgres.grade_id := "g1"; Postgres.no_of_rounds := Some (Finite 1);
            Postgres.start_date := Some "2024-03-15" |} ];
     Postgres.next_round_id := 2 |}.

(** A connection on that database, an upload of the grade's second round
    with two games, and the attributes computed for it. *)
Definition client (db : Postgres.Database) : Postgres.Client :=
  {| Postgres.committed := db; Postgres.working := None;
     Postgres.issued := []; Postgres.released := false |}.

Definition game (id homeTeamID awayTeamID : string) : RoundParam.game :=
  {| RoundParam.id := id; RoundParam.homeTeamID := homeTeamID;
     RoundParam.awayTeamID := awayTeamID; RoundParam.date := "2024-03-22";
     RoundParam.provisionalDates := None |}.

Definition twoGames : list (string * list RoundParam.t) :=
  [("g1", [ {| RoundParam.round := {| RoundParam.sequenceNo := 2;
                                       RoundParam.provisionalDate := "2024-03-22" |};
               RoundParam.games := [game "x1" "t1" "t2"; game "x2" "t3" "t1"] |} ])].

Definition twoGamesAttributes : gmap string GradeAttributes.t :=
  {[ "g1" := {| GradeAttributes.noOfRounds := Finite 2;
                GradeAttributes.startDate := Some "2024-03-15" |} ]}.

(** No outside failure, and a failure of the statement numbered [k]. *)
Definition noFailure (n : nat) : bool := false.
Definition failAt (k n : nat) : bool := Nat.eqb n k.

End Examples.

(** ** Vocabulary of the specification *)

(** Two rows name the same game: identical (gradeCode, homeTeam, awayTeam,
    round). *)
Definition sameGame (r1 r2 : FixtureRow.t) : Prop :=
  FixtureRow.gradeCode r1 = FixtureRow.gradeCode r2
  ∧ FixtureRow.homeTeam r1 = FixtureRow.homeTeam r2
  ∧ FixtureRow.awayTeam r1 = FixtureRow.awayTeam r2
  ∧ FixtureRow.round r1 = FixtureRow.round r2.

(** The ids in the games table, in row order. *)
Definition gameIds (db : Postgres.Database) : list string :=
  map Postgres.game_id (Postgres.games db).

(** The game ids an upload supplies, in the order the loops meet them. *)
Definition roundGameIDs (roundParam : RoundParam.t) : list string :=
  map RoundParam.id (RoundParam.games roundParam).

Definition roundsGameIDs (roundParams : list RoundParam.t) : list string :=
  concat (map roundGameIDs roundParams).

Definition gradesGameIDs (roundsParams : list (string * list RoundParam.t))
           (gradeIDs : list string) : list string :=
  concat (map (fun gradeID => roundsGameIDs (default [] (Object_get roundsParams gradeID)))
              gradeIDs).

Definition suppliedGameIDs (roundsParams : list (string * list RoundParam.t)) : list string :=
  gradesGameIDs roundsParams (Object_keys roundsParams).

(** What a piece of [persist] that runs inside the open transaction does to
    the connection: the committed database and the release flag stay, the
    transaction stays open, statements are appended to the log; and when it
    returns, with a value satisfying [Q], every statement it issued
    succeeded and the games table has grown by exactly the ids [new], each
    of them unseen before if game ids are unique. *)
Definition inTransaction {A} (games_id_unique : bool) (m : M Postgres.Client A)
           (Q : A -> Prop) (new : list string) : Prop :=
  ∀ (c : Postgres.Client) (db : Postgres.Database),
    Postgres.working c = Some db →
    ∃ (l : list (Postgres.Statement * bool)) (db' : Postgres.Database),
      (m c).2 = {| Postgres.committed := Postgres.committed c;
                   Postgres.working := Some db';
                   Postgres.issued := Postgres.issued c ++ l;
                   Postgres.released := Postgres.released c |}
      ∧ match (m c).1 with
        | Ok a =>
            Q a
            ∧ Forall (fun e => e.2 = true) l
            ∧ gameIds db' = gameIds db ++ new
            ∧ (games_id_unique = true → Forall (fun i => i ∉ gameIds db) new)
        | Throw _ => True
        end.

(** ** Reference definitions *)

(** The verdict on one row read off the rows before it, by scanning them:
    the row repeats a game signature; its home team, or its away team, is
    already booked for the round under the team's key. *)
Definition sharesTeamRound (key : string) (n : number) (r : FixtureRow.t) : bool :=
  bool_decide (FixtureRow.round r = n)
  && (String.eqb (FixtureValidationService.teamKey r (FixtureRow.homeTeam r)) key
      || String.eqb (FixtureValidationService.teamKey r (FixtureRow.awayTeam r)) key).

Definition crossRowVerdict (earlier : list FixtureRow.t) (row : FixtureRow.t)
  : list ValidationError.t :=
  (if existsb (fun r => String.eqb (FixtureValidationService.gameSignature r)
                                   (FixtureValidationService.gameSignature row)) earlier
   then [FixtureValidationService.duplicateGame row] else [])
  ++ (if existsb (sharesTeamRound
                    (FixtureValidationService.teamKey row (FixtureRow.homeTeam row))
                    (FixtureRow.round row)) earlier
      then [FixtureValidationService.doubleBooked (FixtureRow.homeTeam row) row] else [])
  ++ (if existsb (sharesTeamRound
                    (FixtureValidationService.teamKey row (FixtureRow.awayTeam row))
                    (FixtureRow.round row)) earlier
      then [FixtureValidationService.doubleBooked (FixtureRow.awayTeam row) row] else []).

(** The row built from a raw row whose cells are all there, and the
    outcome of the validation loop told row by row, starting at a given
    index: the errors of each row under its row number, and the rows that
    have none. *)
Definition trimmedRow (row : RawRow.t) : FixtureRow.t :=
  {| FixtureRow.gradeCode := trim (default EmptyString (RawRow.gradeCode row));
     FixtureRow.homeTeam := trim (default EmptyString (RawRow.homeTeam row));
     FixtureRow.awayTeam := trim (default EmptyString (RawRow.awayTeam row));
     FixtureRow.date := default EmptyString (RawRow.date row);
     FixtureRow.round := default NaN (parseInt <$> RawRow.round row);
     FixtureRow.gameType := trim <$> RawRow.gameType row |}.

Fixpoint rowErrorsFrom (host : Host) (index : nat) (rows : list RawRow.t)
  : list ValidationError.t :=
  match rows with
  | [] => []
  | row :: rest =>
      FixtureValidationService.rowFormatErrors host row (index + 2)
        ++ rowErrorsFrom host (S index) rest
  end.

Fixpoint rowsAcceptedFrom (host : Host) (index : nat) (rows : list RawRow.t)
  : list FixtureRow.t :=
  match rows with
  | [] => []
  | row :: rest =>
      match FixtureValidationService.rowFormatErrors host row (index + 2) with
      | [] => trimmedRow row :: rowsAcceptedFrom host (S index) rest
      | _ => rowsAcceptedFrom host (S index) rest
      end
  end.

(** ** Further worked inputs *)

Module MoreExamples.
Import FixtureValidationService.

(** A grade whose id is not its code, and lookups that flag every grade
    code they are asked about as having fixtures. *)
Definition gradeG1 : Grade.t :=
  {| Grade.id := "g1"; Grade.code := "A1"; Grade.seasonID := "s1"; Grade.noOfRounds := 4 |}.

Definition flaggingRepositories : ValidationRepositories :=
  {| gradeRepo_findBySeasonIDAndCodes := fun _ _ => Ok [gradeG1];
     teamRepo_findBySeasonID := fun _ => Ok [];
     gradeRepo_hasFixtures := fun codes =>
       Ok (list_to_map ((fun code => (code, true)) <$> codes)) |}.

Definition flaggedContext : ValidationContext.t :=
  {| ValidationContext.seasonID := "s1";
     ValidationContext.grades := [gradeG1];
     ValidationContext.teams := [];
     ValidationContext.existingFixtures := list_to_map [("A1", true)] |}.

End MoreExamples.

(** ** Further vocabulary for the persistence service *)

(** The team ids an upload supplies, home before away, in the order the
    loops meet the games. *)
Definition gamesTeamIDs (games : list RoundParam.game) : list string :=
  concat (map (fun g => [RoundParam.homeTeamID g; RoundParam.awayTeamID g]) games).

Definition roundsTeamIDs (roundParams : list RoundParam.t) : list string :=
  concat (map (fun r => gamesTeamIDs (RoundParam.games r)) roundParams).

Definition gradesTeamIDs (roundsParams : list (string * list RoundParam.t))
           (gradeIDs : list string) : list string :=
  concat (map (fun gradeID => roundsTeamIDs (default [] (Object_get roundsParams gradeID)))
              gradeIDs).

Definition suppliedTeamIDs (roundsParams : list (string * list RoundParam.t)) : list string :=
  gradesTeamIDs roundsParams (Object_keys roundsParams).

(** One connection state reached from another by write statements alone. *)
Inductive writes (games_id_unique : bool) (fails : nat -> bool)
  : Postgres.Client -> Postgres.Client -> Prop :=
| writes_none (c : Postgres.Client) : writes games_id_unique fails c c
| writes_more (c c' c'' : Postgres.Client) (s : Postgres.Statement) :
    Postgres.isWrite s = true →
    c' = (Postgres.query games_id_unique fails s c).2 →
    writes games_id_unique fails c' c'' →
    writes games_id_unique fails c c''.


(** A property of the database that no successful write statement breaks. *)
Definition keptByWrites (games_id_unique : bool) (I : Postgres.Database -> Prop) : Prop :=
  ∀ s db db' rows,
    Postgres.isWrite s = true →
    Postgres.exec games_id_unique s db = Ok (db', rows) →
    I db → I db'.

(** The rounds table as its constraints want it: one row per (grade,
    sequence number), one row per id, every id below the next id of the
    sequence. *)
Definition roundKey (r : Postgres.RoundRow) : string * Z :=
  (Postgres.round_grade_id r, Postgres.sequence_no r).

Definition roundsWellFormed (db : Postgres.Database) : Prop :=
  NoDup (map roundKey (Postgres.rounds db))
  ∧ NoDup (map Postgres.round_id (Postgres.rounds db))
  ∧ Forall (fun r => (Postgres.round_id r < Postgres.next_round_id db)%nat)
           (Postgres.rounds db).

(** The supplied game ids can be inserted into a games table holding the
    ids [stored]: always when game ids need not be unique, and otherwise
    when the supplied ids are pairwise distinct and none is stored yet. *)
Definition freshGames (games_id_unique : bool) (supplied stored : list string) : Prop :=
  games_id_unique = true → NoDup supplied ∧ Forall (fun id => id ∉ stored) supplied.

(** A piece of [persist] that is certain to return when it starts inside
    the open transaction on a games table that can take the ids [new], and
    that leaves the transaction open with these ids appended. *)
Definition runsWhen {A} (games_id_unique : bool) (m : M Postgres.Client A)
           (new : list string) : Prop :=
  ∀ (c : Postgres.Client) (db : Postgres.Database),
    Postgres.working c = Some db →
    freshGames games_id_unique new (gameIds db) →
    ∃ a c' db', m c = (Ok a, c')
                ∧ Postgres.working c' = Some db'
                ∧ gameIds db' = gameIds db ++ new.

(** A grade row given the attributes read for it, and the grades table
    after the attribute update of one grade. *)
Definition attributed (attributes : property GradeAttributes.t) (g : Postgres.GradeRow)
  : Postgres.GradeRow :=
  match attributes with
  | Own a => {| Postgres.grade_id := Postgres.grade_id g;
                Postgres.no_of_rounds := Some (GradeAttributes.noOfRounds a);
                Postgres.start_date := GradeAttributes.startDate a |}
  | Inherited _ => {| Postgres.grade_id := Postgres.grade_id g;
                      Postgres.no_of_rounds := None;
                      Postgres.start_date := None |}
  | Undefined => g
  end.

Definition withAttributes (id : string) (attributes : property GradeAttributes.t)
           (grades : list Postgres.GradeRow) : list Postgres.GradeRow :=
  map (fun g => if String.eqb (Postgres.grade_id g) id then attributed attributes g else g)
      grades.

(** A grade row after an upload has been persisted: the row of a grade of
    the upload carries the attributes read for it from [gradeAttributes],
    any other row is as it was. *)
Definition rolledUp (gradeIDs : list string) (gradeAttributes : gmap string GradeAttributes.t)
           (g : Postgres.GradeRow) : Postgres.GradeRow :=
  if bool_decide (Postgres.grade_id g ∈ gradeIDs)
  then attributed (get gradeAttributes (Postgres.grade_id g)) g
  else g.

(** ** Query repositories (repository.ts) *)

Module Repository.

Section ManualAggregation.
(** The rows of a query result, the column [grade_id] the rows are grouped
    by, and what is pushed for a row. *)
Context {Row V : Type} (grade_id : Row -> string) (item : Row -> V).

(** The body of [result.rows.forEach].  An array is truthy, empty or not,
    so a group is created only when [grouped[row.grade_id]] is
    [undefined]; what the key names in [Object.prototype] is truthy too,
    and has no [push]. *)
Definition aggregateStep (grouped : result (gmap string (list V))) (row : Row)
  : result (gmap string (list V)) :=
  let* grouped := grouped in
  match get grouped (grade_id row) with
  | Own items => Ok (<[grade_id row := items ++ [item row]]> grouped)
  | Undefined => Ok (<[grade_id row := [] ++ [item row]]> grouped)
  | Inherited _ => Throw (TypeError "grouped[row.grade_id].push is not a function")
  end.

Definition aggregate (rows : list Row) : result (gmap string (list V)) :=
  fold_left aggregateStep rows (Ok ∅).

End ManualAggregation.

(** [RoundRepository.findByGradeIDs] over the adapter's answer; the rows
    are pushed as they are and read at type [Round] by the caller. *)
Definition RoundRepository_findByGradeIDs {Row : Type} (grade_id : Row -> string)
           (asRound : Row -> Round.t)
           (query : list string -> result (list Row)) (gradeIDs : list string)
  : result (gmap string (list Round.t)) :=
  let* rows := query gradeIDs in
  aggregate grade_id asRound rows.

End Repository.

(** ** Upload handler over Postgres (fixture-handler.ts) *)

Module FixtureUploadHandler.
Import FixtureValidationService SimplifiedFixtureUploadHandler.

Section WithCollaborators.
Context {W : Type}.
Context (host : Host).
Context (simulateExcelParsing : string -> result (list RawRow.t)).
(** The lookups validation makes; the fixture-existence lookup is
    [gradeRepo.hasFixturesByCode] here. *)
Context (validationRepositories : ValidationRepositories).
Context (getObject : string -> string -> result string).
Context (repositories : FixtureRepositories W).
Context (parseFixtureFile :
           option string -> string -> result (list (string * list RoundParam.t))).

(** The validation and processing methods are those of the interview
    handler and its validation service, line for line; [handle] goes from
    validation to processing without copying the file. *)
Definition handle (command : FixtureUploadCommand) : M W Response :=
  tryCatch
    (let validation :=
       validateS3File host simulateExcelParsing validationRepositories getObject
                      (seasonID command) (SimplifiedFixtureUploadHandler.objectKey command) in
     if hasErrors (validationErrors validation)
     then ret {| result_ := {| errors := validationErrors validation |};
                 events := [] |}
     else
       let! uploadResult :=
         processFixtureUpload repositories parseFixtureFile
                              (fileBuffer validation) (seasonID command) in
       ret {| result_ := {| errors := None |};
              events := generateEvents uploadResult |})
    (fun _ => throw (Error "Fixture upload failed")).

End WithCollaborators.

End FixtureUploadHandler.

(** ** Worked inputs for the upload as a whole *)

Module UploadExamples.

(** A workbook parser that reads the upload of [Examples.twoGames]. *)
Definition parseTwoGames (fileBuffer : option string) (seasonID : string)
  : result (list (string * list RoundParam.t)) :=
  Ok Examples.twoGames.

(** Repositories over a counting store whose round lookup fails. *)
Definition failingRounds : SimplifiedFixtureUploadHandler.FixtureRepositories nat :=
  {| SimplifiedFixtureUploadHandler.gradeRepo_hasFixtures := fun _ => Ok ∅;
     SimplifiedFixtureUploadHandler.gameRepo_findByGradeIDs := fun _ => Ok [];
     SimplifiedFixtureUploadHandler.competitionRepo_findBySeasonID := fun _ => Ok None;
     SimplifiedFixtureUploadHandler.roundRepo_findByGradeIDs := fun _ =>
       Throw (Error "connection lost");
     SimplifiedFixtureUploadHandler.persistService_persist := fun roundsParams _ _ n =>
       (Ok {| FixturePersistService.gradeIDs := Object_keys roundsParams;
              FixturePersistService.teamIDs := [];
              FixturePersistService.gameIDs := [] |}, S n) |}.

(** The rows a round query returns, each with its [grade_id] column: two
    rounds of grade g1 and one of grade g2. *)
Definition roundRows : list (string * Round.t) :=
  [ ("g1", {| Round.id := "r1"; Round.gradeID := "g1"; Round.sequenceNo := 1;
              Round.provisionalDate := "2024-03-08" |});
    ("g2", {| Round.id := "r7"; Round.gradeID := "g2"; Round.sequenceNo := 1;
              Round.provisionalDate := "2024-03-09" |});
    ("g1", {| Round.id := "r2"; Round.gradeID := "g1"; Round.sequenceNo := 2;
              Round.provisionalDate := "2024-03-15" |}) ].

Definition roundQuery (gradeIDs : list string) : result (list (string * Round.t)) :=
  Ok roundRows.

(** Repositories whose round lookup is that of repository.ts over
    [roundQuery]. *)
Definition aggregatingRepositories : SimplifiedFixtureUploadHandler.FixtureRepositories nat :=
  {| SimplifiedFixtureUploadHandler.gradeRepo_hasFixtures := fun _ => Ok ∅;
     SimplifiedFixtureUploadHandler.gameRepo_findByGradeIDs := fun _ => Ok [];
     SimplifiedFixtureUploadHandler.competitionRepo_findBySeasonID := fun _ => Ok None;
     SimplifiedFixtureUploadHandler.roundRepo_findByGradeIDs :=
       Repository.RoundRepository_findByGradeIDs fst snd roundQuery;
     SimplifiedFixtureUploadHandler.persistService_persist := fun roundsParams _ _ n =>
       (Ok {| FixturePersistService.gradeIDs := Object_keys roundsParams;
              FixturePersistService.teamIDs := [];
              FixturePersistService.gameIDs := [] |}, S n) |}.

(** Repositories over a Postgres connection: the persist service of
    repository.ts on a store with unique game ids and no failing
    statement. *)
Definition postgresRepositories
  : SimplifiedFixtureUploadHandler.FixtureRepositories Postgres.Client :=
  {| SimplifiedFixtureUploadHandler.gradeRepo_hasFixtures := fun _ => Ok ∅;
     SimplifiedFixtureUploadHandler.gameRepo_findByGradeIDs := fun _ => Ok [];
     SimplifiedFixtureUploadHandler.competitionRepo_findBySeasonID := fun _ => Ok None;
     SimplifiedFixtureUploadHandler.roundRepo_findByGradeIDs := fun _ => Ok ∅;
     SimplifiedFixtureUploadHandler.persistService_persist :=
       FixturePersistService.persist true Examples.noFailure |}.

End UploadExamples.


(** * Properties *)

Section RowValidator.
Import FixtureValidationService.
Context (host : Host).

Lemma elem_of_pushIf {A} (c : bool) (e x : A) (l : list A) :
  x ∈ pushIf c e l ↔ x ∈ l ∨ (c = true ∧ x = e).
Proof.
  unfold pushIf. destruct c.
  - rewrite elem_of_app, list_elem_of_singleton. split.
    + intros [H|H]; [by left|by right].
    + intros [H|[_ H]]; [by left|by right].
  - split; [by left|]. intros [H|[H _]]; [done|discriminate].
Qed.



Lemma pastDate_not_other (row : FixtureRow.t) (grade : Grade.t) :
  pastDate row grade ≠ homeTeamMissing row grade
  ∧ pastDate row grade ≠ awayTeamMissing row grade
  ∧ pastDate row grade ≠ roundExceeds row grade.
Proof. repeat split; discriminate. Qed.

(** What the flag read in the past-date check gives. *)
Lemma holds_get (flags : gmap string bool) (key : string) :
  holds (get flags key)
  = match flags !! key with
    | Some flag => flag
    | None => bool_decide (is_Some (inheritedAt key))
    end.
Proof.
  unfold get. destruct (flags !! key) as [flag|]; [done|].
  destruct (inheritedAt key); cbn [holds].
  - symmetry. apply bool_decide_eq_true_2. by eexists.
  - symmetry. apply bool_decide_eq_false_2. by intros [? ?].
Qed.

(** The past-date violation of a row whose grade resolves is pushed exactly
    when the row is dated before the processing time and the flag read
    under the grade's id is falsy. *)
Lemma pastDate_pushed (row : FixtureRow.t) (context : ValidationContext.t)
      (grade : Grade.t) :
  List.find (fun g => String.eqb (Grade.code g) (FixtureRow.gradeCode row))
            (ValidationContext.grades context) = Some grade →
  pastDate row grade ∈ validateFixtureRow host row context
  ↔ isPast host (FixtureRow.date row) = true
    ∧ holds (get (ValidationContext.existingFixtures context) (Grade.id grade)) = false.
Proof.
  intros Hfind. destruct (pastDate_not_other row grade) as (Hh & Ha & Hr).
  unfold validateFixtureRow. rewrite Hfind. rewrite !elem_of_pushIf. split.
  - intros [[[[H|[_ H]]|[_ H]]|[_ H]]|[H _]]; try done.
    + by apply elem_of_nil in H.
    + apply andb_true_iff in H as [Hpast Hflag]. by apply negb_true_iff in Hflag.
  - intros [Hpast Hflag]. right. split; [|done]. by rewrite Hpast, Hflag.
Qed.

(** C1, as the code has it.  For a row dated before the processing time
    whose grade resolves, and whose grade id names nothing that a plain
    object inherits, the past-date BusinessRule violation is reported
    exactly when the context holds no true existing-fixtures flag under the
    grade's id: with a true flag there the row is let through, with a false
    flag or none it is reported. *)
Theorem past_date_rule (row : FixtureRow.t) (context : ValidationContext.t)
        (grade : Grade.t) :
  List.find (fun g => String.eqb (Grade.code g) (FixtureRow.gradeCode row))
            (ValidationContext.grades context) = Some grade →
  isPast host (FixtureRow.date row) = true →
  inheritedAt (Grade.id grade) = None →
  ValidationError.type (pastDate row grade) = BUSINESS_RULE
  ∧ (pastDate row grade ∈ validateFixtureRow host row context
     ↔ ValidationContext.existingFixtures context !! Grade.id grade ≠ Some true).
Proof.
  intros Hfind Hpast Hplain. split; [done|].
  rewrite (pastDate_pushed row context grade Hfind), holds_get, Hplain.
  destruct (ValidationContext.existingFixtures context !! Grade.id grade) as [[|]|].
  - split; [by intros [_ ?]|done].
  - split; [done|]. by intros _.
  - split; [done|]. intros _. split; [done|].
    apply bool_decide_eq_false_2. by intros [? ?].
Qed.

End RowValidator.

Section RowValidatorExamples.
Import FixtureValidationService.


Lemma past_date_rule_witness :
  List.find (fun g => String.eqb (Grade.code g) (FixtureRow.gradeCode Examples.yesterday))
            (ValidationContext.grades (Examples.context {[ "A1" := true ]}))
    = Some Examples.gradeA1
  ∧ isPast Examples.host (FixtureRow.date Examples.yesterday) = true
  ∧ inheritedAt (Grade.id Examples.gradeA1) = None
  ∧ (pastDate Examples.yesterday Examples.gradeA1
       ∈ validateFixtureRow Examples.host Examples.yesterday
                            (Examples.context {[ "A1" := true ]})
     ↔ ValidationContext.existingFixtures (Examples.context {[ "A1" := true ]})
         !! Grade.id Examples.gradeA1 ≠ Some true).
Proof.
  split; [reflexivity|]. split; [reflexivity|]. split; [reflexivity|].
  exact (proj2 (past_date_rule Examples.host Examples.yesterday
                  (Examples.context {[ "A1" := true ]}) Examples.gradeA1
                  eq_refl eq_refl eq_refl)).
Defined.

End RowValidatorExamples.

(** C1, as the specification words it, fails both ways: a row dated the day
    before the processing time is reported for a grade without fixtures and
    is let through for a grade with fixtures. *)
Lemma past_date_exemption_counterexample :
  FixtureValidationService.isPast Examples.host (FixtureRow.date Examples.yesterday) = true
  ∧ FixtureValidationService.validateFixtureRow
      Examples.host Examples.yesterday (Examples.context {[ "A1" := false ]})
    = [FixtureValidationService.pastDate Examples.yesterday Examples.gradeA1]
  ∧ FixtureValidationService.validateFixtureRow
      Examples.host Examples.yesterday (Examples.context ∅)
    = [FixtureValidationService.pastDate Examples.yesterday Examples.gradeA1]
  ∧ FixtureValidationService.validateFixtureRow
      Examples.host Examples.yesterday (Examples.context {[ "A1" := true ]})
    = [].
Proof. repeat split; vm_compute; reflexivity. Qed.

Section CrossRowValidator.
Import FixtureValidationService.

Lemma roundsOf_ensureKey (k k' : string) (m : gmap string (gset number)) :
  roundsOf k (ensureKey k' m) = roundsOf k m.
Proof.
  unfold roundsOf, ensureKey. destruct (m !! k') eqn:Hk'; [done|].
  destruct (decide (k' = k)) as [->|Hne].
  - by rewrite lookup_insert_eq, Hk'.
  - by rewrite lookup_insert_ne.
Qed.

Lemma elem_of_roundsOf_addRound (k k' : string) (r x : number)
      (m : gmap string (gset number)) :
  x ∈ roundsOf k (addRound k' r m) ↔ x ∈ roundsOf k m ∨ (k = k' ∧ x = r).
Proof.
  unfold addRound. destruct (decide (k' = k)) as [->|Hne].
  - unfold roundsOf at 1. rewrite lookup_insert_eq. simpl.
    rewrite elem_of_union, elem_of_singleton. split.
    + intros [->|H]; [by right|by left].
    + intros [H|[_ ->]]; [by right|by left].
  - unfold roundsOf at 1. rewrite lookup_insert_ne by done.
    fold (roundsOf k m). split; [by left|].
    intros [H|[-> _]]; [done|by destruct Hne].
Qed.

(** What one row adds to the accumulators. *)
Lemma crossRowStep_errors (st : CrossRowState) (row : FixtureRow.t) :
  errors (crossRowStep st row) =
  errors st
    ++ (if bool_decide (gameSignature row ∈ gameSignatures st)
        then [duplicateGame row] else [])
    ++ (if bool_decide (FixtureRow.round row
                          ∈ roundsOf (teamKey row (FixtureRow.homeTeam row))
                                     (teamRoundTracker st))
        then [doubleBooked (FixtureRow.homeTeam row) row] else [])
    ++ (if bool_decide (FixtureRow.round row
                          ∈ roundsOf (teamKey row (FixtureRow.awayTeam row))
                                     (teamRoundTracker st))
        then [doubleBooked (FixtureRow.awayTeam row) row] else []).
Proof.
  unfold crossRowStep. simpl. rewrite !roundsOf_ensureKey.
  repeat case_bool_decide; by rewrite <- ?app_assoc, ?app_nil_r.
Qed.

Lemma crossRowStep_keeps (st : CrossRowState) (row : FixtureRow.t) :
  (∀ sig, sig ∈ gameSignatures st → sig ∈ gameSignatures (crossRowStep st row))
  ∧ (∀ k x, x ∈ roundsOf k (teamRoundTracker st) →
            x ∈ roundsOf k (teamRoundTracker (crossRowStep st row))).
Proof.
  split.
  - intros sig H. simpl. apply elem_of_union. by right.
  - intros k x H. simpl. rewrite !elem_of_roundsOf_addRound, !roundsOf_ensureKey.
    by do 2 left.
Qed.

Lemma crossRowStep_records (st : CrossRowState) (row : FixtureRow.t) :
  gameSignature row ∈ gameSignatures (crossRowStep st row)
  ∧ FixtureRow.round row ∈ roundsOf (teamKey row (FixtureRow.homeTeam row))
                                    (teamRoundTracker (crossRowStep st row))
  ∧ FixtureRow.round row ∈ roundsOf (teamKey row (FixtureRow.awayTeam row))
                                    (teamRoundTracker (crossRowStep st row)).
Proof.
  repeat split; simpl.
  - apply elem_of_union. left. by apply elem_of_singleton.
  - rewrite !elem_of_roundsOf_addRound. left. by right.
  - rewrite !elem_of_roundsOf_addRound. by right.
Qed.

(** Every row that has been folded in stays on record. *)
Lemma fold_crossRowStep_keeps (rows : list FixtureRow.t) :
  ∀ st,
    (∀ sig, sig ∈ gameSignatures st →
            sig ∈ gameSignatures (fold_left crossRowStep rows st))
    ∧ (∀ k x, x ∈ roundsOf k (teamRoundTracker st) →
              x ∈ roundsOf k (teamRoundTracker (fold_left crossRowStep rows st))).
Proof.
  induction rows as [|row rows IH]; intros st; simpl; [done|].
  destruct (IH (crossRowStep st row)) as [IHs IHt].
  destruct (crossRowStep_keeps st row) as [Hs Ht].
  split; [intros sig H; by apply IHs, Hs|intros k x H; by apply IHt, Ht].
Qed.

Lemma fold_crossRowStep_records (rows : list FixtureRow.t) (r : FixtureRow.t) :
  r ∈ rows →
  ∀ st,
    gameSignature r ∈ gameSignatures (fold_left crossRowStep rows st)
    ∧ FixtureRow.round r
        ∈ roundsOf (teamKey r (FixtureRow.homeTeam r))
                   (teamRoundTracker (fold_left crossRowStep rows st))
    ∧ FixtureRow.round r
        ∈ roundsOf (teamKey r (FixtureRow.awayTeam r))
                   (teamRoundTracker (fold_left crossRowStep rows st)).
Proof.
  induction 1 as [r rows|r row rows _ IH]; intros st; simpl; [|by apply IH].
  destruct (fold_crossRowStep_keeps rows (crossRowStep st r)) as [Hs Ht].
  destruct (crossRowStep_records st r) as (H1 & H2 & H3).
  repeat split; [by apply Hs|by apply Ht|by apply Ht].
Qed.

Lemma sameGame_keys (r1 r2 : FixtureRow.t) :
  sameGame r1 r2 →
  gameSignature r1 = gameSignature r2
  ∧ teamKey r1 (FixtureRow.homeTeam r1) = teamKey r2 (FixtureRow.homeTeam r2)
  ∧ teamKey r1 (FixtureRow.awayTeam r1) = teamKey r2 (FixtureRow.awayTeam r2).
Proof.
  intros (Hg & Hh & Ha & Hr). unfold gameSignature, teamKey.
  by rewrite Hg, Hh, Ha, Hr.
Qed.

(** A row that repeats a game of a conflict-free row set draws three
    violations: the duplicate game, and the double booking of either team. *)
Lemma repeated_game_after (rows : list FixtureRow.t) (r1 r2 : FixtureRow.t) :
  validateCrossRowRules rows = [] →
  r1 ∈ rows →
  sameGame r1 r2 →
  validateCrossRowRules (rows ++ [r2]) =
  [duplicateGame r2;
   doubleBooked (FixtureRow.homeTeam r2) r2;
   doubleBooked (FixtureRow.awayTeam r2) r2].
Proof.
  intros Hclean Hin Hsame. unfold validateCrossRowRules in *.
  rewrite fold_left_app. cbn [fold_left]. rewrite crossRowStep_errors, Hclean.
  destruct (sameGame_keys _ _ Hsame) as (Hs & Hh & Ha).
  destruct Hsame as (_ & _ & _ & Hr).
  destruct (fold_crossRowStep_records rows r1 Hin
              {| errors := []; gameSignatures := ∅; teamRoundTracker := ∅ |})
    as (H1 & H2 & H3).
  rewrite Hs in H1. rewrite Hh, Hr in H2. rewrite Ha, Hr in H3.
  by rewrite !bool_decide_eq_true_2.
Qed.

Lemma single_row_is_clean (r : FixtureRow.t) : validateCrossRowRules [r] = [].
Proof.
  unfold validateCrossRowRules. cbn [fold_left]. rewrite crossRowStep_errors.
  cbn [errors gameSignatures teamRoundTracker].
  unfold roundsOf. rewrite !lookup_empty. cbn [default].
  by rewrite !bool_decide_eq_false_2 by apply not_elem_of_empty.
Qed.

(** C4, as the code has it.  Of two rows with identical (gradeCode,
    homeTeam, awayTeam, round) the first is not flagged, and the second
    draws exactly three DataIntegrity violations: one duplicate-game
    violation, then one double-booking violation for its home team and one
    for its away team. *)
Theorem duplicate_game_flags_second_row (r1 r2 : FixtureRow.t) :
  sameGame r1 r2 →
  validateCrossRowRules [r1] = []
  ∧ validateCrossRowRules [r1; r2] =
    [duplicateGame r2;
     doubleBooked (FixtureRow.homeTeam r2) r2;
     doubleBooked (FixtureRow.awayTeam r2) r2]
  ∧ Forall (fun e => ValidationError.type e = DATA_INTEGRITY)
           (validateCrossRowRules [r1; r2]).
Proof.
  intros Hsame.
  assert (H2 : validateCrossRowRules ([r1] ++ [r2]) =
               [duplicateGame r2;
                doubleBooked (FixtureRow.homeTeam r2) r2;
                doubleBooked (FixtureRow.awayTeam r2) r2]).
  { apply (repeated_game_after [r1] r1 r2); [apply single_row_is_clean| |done].
    by apply list_elem_of_singleton. }
  simpl in H2. rewrite H2. split; [apply single_row_is_clean|]. split; [done|].
  by repeat constructor.
Qed.
End CrossRowValidator.

Lemma duplicate_game_flags_second_row_witness :
  sameGame Examples.yesterday Examples.yesterday
  ∧ FixtureValidationService.validateCrossRowRules [Examples.yesterday; Examples.yesterday] =
    [FixtureValidationService.duplicateGame Examples.yesterday;
     FixtureValidationService.doubleBooked "Lions" Examples.yesterday;
     FixtureValidationService.doubleBooked "Tigers" Examples.yesterday].
Proof.
  assert (H : sameGame Examples.yesterday Examples.yesterday) by (repeat split).
  split; [exact H|].
  exact (proj1 (proj2 (duplicate_game_flags_second_row
                         Examples.yesterday Examples.yesterday H))).
Defined.

(** C4, as the specification words it, fails: the two rows alone already
    yield three DataIntegrity violations, not one. *)
Lemma duplicate_game_counterexample :
  sameGame Examples.yesterday Examples.yesterday
  ∧ map ValidationError.message
        (FixtureValidationService.validateCrossRowRules
           [Examples.yesterday; Examples.yesterday]) =
    ["Duplicate game: Lions vs Tigers in round 1 of grade A1";
     "Team 'Lions' is scheduled for multiple games in round 1 of grade A1";
     "Team 'Tigers' is scheduled for multiple games in round 1 of grade A1"]
  ∧ map ValidationError.type
        (FixtureValidationService.validateCrossRowRules
           [Examples.yesterday; Examples.yesterday]) =
    [DATA_INTEGRITY; DATA_INTEGRITY; DATA_INTEGRITY]
  ∧ length (FixtureValidationService.validateCrossRowRules
              [Examples.yesterday; Examples.yesterday]) ≠ 1%nat.
Proof.
  split; [by repeat split|].
  split; [vm_compute; reflexivity|].
  split; [vm_compute; reflexivity|].
  vm_compute. discriminate.
Qed.

Section ValidationEngine.
Import FixtureValidationService.
Context (host : Host).
Context (simulateExcelParsing : string -> result (list RawRow.t)).
Context (repositories : ValidationRepositories).
Context (getObject : string -> string -> result string).

Lemma fold_left_push {A B} (f : B -> list A) (xs : list B) (acc : list A) :
  fold_left (fun errors x => errors ++ f x) xs acc = acc ++ concat (map f xs).
Proof.
  revert acc. induction xs as [|x xs IH]; intros acc; simpl.
  - by rewrite app_nil_r.
  - by rewrite IH, app_assoc.
Qed.

(** Row validation carries on past a failing row: the violations of the
    row pass are those of each row, in row order. *)
Lemma rowErrors_all_rows (context : ValidationContext.t) (rows : list FixtureRow.t) :
  rowErrors host context rows
  = concat (map (fun row => validateFixtureRow host row context) rows).
Proof. unfold rowErrors. by rewrite fold_left_push. Qed.

Lemma ltb_length_nil {A} (l : list A) : Nat.ltb 0 (length l) = false ↔ l = [].
Proof. destruct l; simpl; split; (done || discriminate). Qed.

(** C7, as the code has it.  Once the object is fetched: a file with a
    file-format violation is answered with the file-format violations
    alone, and the business rules are not consulted; a file without one is
    answered with the business-rule violations of every row, in row order,
    followed by the cross-row violations (or with no list when there are
    none). *)
Theorem validation_is_staged (seasonID objectKey buffer : string) :
  getObject "upload-bucket" objectKey = Ok buffer →
  let parsed := parseAndValidateFile host simulateExcelParsing buffer in
  let answer :=
    validateS3File host simulateExcelParsing repositories getObject seasonID objectKey in
  (formatErrors parsed ≠ [] →
   validationErrors answer = Some (map ValidationError.message (formatErrors parsed)))
  ∧ (formatErrors parsed = [] →
     ∀ context,
       loadValidationContext repositories seasonID (fixtureRows parsed) = Ok context →
       let violations :=
         concat (map (fun row => validateFixtureRow host row context) (fixtureRows parsed))
           ++ validateCrossRowRules (fixtureRows parsed) in
       validationErrors answer =
       match violations with
       | [] => None
       | _ => Some (map ValidationError.message violations)
       end).
Proof.
  intros Hget parsed answer. subst answer. unfold validateS3File.
  rewrite Hget. cbn [bind]. fold parsed. split.
  - intros Hne. destruct (formatErrors parsed) as [|e es] eqn:He; [done|]. done.
  - intros Hnil context Hctx. rewrite Hnil. cbn [length Nat.ltb Nat.leb].
    unfold validateBusinessRules. rewrite Hctx. cbn [bind app].
    rewrite rowErrors_all_rows.
    by destruct (_ ++ _).
Qed.

End ValidationEngine.

Section ValidationEngineExamples.
Import FixtureValidationService.

Lemma validation_is_staged_witness :
  Examples.getObject "upload-bucket" "fixtures.xlsx" = Ok "excel-file-content"
  ∧ validationErrors
      (validateS3File Examples.host (fun _ => Ok Examples.mixedUpload)
                      Examples.repositories Examples.getObject "s1" "fixtures.xlsx")
    = Some ["Row 3: Away Team is required"].
Proof.
  split; [reflexivity|].
  refine (proj1 (validation_is_staged Examples.host (fun _ => Ok Examples.mixedUpload)
                   Examples.repositories Examples.getObject
                   "s1" "fixtures.xlsx" "excel-file-content" eq_refl) _).
  vm_compute. discriminate.
Defined.

(** C7, as the specification words it, fails: the first row of the upload
    breaks a business rule and the second a file-format rule, and the
    answer carries the file-format violation only. *)
Lemma exhaustive_validation_counterexample :
  let parsed := parseAndValidateFile Examples.host (fun _ => Ok Examples.mixedUpload)
                                     "excel-file-content" in
  map ValidationError.message (formatErrors parsed) = ["Row 3: Away Team is required"]
  ∧ (map ValidationError.message
       <$> match validateBusinessRules Examples.host Examples.repositories
                                       (fixtureRows parsed) "s1" with
           | Ok violations => Some violations
           | Throw _ => None
           end)
    = Some ["Grade 'B7' does not exist in this season"]
  ∧ validationErrors
      (validateS3File Examples.host (fun _ => Ok Examples.mixedUpload)
                      Examples.repositories Examples.getObject "s1" "fixtures.xlsx")
    = Some ["Row 3: Away Team is required"].
Proof. repeat split; vm_compute; reflexivity. Qed.

End ValidationEngineExamples.

Section FileFormat.
Import FixtureValidationService.
Context (host : Host).

(** C10.  On a host that takes 17 March 2024 for a date and "1" for a round,
    the row whose home team is "Lions" and whose away team is "Lions " with
    a trailing blank raises no file-format violation, the self-play one
    included, and is accepted with both team names equal to "Lions": the
    check compares the cells as given, the accepted row holds them
    trimmed. *)
Theorem self_play_check_compares_untrimmed (buffer : string) :
  is_Some (Date_parse host "03/17/2024") →
  roundInvalid host (Some "1") = false →
  ∃ raw : RawRow.t,
    RawRow.homeTeam raw = Some "Lions"
    ∧ RawRow.awayTeam raw = Some "Lions "
    ∧ rowFormatErrors host raw 2 = []
    ∧ ∃ accepted : FixtureRow.t,
        parseAndValidateFile host (fun _ => Ok [raw]) buffer
        = {| fixtureRows := [accepted]; formatErrors := [] |}
        ∧ FixtureRow.homeTeam accepted = "Lions"
        ∧ FixtureRow.awayTeam accepted = "Lions".
Proof.
  intros Hdate Hround. exists Examples.paddedLions.
  assert (Hvalid : isValidDate host (Some "17/03/2024") = true).
  { unfold isValidDate. cbn. by rewrite bool_decide_eq_true_2. }
  assert (Herrors : rowFormatErrors host Examples.paddedLions 2 = []).
  { unfold rowFormatErrors, Examples.paddedLions, Examples.rawRow.
    cbn [RawRow.gradeCode RawRow.homeTeam RawRow.awayTeam RawRow.date RawRow.round].
    rewrite Hvalid, Hround. reflexivity. }
  split; [done|]. split; [done|]. split; [exact Herrors|].
  eexists. split.
  - unfold parseAndValidateFile. cbn [bind parseLoop]. unfold parseStep.
    cbn [formatErrors fixtureRows Nat.add app]. rewrite Herrors. reflexivity.
  - done.
Qed.

End FileFormat.

Lemma self_play_check_compares_untrimmed_witness :
  is_Some (Date_parse Examples.host "03/17/2024")
  ∧ FixtureValidationService.roundInvalid Examples.host (Some "1") = false
  ∧ ∃ raw : RawRow.t,
      RawRow.homeTeam raw = Some "Lions"
      ∧ RawRow.awayTeam raw = Some "Lions "
      ∧ FixtureValidationService.rowFormatErrors Examples.host raw 2 = []
      ∧ ∃ accepted : FixtureRow.t,
          FixtureValidationService.parseAndValidateFile
            Examples.host (fun _ => Ok [raw]) "excel-file-content"
          = {| FixtureValidationService.fixtureRows := [accepted];
               FixtureValidationService.formatErrors := [] |}
          ∧ FixtureRow.homeTeam accepted = "Lions"
          ∧ FixtureRow.awayTeam accepted = "Lions".
Proof.
  assert (Hdate : is_Some (Date_parse Examples.host "03/17/2024")) by (by eexists).
  assert (Hround : FixtureValidationService.roundInvalid Examples.host (Some "1") = false)
    by reflexivity.
  split; [exact Hdate|]. split; [exact Hround|].
  exact (self_play_check_compares_untrimmed Examples.host "excel-file-content" Hdate Hround).
Defined.

Section Handler.
Import FixtureValidationService SimplifiedFixtureUploadHandler.
Context {W : Type}.
Context (host : Host).
Context (simulateExcelParsing : string -> result (list RawRow.t)).
Context (validationRepositories : ValidationRepositories).
Context (getObject : string -> string -> result string).
Context (copy : string -> string -> string -> M W unit).
Context (repositories : FixtureRepositories W).
Context (parseFixtureFile :
           option string -> string -> result (list (string * list RoundParam.t))).

Abbreviation validate command :=
  (validateS3File host simulateExcelParsing validationRepositories getObject
                  (seasonID command) (SimplifiedFixtureUploadHandler.objectKey command)).

Abbreviation run command :=
  (handle host simulateExcelParsing validationRepositories getObject copy
          repositories parseFixtureFile command).




End Handler.

Section HandlerExamples.
Import FixtureValidationService SimplifiedFixtureUploadHandler.


End HandlerExamples.

Section GradeAttributeCalculator.
Import SimplifiedFixtureUploadHandler.
Context {W : Type} (repositories : FixtureRepositories W).

Lemma Object_get_key {V} (o : list (string * V)) (k : string) :
  k ∈ Object_keys o → is_Some (Object_get o k).
Proof.
  unfold Object_keys, Object_get. induction o as [|[k' v] o IH]; simpl.
  - intros H. by apply elem_of_nil in H.
  - intros H. destruct (String.eqb_spec k' k) as [->|Hne]; [by eexists|].
    apply elem_of_cons in H. destruct H as [->|H]; [done|by apply IH].
Qed.

(** The [reduce] leaves, under each key it has visited, the attributes
    computed from that grade's own rounds. *)
Lemma fold_attributesStep (roundsParams : list (string * list RoundParam.t))
      (allRoundsByGrade : gmap string (list Round.t)) (gradeIDs : list string) :
  Forall (fun k => is_Some (Object_get roundsParams k)) gradeIDs →
  ∀ acc : gmap string GradeAttributes.t,
  ∃ acc' : gmap string GradeAttributes.t,
    fold_left (attributesStep roundsParams allRoundsByGrade) gradeIDs (Ok acc) = Ok acc'
    ∧ ∀ k, acc' !! k =
           if bool_decide (k ∈ gradeIDs)
           then gradeAttributesOf (get allRoundsByGrade k)
                  <$> Object_get roundsParams k
           else acc !! k.
Proof.
  induction 1 as [|k0 gradeIDs [supplied Hk0] _ IH]; intros acc; cbn [fold_left].
  - exists acc. split; [done|]. intros k.
    by rewrite bool_decide_eq_false_2 by apply not_elem_of_nil.
  - unfold attributesStep at 2. cbn [bind]. rewrite Hk0.
    destruct (IH (<[k0 := gradeAttributesOf (get allRoundsByGrade k0) supplied]> acc))
      as (acc' & Hfold & Hacc').
    exists acc'. split; [exact Hfold|]. intros k. rewrite Hacc'.
    destruct (decide (k ∈ gradeIDs)) as [Hin|Hnin].
    + rewrite (bool_decide_eq_true_2 _ Hin).
      by rewrite bool_decide_eq_true_2 by (apply elem_of_cons; by right).
    + rewrite (bool_decide_eq_false_2 _ Hnin).
      destruct (decide (k = k0)) as [->|Hne].
      * rewrite bool_decide_eq_true_2 by (apply elem_of_cons; by left).
        by rewrite lookup_insert_eq, Hk0.
      * rewrite bool_decide_eq_false_2.
        -- by rewrite lookup_insert_ne.
        -- intros [?|?]%elem_of_cons; done.
Qed.

(** A read that finds an own property, or a key [Object.prototype] does
    not have, is the lookup in the map of own properties. *)
Lemma get_plain {V} (object : gmap string V) (key : string) :
  is_Some (object !! key) ∨ inheritedAt key = None →
  get object key = match object !! key with
                   | Some v => Own v
                   | None => Undefined
                   end.
Proof.
  unfold get. intros [[v Hv]|Hplain]; [by rewrite Hv|].
  rewrite Hplain. by destruct (object !! key).
Qed.

(** C9, as the code has it.  When the lookup of the persisted rounds
    succeeds, every grade of the upload gets attributes.  For a grade that
    has an entry of its own in the answer of the lookup, or whose id names
    nothing that a plain object inherits, the round count is the number of
    persisted rounds plus the number of supplied rounds; the start date is
    the date of the first persisted round when there is one and its date is
    not the empty string, and otherwise the date of the first supplied
    round (none when no round is supplied). *)
Theorem grade_attributes_per_grade (roundsParams : list (string * list RoundParam.t))
        (allRoundsByGrade : gmap string (list Round.t)) (gradeID : string) :
  roundRepo_findByGradeIDs repositories (Object_keys roundsParams) = Ok allRoundsByGrade →
  gradeID ∈ Object_keys roundsParams →
  is_Some (allRoundsByGrade !! gradeID) ∨ inheritedAt gradeID = None →
  ∃ (attributes : gmap string GradeAttributes.t) (suppliedRounds : list RoundParam.t)
    (a : GradeAttributes.t),
    calculateGradeAttributes repositories roundsParams = Ok attributes
    ∧ Object_get roundsParams gradeID = Some suppliedRounds
    ∧ attributes !! gradeID = Some a
    ∧ let existingRounds := default [] (allRoundsByGrade !! gradeID) in
      let firstSupplied :=
        (fun r => RoundParam.provisionalDate (RoundParam.round r)) <$> head suppliedRounds in
      GradeAttributes.noOfRounds a
      = Finite (Z.of_nat (length existingRounds + length suppliedRounds))
      ∧ GradeAttributes.startDate a =
        match existingRounds with
        | first :: _ =>
            if String.eqb (Round.provisionalDate first) EmptyString
            then firstSupplied
            else Some (Round.provisionalDate first)
        | [] => firstSupplied
        end.
Proof.
  intros Hrepo Hin Hplain.
  destruct (Object_get_key roundsParams gradeID Hin) as [supplied Hsupplied].
  destruct (fold_attributesStep roundsParams allRoundsByGrade (Object_keys roundsParams))
    with (acc := (∅ : gmap string GradeAttributes.t)) as (attributes & Hfold & Hattr).
  { apply Forall_forall. intros k Hk. by apply Object_get_key. }
  exists attributes, supplied,
    (gradeAttributesOf (get allRoundsByGrade gradeID) supplied).
  split.
  { unfold calculateGradeAttributes. rewrite Hrepo. exact Hfold. }
  split; [exact Hsupplied|]. split.
  { by rewrite Hattr, bool_decide_eq_true_2, Hsupplied. }
  cbn zeta. rewrite (get_plain _ _ Hplain).
  unfold gradeAttributesOf, orElse, truthy.
  cbn [GradeAttributes.startDate GradeAttributes.noOfRounds].
  destruct (allRoundsByGrade !! gradeID) as [[|first rest]|];
    cbn [default from_option id lengthOf firstOf head fmap option_fmap option_map length
         plus].
  - by split.
  - split; [f_equal; lia|]. by destruct (String.eqb _ EmptyString).
  - by split.
Qed.

End GradeAttributeCalculator.

Section GradeAttributeCalculatorExamples.
Import SimplifiedFixtureUploadHandler.

Lemma grade_attributes_per_grade_witness :
  roundRepo_findByGradeIDs
    (Examples.repositoriesWithRounds {[ "g1" := [Examples.persistedRound "2024-03-15"] ]})
    (Object_keys Examples.secondRound)
    = Ok {[ "g1" := [Examples.persistedRound "2024-03-15"] ]}
  ∧ "g1" ∈ Object_keys Examples.secondRound
  ∧ (is_Some (({[ "g1" := [Examples.persistedRound "2024-03-15"] ]}
                 : gmap string (list Round.t)) !! "g1")
     ∨ inheritedAt "g1" = None)
  ∧ ∃ (attributes : gmap string GradeAttributes.t) (suppliedRounds : list RoundParam.t)
      (a : GradeAttributes.t),
      calculateGradeAttributes
        (Examples.repositoriesWithRounds {[ "g1" := [Examples.persistedRound "2024-03-15"] ]})
        Examples.secondRound = Ok attributes
      ∧ Object_get Examples.secondRound "g1" = Some suppliedRounds
      ∧ attributes !! "g1" = Some a
      ∧ let existingRounds :=
          default [] (({[ "g1" := [Examples.persistedRound "2024-03-15"] ]}
                         : gmap string (list Round.t)) !! "g1") in
        let firstSupplied :=
          (fun r => RoundParam.provisionalDate (RoundParam.round r))
            <$> head suppliedRounds in
        GradeAttributes.noOfRounds a
        = Finite (Z.of_nat (length existingRounds + length suppliedRounds))
        ∧ GradeAttributes.startDate a =
          match existingRounds with
          | first :: _ =>
              if String.eqb (Round.provisionalDate first) EmptyString
              then firstSupplied
              else Some (Round.provisionalDate first)
          | [] => firstSupplied
          end.
Proof.
  assert (Hin : "g1" ∈ Object_keys Examples.secondRound) by (apply elem_of_cons; by left).
  assert (Hplain : is_Some (({[ "g1" := [Examples.persistedRound "2024-03-15"] ]}
                               : gmap string (list Round.t)) !! "g1")
                   ∨ inheritedAt "g1" = None) by (right; reflexivity).
  split; [reflexivity|]. split; [exact Hin|]. split; [exact Hplain|].
  exact (grade_attributes_per_grade
           (Examples.repositoriesWithRounds {[ "g1" := [Examples.persistedRound "2024-03-15"] ]})
           Examples.secondRound {[ "g1" := [Examples.persistedRound "2024-03-15"] ]} "g1"
           eq_refl Hin Hplain).
Defined.

(** C9, as the specification words it, fails on the start date: the grade
    has a persisted round, whose date is the empty string, and the start
    date computed is the date of the supplied round. *)
Lemma start_date_counterexample :
  head (default [] (({[ "g1" := [Examples.persistedRound EmptyString] ]}
                       : gmap string (list Round.t)) !! "g1"))
    = Some (Examples.persistedRound EmptyString)
  ∧ match calculateGradeAttributes
            (Examples.repositoriesWithRounds {[ "g1" := [Examples.persistedRound EmptyString] ]})
            Examples.secondRound with
    | Ok attributes => attributes !! "g1"
    | Throw _ => None
    end
    = Some {| GradeAttributes.noOfRounds := Finite 2;
              GradeAttributes.startDate := Some "2024-03-22" |}
  ∧ Some "2024-03-22" ≠ Some (Round.provisionalDate (Examples.persistedRound EmptyString)).
Proof. split; [|split]; [vm_compute; reflexivity..|discriminate]. Qed.

End GradeAttributeCalculatorExamples.

Section RoundUpsert.
Import Postgres.
Context (g : string) (n : Z).

Lemma sameRound_refl (id : nat) (d : string) :
  sameRound g n {| round_id := id; round_grade_id := g; sequence_no := n;
                   provisional_date := d |} = true.
Proof. unfold sameRound. simpl. by rewrite String.eqb_refl, Z.eqb_refl. Qed.

Lemma filter_none_of_existsb (l : list RoundRow) :
  existsb (sameRound g n) l = false → List.filter (sameRound g n) l = [].
Proof.
  induction l as [|r l IH]; simpl; [done|].
  destruct (sameRound g n r); simpl; [discriminate|exact IH].
Qed.

Lemma filter_some_of_existsb (l : list RoundRow) :
  existsb (sameRound g n) l = true → List.filter (sameRound g n) l ≠ [].
Proof.
  induction l as [|r l IH]; simpl; [discriminate|].
  destruct (sameRound g n r); simpl; [discriminate|exact IH].
Qed.

(** The conflict branch rewrites the date of the rows under the key and of
    no other row. *)
Lemma filter_updated (d : string) (l : list RoundRow) :
  List.filter (sameRound g n)
    (map (fun r => if sameRound g n r
                   then {| round_id := round_id r; round_grade_id := round_grade_id r;
                           sequence_no := sequence_no r; provisional_date := d |}
                   else r) l)
  = map (fun r => {| round_id := round_id r; round_grade_id := round_grade_id r;
                     sequence_no := sequence_no r; provisional_date := d |})
        (List.filter (sameRound g n) l).
Proof.
  induction l as [|r l IH]; simpl; [done|].
  destruct (sameRound g n r) eqn:Hr; simpl.
  - unfold sameRound at 1. simpl. fold (sameRound g n r). rewrite Hr. simpl. by rewrite IH.
  - by rewrite Hr, IH.
Qed.

Lemma filter_others_updated (d : string) (l : list RoundRow) :
  List.filter (fun r => negb (sameRound g n r))
    (map (fun r => if sameRound g n r
                   then {| round_id := round_id r; round_grade_id := round_grade_id r;
                           sequence_no := sequence_no r; provisional_date := d |}
                   else r) l)
  = List.filter (fun r => negb (sameRound g n r)) l.
Proof.
  induction l as [|r l IH]; simpl; [done|].
  destruct (sameRound g n r) eqn:Hr; simpl.
  - unfold sameRound at 1. simpl. fold (sameRound g n r). rewrite Hr. simpl. exact IH.
  - by rewrite Hr, IH.
Qed.

(** One upsert leaves one row under the key, carrying the date given, and
    the rows under other keys as they were. *)
Lemma upsertRound_once (d : string) (db : Database) :
  (length (List.filter (sameRound g n) (rounds db)) ≤ 1)%nat →
  (∃ r, List.filter (sameRound g n) (rounds (upsertRound g n d db).1) = [r]
        ∧ provisional_date r = d)
  ∧ List.filter (fun r => negb (sameRound g n r)) (rounds (upsertRound g n d db).1)
    = List.filter (fun r => negb (sameRound g n r)) (rounds db).
Proof.
  intros Hunique. unfold upsertRound.
  destruct (existsb (sameRound g n) (rounds db)) eqn:Hex; cbn [fst rounds].
  - rewrite filter_updated, filter_others_updated. split; [|done].
    apply filter_some_of_existsb in Hex.
    destruct (List.filter (sameRound g n) (rounds db)) as [|r [|r' l]]; [done| |simpl in Hunique; lia].
    by eexists.
  - rewrite !List.filter_app. rewrite (filter_none_of_existsb _ Hex).
    cbn [List.filter]. rewrite sameRound_refl. cbn [negb app]. split.
    + by eexists.
    + by rewrite app_nil_r.
Qed.

(** Two upserts in a row leave one row under the key, carrying the later
    date; rows under other keys are untouched. *)
Lemma upsertRound_twice (d1 d2 : string) (db : Database) :
  (length (List.filter (sameRound g n) (rounds db)) ≤ 1)%nat →
  let db' := (upsertRound g n d2 (upsertRound g n d1 db).1).1 in
  (∃ r, List.filter (sameRound g n) (rounds db') = [r]
        ∧ round_grade_id r = g ∧ sequence_no r = n ∧ provisional_date r = d2)
  ∧ List.filter (fun r => negb (sameRound g n r)) (rounds db')
    = List.filter (fun r => negb (sameRound g n r)) (rounds db).
Proof.
  intros Hunique db'. subst db'.
  destruct (upsertRound_once d1 db Hunique) as [(r1 & Hr1 & _) Hrest1].
  destruct (upsertRound_once d2 (upsertRound g n d1 db).1) as [(r2 & Hr2 & Hd2) Hrest2].
  { by rewrite Hr1. }
  split; [|by rewrite Hrest2].
  exists r2. split; [exact Hr2|].
  assert (Hkey : sameRound g n r2 = true).
  { assert (Hin : In r2 (List.filter (sameRound g n)
                           (rounds (upsertRound g n d2 (upsertRound g n d1 db).1).1))).
    { rewrite Hr2. by left. }
    by apply List.filter_In in Hin as [_ Hin]. }
  unfold sameRound in Hkey. apply andb_true_iff in Hkey as [Hg Hn].
  apply String.eqb_eq in Hg. apply Z.eqb_eq in Hn. done.
Qed.

End RoundUpsert.

Section Transaction.
Import Postgres FixturePersistService.
Context (games_id_unique : bool) (fails : nat -> bool).

Abbreviation query := (Postgres.query games_id_unique fails).
Abbreviation inTx := (inTransaction games_id_unique).

Lemma bindM_Ok {S A B} (m : M S A) (k : A -> M S B) (s s' : S) (a : A) :
  m s = (Ok a, s') → bindM m k s = k a s'.
Proof. intros H. unfold bindM. by rewrite H. Qed.

Lemma bindM_Throw {S A B} (m : M S A) (k : A -> M S B) (s s' : S) (e : exn) :
  m s = (Throw e, s') → bindM m k s = (Throw e, s').
Proof. intros H. unfold bindM. by rewrite H. Qed.

Lemma inTx_throw {A} (e : exn) (Q : A -> Prop) (new : list string) :
  inTx (throw e) Q new.
Proof.
  intros c db Hw. exists [], db. split; [|done].
  destruct c; simpl in *. by rewrite Hw, app_nil_r.
Qed.

Lemma inTx_ret {A} (a : A) (Q : A -> Prop) : Q a → inTx (ret a) Q [].
Proof.
  intros HQ c db Hw. exists [], db. split.
  - destruct c; simpl in *. by rewrite Hw, app_nil_r.
  - simpl. rewrite app_nil_r. repeat split; [done|constructor|constructor].
Qed.

Lemma inTx_lift {A} (r : result A) (Q : A -> Prop) :
  (∀ a, r = Ok a → Q a) → inTx (lift r) Q [].
Proof.
  intros HQ. destruct r as [a|e]; [by apply inTx_ret, HQ|apply inTx_throw].
Qed.

(** Sequencing: the ids written add up, and ids that were fresh when they
    were written were fresh at the start. *)
Lemma inTx_bind {A B} (m : M Client A) (k : A -> M Client B)
      (Q1 : A -> Prop) (Q2 : B -> Prop) (new1 new2 : list string) :
  inTx m Q1 new1 →
  (∀ a, Q1 a → inTx (k a) Q2 new2) →
  inTx (bindM m k) Q2 (new1 ++ new2).
Proof.
  intros Hm Hk c db Hw. destruct (Hm c db Hw) as (l1 & db1 & Hc1 & Hr1).
  unfold bindM. destruct (m c) as [[a|e] c1]; simpl in *.
  - destruct Hr1 as (HQ1 & Hl1 & Hids1 & Hfresh1).
    destruct (Hk a HQ1 c1 db1) as (l2 & db2 & Hc2 & Hr2); [by rewrite Hc1|].
    exists (l1 ++ l2), db2. split.
    + rewrite Hc2, Hc1. simpl. by rewrite app_assoc.
    + destruct (k a c1).1 as [b|e]; [|done].
      destruct Hr2 as (HQ2 & Hl2 & Hids2 & Hfresh2).
      split; [done|]. split; [by apply Forall_app|]. split.
      * by rewrite Hids2, Hids1, app_assoc.
      * intros Hu. apply Forall_app. split; [by apply Hfresh1|].
        eapply Forall_impl; [by apply Hfresh2|]. intros i Hi Hin. apply Hi.
        rewrite Hids1. apply elem_of_app. by left.
  - exists l1, db1. by split.
Qed.

Lemma inTx_weaken {A} (m : M Client A) (Q Q' : A -> Prop) (new : list string) :
  inTx m Q new → (∀ a, Q a → Q' a) → inTx m Q' new.
Proof.
  intros Hm HQ c db Hw. destruct (Hm c db Hw) as (l & db' & Hc & Hr).
  exists l, db'. split; [done|]. destruct (m c).1; [|done].
  destruct Hr as (? & ? & ? & ?). by repeat split; [apply HQ|..].
Qed.

Lemma hasGame_gameIds (id : string) (db : Database) :
  hasGame id db = true ↔ id ∈ gameIds db.
Proof.
  unfold hasGame, gameIds. rewrite existsb_exists, list_elem_of_fmap. split.
  - intros (g & Hin & Heq). apply String.eqb_eq in Heq. exists g.
    split; [done|by apply list_elem_of_In].
  - intros (g & -> & Hin). exists g. split; [by apply list_elem_of_In|apply String.eqb_refl].
Qed.

(** A write issued inside the transaction works on the working copy. *)
Lemma query_write_inTx (s : Statement) (new : list string) (Q : Rows -> Prop) :
  isWrite s = true →
  (∀ db db' rows, exec games_id_unique s db = Ok (db', rows) →
     Q rows ∧ gameIds db' = gameIds db ++ new
     ∧ (games_id_unique = true → Forall (fun i => i ∉ gameIds db) new)) →
  inTx (query s) Q new.
Proof.
  intros Hwrite Hexec c db Hw. unfold Postgres.query.
  destruct (fails (length (issued c))).
  { exists [(s, false)], db. simpl. by rewrite Hw. }
  assert (Hv : visible c = db) by (unfold visible; by rewrite Hw).
  rewrite Hv, Hw.
  destruct s; try discriminate Hwrite.
  all: lazymatch goal with
       | |- context [match exec ?u ?s ?d with _ => _ end] =>
           destruct (exec u s d) as [[db' rows]|e] eqn:He
       end.
  all: unfold logged.
  all: first
         [ eexists [(_, true)], db'; simpl;
           destruct (Hexec db db' rows He) as (? & ? & ?);
           split; [reflexivity|]; repeat split; [done|by repeat constructor|done|done]
         | eexists [(_, false)], db; simpl; by split ].
Qed.

Lemma upsertRound_inTx (g : string) (n : Z) (d : string) :
  inTx (query (UpsertRound g n d)) (fun rows => ∃ id, firstRoundId rows = Ok id) [].
Proof.
  apply query_write_inTx; [done|]. intros db db' rows [= H].
  assert (db' = (upsertRound g n d db).1) as -> by by rewrite H.
  assert (rows = (upsertRound g n d db).2) as -> by by rewrite H.
  clear H. split; [|split].
  - unfold upsertRound. destruct (existsb (sameRound g n) (rounds db)) eqn:Hex.
    + cbn [snd]. destruct (List.filter (sameRound g n) (rounds db)) as [|r l] eqn:Hf.
      * exfalso. revert Hex Hf. clear. induction (rounds db) as [|r l IH]; simpl; [done|].
        destruct (sameRound g n r); simpl; [done|exact IH].
      * by eexists.
    + by eexists.
  - unfold upsertRound, gameIds. rewrite app_nil_r.
    by destruct (existsb (sameRound g n) (rounds db)).
  - intros _. constructor.
Qed.

Lemma insertGame_inTx (id : string) (rid : nat) (h a d : string) (pd : list string) :
  inTx (query (InsertGame id rid h a d pd)) (fun rows => firstGameId rows = Ok id) [id].
Proof.
  apply query_write_inTx; [done|]. intros db db' rows. cbn [exec]. unfold insertGame.
  cbn [game_id]. destruct (games_id_unique && hasGame id db) eqn:Hdup; [discriminate|].
  intros [= <- <-]. split; [done|]. split.
  - unfold gameIds. cbn [games]. by rewrite map_app.
  - intros ->. repeat constructor. rewrite <- hasGame_gameIds. simpl in Hdup. by rewrite Hdup.
Qed.

Lemma updateGrade_inTx (id : string) (n : option number) (d : option string) :
  inTx (query (UpdateGrade id n d)) (fun _ => True) [].
Proof.
  apply query_write_inTx; [done|]. intros db db' rows [= <- <-].
  split; [done|]. split; [|intros _; constructor].
  unfold gameIds. cbn [games]. by rewrite app_nil_r.
Qed.

Lemma inTx_seq {A B} (m : M Client A) (k : A -> M Client B)
      (Q1 : A -> Prop) (Q2 : B -> Prop) (new1 new2 new : list string) :
  new = new1 ++ new2 →
  inTx m Q1 new1 →
  (∀ a, Q1 a → inTx (k a) Q2 new2) →
  inTx (bindM m k) Q2 new.
Proof. intros ->. apply inTx_bind. Qed.

Lemma persistGames_inTx (roundID : nat) (games : list RoundParam.game) :
  ∀ gameIDs teamIDs,
    inTx (persistGames games_id_unique fails roundID games gameIDs teamIDs)
         (fun ids => ids.1 = gameIDs ++ map RoundParam.id games)
         (map RoundParam.id games).
Proof.
  induction games as [|gameData games IH]; intros gameIDs teamIDs; cbn [persistGames].
  - apply inTx_ret. simpl. by rewrite app_nil_r.
  - apply (inTx_seq _ _ (fun rows => firstGameId rows = Ok (RoundParam.id gameData)) _
                    [RoundParam.id gameData] (map RoundParam.id games)); [done| |].
    { apply insertGame_inTx. }
    intros rows Hrows.
    apply (inTx_seq _ _ (fun id => id = RoundParam.id gameData) _
                    [] (map RoundParam.id games)); [done| |].
    { apply inTx_lift. intros id Hid. congruence. }
    intros id ->. eapply inTx_weaken; [apply IH|].
    intros ids ->. cbn [map]. by rewrite <- app_assoc.
Qed.

Lemma persistRound_inTx (gradeID : string) (roundParam : RoundParam.t) :
  inTx (persistRound games_id_unique fails gradeID roundParam)
       (fun ids => ids.1 = roundGameIDs roundParam)
       (roundGameIDs roundParam).
Proof.
  unfold persistRound.
  apply (inTx_seq _ _ (fun rows => ∃ id, firstRoundId rows = Ok id) _
                  [] (roundGameIDs roundParam)); [done| |].
  { apply upsertRound_inTx. }
  intros rows _.
  apply (inTx_seq _ _ (fun _ => True) _ [] (roundGameIDs roundParam)); [done| |].
  { by apply inTx_lift. }
  intros roundID _. apply persistGames_inTx.
Qed.

Lemma persistRounds_inTx (gradeID : string) (roundParams : list RoundParam.t) :
  ∀ allGameIDs allTeamIDs,
    inTx (persistRounds games_id_unique fails gradeID roundParams allGameIDs allTeamIDs)
         (fun ids => ids.1 = allGameIDs ++ roundsGameIDs roundParams)
         (roundsGameIDs roundParams).
Proof.
  induction roundParams as [|roundParam roundParams IH]; intros allGameIDs allTeamIDs;
    cbn [persistRounds].
  - apply inTx_ret. simpl. by rewrite app_nil_r.
  - apply (inTx_seq _ _ (fun ids => ids.1 = roundGameIDs roundParam) _
                    (roundGameIDs roundParam) (roundsGameIDs roundParams)); [done| |].
    { apply persistRound_inTx. }
    intros ids Hids. eapply inTx_weaken; [apply IH|].
    intros ids' ->. rewrite Hids. unfold roundsGameIDs. cbn [map concat].
    by rewrite <- app_assoc.
Qed.

Lemma updateGradeAttributes_inTx (gradeID : string)
      (attributes : property GradeAttributes.t) :
  inTx (updateGradeAttributes games_id_unique fails gradeID attributes) (fun _ => True) [].
Proof.
  destruct attributes as [a|p|]; cbn [updateGradeAttributes]; [| |apply inTx_throw].
  - apply (inTx_seq _ _ (fun _ => True) _ [] []); [done| |].
    { apply updateGrade_inTx. }
    intros _ _. by apply inTx_ret.
  - apply (inTx_seq _ _ (fun _ => True) _ [] []); [done| |].
    { apply updateGrade_inTx. }
    intros _ _. by apply inTx_ret.
Qed.

Lemma persistGrades_inTx (roundsParams : list (string * list RoundParam.t))
      (gradeAttributes : gmap string GradeAttributes.t) (gradeIDs : list string) :
  ∀ allGameIDs allTeamIDs,
    inTx (persistGrades games_id_unique fails roundsParams gradeAttributes gradeIDs
                        allGameIDs allTeamIDs)
         (fun ids => ids.1 = allGameIDs ++ gradesGameIDs roundsParams gradeIDs)
         (gradesGameIDs roundsParams gradeIDs).
Proof.
  induction gradeIDs as [|gradeID gradeIDs IH]; intros allGameIDs allTeamIDs;
    cbn [persistGrades].
  - apply inTx_ret. simpl. by rewrite app_nil_r.
  - apply (inTx_seq _ _ (fun rs => Object_get roundsParams gradeID = Some rs) _
                    [] (gradesGameIDs roundsParams (gradeID :: gradeIDs))); [done| |].
    { destruct (Object_get roundsParams gradeID); [by apply inTx_ret|apply inTx_throw]. }
    intros roundParams Hget.
    apply (inTx_seq _ _ (fun ids => ids.1 = allGameIDs ++ roundsGameIDs roundParams) _
                    (roundsGameIDs roundParams) (gradesGameIDs roundsParams gradeIDs)).
    { unfold gradesGameIDs. cbn [map concat]. by rewrite Hget. }
    { apply persistRounds_inTx. }
    intros ids Hids.
    apply (inTx_seq _ _ (fun _ => True) _ [] (gradesGameIDs roundsParams gradeIDs)); [done| |].
    { apply updateGradeAttributes_inTx. }
    intros _ _. eapply inTx_weaken; [apply IH|].
    intros ids' ->. rewrite Hids. unfold gradesGameIDs. cbn [map concat].
    by rewrite Hget, <- app_assoc.
Qed.

(** The [catch] block: the rollback is issued and the call throws; the
    committed database does not move. *)
Lemma rollback_rethrows {A} (error : exn) (c : Client) :
  let outcome := bindM (query ROLLBACK) (fun _ => @throw Client A error) c in
  (∃ e, outcome.1 = Throw e)
  ∧ committed outcome.2 = committed c
  ∧ released outcome.2 = released c
  ∧ ∃ l, issued outcome.2 = issued c ++ l.
Proof.
  unfold bindM, Postgres.query, throw, logged.
  destruct (fails (length (issued c))); simpl; eauto 6.
Qed.

(** Every way [persist] can end.  When it returns, every statement it
    issued succeeded, the ids it reports are the supplied ones in order, and
    the committed games table has grown by exactly those ids, each unseen
    before if game ids are unique.  When it throws, the committed database
    is the one it started from. *)
Lemma persist_outcome (roundsParams : list (string * list RoundParam.t))
      (competitionType : string) (gradeAttributes : gmap string GradeAttributes.t)
      (c : Client) :
  let outcome :=
    persist games_id_unique fails roundsParams competitionType gradeAttributes c in
  ∃ l, issued outcome.2 = issued c ++ l
       ∧ match outcome.1 with
         | Ok res =>
             Forall (fun e => e.2 = true) l
             ∧ gameIDs res = suppliedGameIDs roundsParams
             ∧ gameIds (committed outcome.2)
               = gameIds (visible c) ++ suppliedGameIDs roundsParams
             ∧ (games_id_unique = true →
                Forall (fun i => i ∉ gameIds (visible c)) (suppliedGameIDs roundsParams))
         | Throw _ => committed outcome.2 = committed c
         end.
Proof.
  cbv zeta. unfold persist, finally, tryCatch.
  set (body := bindM (query BEGIN) _).
  destruct (fails (length (issued c))) eqn:Hbegin.
  { (* BEGIN fails *)
    assert (Hbody : body c = (Throw (Error "query failed"),
                              {| committed := committed c; working := working c;
                                 issued := logged BEGIN false c; released := released c |})).
    { subst body. apply bindM_Throw. unfold Postgres.query. by rewrite Hbegin. }
    rewrite Hbody.
    destruct (rollback_rethrows (A := PersistResult) (Error "query failed")
                {| committed := committed c; working := working c;
                   issued := logged BEGIN false c; released := released c |})
      as ([e He] & Hc & _ & [l Hl]).
    cbv zeta in He, Hc, Hl. cbn [committed issued] in Hc, Hl.
    destruct (bindM (query ROLLBACK) _ _) as [r c'] eqn:Hr. cbn [fst snd] in *.
    subst r. exists ((BEGIN, false) :: l). split; [|done].
    cbn [release issued]. rewrite Hl. unfold logged. by rewrite <- app_assoc. }
  set (c1 := {| committed := committed c; working := Some (visible c);
                issued := logged BEGIN true c; released := released c |}).
  assert (Hc1 : query BEGIN c = (Ok NoRows, c1)).
  { unfold Postgres.query. by rewrite Hbegin. }
  destruct (persistGrades_inTx roundsParams gradeAttributes (Object_keys roundsParams)
              [] [] c1 (visible c) eq_refl) as (l1 & db' & Hc2 & Hr2).
  destruct (persistGrades _ _ _ _ _ _ _ c1) as [[ids|e] c2] eqn:Hgrades;
    cbn [fst snd] in Hc2, Hr2.
  2: { (* a write fails *)
    assert (Hbody : body c = (Throw e, c2)).
    { subst body. rewrite (bindM_Ok _ _ _ _ _ Hc1). by apply bindM_Throw. }
    rewrite Hbody.
    destruct (rollback_rethrows (A := PersistResult) e c2) as ([e' He'] & Hc & _ & [l Hl]).
    cbv zeta in He', Hc, Hl.
    destruct (bindM (query ROLLBACK) _ _) as [r c'] eqn:Hr. cbn [fst snd] in *.
    subst r. exists ((BEGIN, true) :: l1 ++ l). split.
    - cbn [release issued]. rewrite Hl, Hc2. subst c1. cbn [issued]. unfold logged.
      by rewrite <- !app_assoc.
    - cbn [release committed]. rewrite Hc, Hc2. done. }
  destruct Hr2 as (Hids & Hl1 & Hgames & Hfresh).
  destruct (fails (length (issued c2))) eqn:Hcommit.
  { (* COMMIT fails *)
    assert (Hbody : body c = (Throw (Error "query failed"),
                              {| committed := committed c2; working := working c2;
                                 issued := logged COMMIT false c2;
                                 released := released c2 |})).
    { subst body. rewrite (bindM_Ok _ _ _ _ _ Hc1), (bindM_Ok _ _ _ _ _ Hgrades).
      apply bindM_Throw. unfold Postgres.query. by rewrite Hcommit. }
    rewrite Hbody.
    destruct (rollback_rethrows (A := PersistResult) (Error "query failed")
                {| committed := committed c2; working := working c2;
                   issued := logged COMMIT false c2; released := released c2 |})
      as ([e He] & Hc & _ & [l Hl]).
    cbv zeta in He, Hc, Hl. cbn [committed issued] in Hc, Hl.
    destruct (bindM (query ROLLBACK) _ _) as [r c'] eqn:Hr. cbn [fst snd] in *.
    subst r. exists ((BEGIN, true) :: l1 ++ (COMMIT, false) :: l). split.
    - cbn [release issued]. rewrite Hl. unfold logged. rewrite Hc2. subst c1.
      cbn [issued]. unfold logged. by rewrite <- !app_assoc.
    - cbn [release committed]. rewrite Hc, Hc2. done. }
  (* committed *)
  assert (Hbody : body c = (Ok {| gradeIDs := Object_keys roundsParams;
                                  teamIDs := unique ids.2;
                                  gameIDs := ids.1 |},
                            {| committed := visible c2; working := None;
                               issued := logged COMMIT true c2;
                               released := released c2 |})).
  { subst body. rewrite (bindM_Ok _ _ _ _ _ Hc1), (bindM_Ok _ _ _ _ _ Hgrades).
    erewrite bindM_Ok; [reflexivity|]. unfold Postgres.query. by rewrite Hcommit. }
  rewrite Hbody.
  exists ((BEGIN, true) :: l1 ++ [(COMMIT, true)]). cbn [fst snd release issued committed].
  split.
  - unfold logged. rewrite Hc2. subst c1. cbn [issued]. unfold logged.
    by rewrite <- !app_assoc.
  - split; [|split; [|split]].
    + constructor; [done|]. apply Forall_app. split; [done|by repeat constructor].
    + cbn [gameIDs]. by rewrite Hids.
    + unfold visible at 1. rewrite Hc2. cbn [working default]. exact Hgames.
    + exact Hfresh.
Qed.

(** C5, as the code has it.  On a connection without an open transaction:
    a run of [persist] that returns has reported exactly the supplied game
    ids and has appended each of them to the games table, whether or not
    the id was stored before; and where game ids are unique in the store, a
    run that supplies an id already stored throws and leaves the committed
    database as it was. *)
Theorem game_insert_is_plain (roundsParams : list (string * list RoundParam.t))
        (competitionType : string) (gradeAttributes : gmap string GradeAttributes.t)
        (c : Client) :
  working c = None →
  let outcome :=
    persist games_id_unique fails roundsParams competitionType gradeAttributes c in
  (∀ res, outcome.1 = Ok res →
          gameIDs res = suppliedGameIDs roundsParams
          ∧ gameIds (committed outcome.2)
            = gameIds (committed c) ++ suppliedGameIDs roundsParams)
  ∧ (games_id_unique = true →
     (∃ i, i ∈ suppliedGameIDs roundsParams ∧ i ∈ gameIds (committed c)) →
     (∃ e, outcome.1 = Throw e) ∧ committed outcome.2 = committed c).
Proof.
  intros Hidle outcome.
  destruct (persist_outcome roundsParams competitionType gradeAttributes c) as (l & Hl & Hout).
  fold outcome in Hl, Hout.
  assert (Hvisible : visible c = committed c) by (unfold visible; by rewrite Hidle).
  rewrite Hvisible in Hout. split.
  - intros res Hres. rewrite Hres in Hout. by destruct Hout as (_ & ? & ? & _).
  - intros Hunique (i & Hsupplied & Hstored).
    destruct outcome.1 as [res|e]; [|by eauto].
    destruct Hout as (_ & _ & _ & Hfresh). specialize (Hfresh Hunique).
    rewrite Forall_forall in Hfresh. by destruct (Hfresh i Hsupplied).
Qed.

End Transaction.

Section TransactionExamples.
Import Postgres FixturePersistService.

Lemma game_insert_is_plain_witness :
  let stored :=
    (persist true Examples.noFailure Examples.twoGames "DOMESTIC"
             Examples.twoGamesAttributes (Examples.client Examples.seededDatabase)).2 in
  let outcome :=
    persist true Examples.noFailure Examples.twoGames "DOMESTIC"
            Examples.twoGamesAttributes stored in
  working stored = None
  ∧ (∃ i, i ∈ suppliedGameIDs Examples.twoGames ∧ i ∈ gameIds (committed stored))
  ∧ (∃ e, outcome.1 = Throw e)
  ∧ committed outcome.2 = committed stored.
Proof.
  intros stored outcome.
  assert (Hidle : working stored = None) by reflexivity.
  assert (Hstored : ∃ i, i ∈ suppliedGameIDs Examples.twoGames
                         ∧ i ∈ gameIds (committed stored)).
  { exists "x1". split; vm_compute; apply list_elem_of_here. }
  split; [exact Hidle|]. split; [exact Hstored|].
  exact (proj2 (game_insert_is_plain true Examples.noFailure Examples.twoGames "DOMESTIC"
                  Examples.twoGamesAttributes stored Hidle) eq_refl Hstored).
Defined.

(** C5, as the specification words it, fails: the same upload persisted a
    second time on the connection the first run left behind.  Where game
    ids are unique the second run throws on the first game; where they are
    not, it returns and every game is stored twice. *)
Lemma rerun_counterexample :
  let first (unique : bool) :=
    persist unique Examples.noFailure Examples.twoGames "DOMESTIC"
            Examples.twoGamesAttributes (Examples.client Examples.seededDatabase) in
  let second (unique : bool) :=
    persist unique Examples.noFailure Examples.twoGames "DOMESTIC"
            Examples.twoGamesAttributes (first unique).2 in
  gameIds (committed (first true).2) = ["x1"; "x2"]
  ∧ (second true).1 = Throw (Error "duplicate key value violates unique constraint")
  ∧ gameIds (committed (first false).2) = ["x1"; "x2"]
  ∧ (second false).1 = Ok {| gradeIDs := ["g1"]; teamIDs := ["t1"; "t2"; "t3"];
                             gameIDs := ["x1"; "x2"] |}
  ∧ gameIds (committed (second false).2) = ["x1"; "x2"; "x1"; "x2"].
Proof. repeat split; vm_compute; reflexivity. Qed.

End TransactionExamples.

(** * Further properties of the validation engine *)

Section RowValidatorMore.
Import FixtureValidationService.
Context (host : Host).

Lemma pushIf_nil {A} (c : bool) (e : A) (l : list A) :
  pushIf c e l = [] ↔ c = false ∧ l = [].
Proof.
  unfold pushIf. destruct c; split.
  - intros H. by apply app_eq_nil in H as [_ H].
  - intros [H _]. discriminate.
  - done.
  - by intros [_ H].
Qed.

(** A team is found among the grade's teams when some team of the season
    carries the name and belongs to the grade. *)
Lemma team_found (teams : list Team.t) (gradeID name : string) :
  is_Some (List.find (fun t => String.eqb (Team.name t) name)
             (List.filter (fun t => String.eqb (Team.gradeID t) gradeID) teams))
  ↔ ∃ t, t ∈ teams ∧ Team.gradeID t = gradeID ∧ Team.name t = name.
Proof.
  induction teams as [|t teams IH]; simpl.
  - split; [by intros [? ?]|]. intros (t & Ht & _). by apply elem_of_nil in Ht.
  - destruct (String.eqb_spec (Team.gradeID t) gradeID) as [Hg|Hg]; simpl.
    + destruct (String.eqb_spec (Team.name t) name) as [Hn|Hn].
      * split; [|by eexists]. intros _. exists t. split; [by left|done].
      * rewrite IH. split.
        -- intros (t' & Hin & H). exists t'. split; [by right|done].
        -- intros (t' & Hin & Hg' & Hn'). apply elem_of_cons in Hin as [->|Hin]; [done|].
           by exists t'.
    + rewrite IH. split.
      * intros (t' & Hin & H). exists t'. split; [by right|done].
      * intros (t' & Hin & Hg' & Hn'). apply elem_of_cons in Hin as [->|Hin]; [done|].
        by exists t'.
Qed.

(** X1.  A row draws no business-rule violation exactly when its grade code
    resolves, both of its teams belong to the resolved grade, its round is
    not above the grade's number of rounds, and, if it is dated before the
    processing time, what is read under the grade's id is truthy: a true
    flag of the context, or, when the context has no flag there, something
    every plain object inherits under that name. *)
Theorem row_passes_iff (row : FixtureRow.t) (context : ValidationContext.t) :
  validateFixtureRow host row context = [] ↔
  ∃ grade,
    List.find (fun g => String.eqb (Grade.code g) (FixtureRow.gradeCode row))
              (ValidationContext.grades context) = Some grade
    ∧ (∃ t, t ∈ ValidationContext.teams context
            ∧ Team.gradeID t = Grade.id grade ∧ Team.name t = FixtureRow.homeTeam row)
    ∧ (∃ t, t ∈ ValidationContext.teams context
            ∧ Team.gradeID t = Grade.id grade ∧ Team.name t = FixtureRow.awayTeam row)
    ∧ roundAbove (FixtureRow.round row) (Grade.noOfRounds grade) = false
    ∧ (isPast host (FixtureRow.date row) = true →
       ValidationContext.existingFixtures context !! Grade.id grade = Some true
       ∨ (ValidationContext.existingFixtures context !! Grade.id grade = None
          ∧ is_Some (inheritedAt (Grade.id grade)))).
Proof.
  unfold validateFixtureRow.
  destruct (List.find _ (ValidationContext.grades context)) as [grade|].
  2: { split; [discriminate|]. by intros (? & ? & _). }
  rewrite !pushIf_nil.
  rewrite !negb_false_iff, !bool_decide_eq_true, andb_false_iff, negb_false_iff.
  rewrite !team_found, holds_get.
  split.
  - intros ([Hpast|Hflag] & Hround & Haway & Hhome & _); exists grade;
      repeat split; try done.
    + rewrite Hpast. discriminate.
    + intros _.
      destruct (ValidationContext.existingFixtures context !! Grade.id grade) as [[|]|];
        [by left|done|right]. split; [done|]. by apply bool_decide_eq_true in Hflag.
  - intros (g & [= <-] & Hhome & Haway & Hround & Hflag). repeat split; try done.
    destruct (isPast host (FixtureRow.date row)); [right|by left].
    destruct (Hflag eq_refl) as [->|[-> Hproto]]; [done|].
    by apply bool_decide_eq_true.
Qed.

End RowValidatorMore.

Section CrossRowValidatorMore.
Import FixtureValidationService.

Abbreviation ranOver rows :=
  (fold_left crossRowStep rows {| errors := []; gameSignatures := ∅; teamRoundTracker := ∅ |}).

Lemma crossRowStep_signatures (st : CrossRowState) (row : FixtureRow.t) (sig : string) :
  sig ∈ gameSignatures (crossRowStep st row)
  ↔ sig = gameSignature row ∨ sig ∈ gameSignatures st.
Proof. simpl. by rewrite elem_of_union, elem_of_singleton. Qed.

Lemma crossRowStep_tracker (st : CrossRowState) (row : FixtureRow.t)
      (k : string) (x : number) :
  x ∈ roundsOf k (teamRoundTracker (crossRowStep st row))
  ↔ x ∈ roundsOf k (teamRoundTracker st)
    ∨ (x = FixtureRow.round row
       ∧ (k = teamKey row (FixtureRow.homeTeam row)
          ∨ k = teamKey row (FixtureRow.awayTeam row))).
Proof.
  simpl. rewrite !elem_of_roundsOf_addRound, !roundsOf_ensureKey. split.
  - intros [[H | [-> ->]] | [-> ->]]; [by left|right; split; [done|by left]|
                                   right; split; [done|by right]].
  - intros [H|[-> [-> | ->]]]; [by do 2 left|left; by right|by right].
Qed.

(** The two hash structures hold exactly what the rows seen so far put
    there. *)
Lemma ranOver_holds (rows : list FixtureRow.t) :
  (∀ sig, sig ∈ gameSignatures (ranOver rows)
          ↔ ∃ r, r ∈ rows ∧ gameSignature r = sig)
  ∧ (∀ k x, x ∈ roundsOf k (teamRoundTracker (ranOver rows))
            ↔ ∃ r, r ∈ rows ∧ FixtureRow.round r = x
                   ∧ (teamKey r (FixtureRow.homeTeam r) = k
                      ∨ teamKey r (FixtureRow.awayTeam r) = k)).
Proof.
  induction rows as [|row rows [IHs IHt]] using rev_ind.
  - split.
    + intros sig. cbn [fold_left gameSignatures]. split; [by intros ?%not_elem_of_empty|].
      intros (r & Hr & _). by apply elem_of_nil in Hr.
    + intros k x. cbn [fold_left teamRoundTracker]. unfold roundsOf. rewrite lookup_empty.
      split; [by intros ?%not_elem_of_empty|]. intros (r & Hr & _). by apply elem_of_nil in Hr.
  - rewrite fold_left_app. cbn [fold_left]. split.
    + intros sig. rewrite crossRowStep_signatures, IHs. split.
      * intros [-> | (r & Hr & Hsig)].
        -- exists row. split; [|done]. apply elem_of_app. right. by apply list_elem_of_singleton.
        -- exists r. split; [|done]. apply elem_of_app. by left.
      * intros (r & Hr & Hsig). apply elem_of_app in Hr as [Hr|Hr].
        -- right. by exists r.
        -- apply list_elem_of_singleton in Hr as ->. by left.
    + intros k x. rewrite crossRowStep_tracker, IHt. split.
      * intros [(r & Hr & Hx & Hk) | [-> Hk]].
        -- exists r. split; [|done]. apply elem_of_app. by left.
        -- exists row. split; [|by destruct Hk as [-> | ->]; auto].
           apply elem_of_app. right. by apply list_elem_of_singleton.
      * intros (r & Hr & Hx & Hk). apply elem_of_app in Hr as [Hr|Hr].
        -- left. by exists r.
        -- apply list_elem_of_singleton in Hr as ->. right.
           split; [done|]. by destruct Hk as [<- | <-]; auto.
Qed.

Lemma existsb_signature (rows : list FixtureRow.t) (sig : string) :
  existsb (fun r => String.eqb (gameSignature r) sig) rows = true
  ↔ ∃ r, r ∈ rows ∧ gameSignature r = sig.
Proof.
  rewrite existsb_exists. split.
  - intros (r & Hr & H). exists r. split; [by apply list_elem_of_In|by apply String.eqb_eq].
  - intros (r & Hr & H). exists r. split; [by apply list_elem_of_In|by apply String.eqb_eq].
Qed.

Lemma existsb_sharesTeamRound (rows : list FixtureRow.t) (k : string) (x : number) :
  existsb (sharesTeamRound k x) rows = true
  ↔ ∃ r, r ∈ rows ∧ FixtureRow.round r = x
         ∧ (teamKey r (FixtureRow.homeTeam r) = k ∨ teamKey r (FixtureRow.awayTeam r) = k).
Proof.
  rewrite existsb_exists. unfold sharesTeamRound. split.
  - intros (r & Hr & H). exists r. split; [by apply list_elem_of_In|].
    apply andb_true_iff in H as [Hx Hk]. apply bool_decide_eq_true in Hx.
    apply orb_true_iff in Hk. rewrite !String.eqb_eq in Hk. done.
  - intros (r & Hr & Hx & Hk). exists r. split; [by apply list_elem_of_In|].
    apply andb_true_iff. split; [by apply bool_decide_eq_true|].
    apply orb_true_iff. by rewrite !String.eqb_eq.
Qed.

Lemma bool_decide_as (P : Prop) `{Decision P} (b : bool) :
  (b = true ↔ P) → bool_decide P = b.
Proof.
  intros HP. destruct b.
  - apply bool_decide_eq_true_2. by apply HP.
  - apply bool_decide_eq_false_2. intros HP'. apply HP in HP'. discriminate.
Qed.

Lemma validateCrossRowRules_snoc (rows : list FixtureRow.t) (row : FixtureRow.t) :
  validateCrossRowRules (rows ++ [row])
  = validateCrossRowRules rows ++ crossRowVerdict rows row.
Proof.
  unfold validateCrossRowRules. rewrite fold_left_app. cbn [fold_left].
  rewrite crossRowStep_errors. destruct (ranOver_holds rows) as [Hs Ht].
  unfold crossRowVerdict. f_equal.
  rewrite (bool_decide_as _ (existsb (fun r => String.eqb (gameSignature r)
                                                (gameSignature row)) rows)).
  2: { by rewrite existsb_signature, Hs. }
  f_equal.
  rewrite (bool_decide_as _ (existsb (sharesTeamRound
                                        (teamKey row (FixtureRow.homeTeam row))
                                        (FixtureRow.round row)) rows)).
  2: { by rewrite existsb_sharesTeamRound, Ht. }
  f_equal.
  rewrite (bool_decide_as _ (existsb (sharesTeamRound
                                        (teamKey row (FixtureRow.awayTeam row))
                                        (FixtureRow.round row)) rows)).
  2: { by rewrite existsb_sharesTeamRound, Ht. }
  done.
Qed.

(** X2.  The single pass with a set of signatures and a map of booked rounds
    gives each row the verdict that a scan of the rows before it gives:
    the violations of a row set extended by one row are those of the row
    set, unchanged, followed by the verdict on the new row. *)
Theorem cross_row_pass_is_scan (rows : list FixtureRow.t) (row : FixtureRow.t) :
  validateCrossRowRules (rows ++ [row])
  = validateCrossRowRules rows ++ crossRowVerdict rows row.
Proof. apply validateCrossRowRules_snoc. Qed.

(** X3.  A row whose home team already plays, at home or away, in an
    earlier row of the same grade code and round is reported as double
    booked; so is a row whose away team does.  The two reports are
    independent. *)
Theorem double_booking_reported (rows : list FixtureRow.t) (earlier row : FixtureRow.t) :
  earlier ∈ rows →
  FixtureRow.gradeCode earlier = FixtureRow.gradeCode row →
  FixtureRow.round earlier = FixtureRow.round row →
  ((FixtureRow.homeTeam row = FixtureRow.homeTeam earlier
    ∨ FixtureRow.homeTeam row = FixtureRow.awayTeam earlier) →
   doubleBooked (FixtureRow.homeTeam row) row ∈ validateCrossRowRules (rows ++ [row]))
  ∧ ((FixtureRow.awayTeam row = FixtureRow.homeTeam earlier
      ∨ FixtureRow.awayTeam row = FixtureRow.awayTeam earlier) →
     doubleBooked (FixtureRow.awayTeam row) row ∈ validateCrossRowRules (rows ++ [row])).
Proof.
  intros Hin Hgrade Hround. rewrite validateCrossRowRules_snoc. unfold crossRowVerdict.
  split; intros Hteam.
  - assert (H : existsb (sharesTeamRound (teamKey row (FixtureRow.homeTeam row))
                                         (FixtureRow.round row)) rows = true).
    { apply existsb_sharesTeamRound. exists earlier. split; [done|]. split; [done|].
      unfold teamKey. rewrite Hgrade. destruct Hteam as [-> | ->]; auto. }
    rewrite H. rewrite !elem_of_app. right. right. left. by apply list_elem_of_singleton.
  - assert (H : existsb (sharesTeamRound (teamKey row (FixtureRow.awayTeam row))
                                         (FixtureRow.round row)) rows = true).
    { apply existsb_sharesTeamRound. exists earlier. split; [done|]. split; [done|].
      unfold teamKey. rewrite Hgrade. destruct Hteam as [-> | ->]; auto. }
    rewrite H. rewrite !elem_of_app. do 3 right. by apply list_elem_of_singleton.
Qed.

Lemma append_assoc (a b c : string) : (a +:+ b) +:+ c = a +:+ b +:+ c.
Proof.
  induction a as [|x a IH]; [reflexivity|].
  change (String x ((a +:+ b) +:+ c) = String x (a +:+ b +:+ c)). by rewrite IH.
Qed.

Lemma length_append (a b : string) :
  String.length (a +:+ b) = (String.length a + String.length b)%nat.
Proof.
  induction a as [|x a IH]; [reflexivity|].
  change (S (String.length (a +:+ b)) = S (String.length a + String.length b)).
  by rewrite IH.
Qed.

(** X4.  The game signature joins its four parts with a dash, so it does
    not tell a dash in a grade code from a dash in a team name: a row for
    grade [a-b] with home team [c] is reported as a duplicate of an earlier
    row for grade [a] with home team [b-c], a different game. *)
Theorem dash_makes_false_duplicate (a b c awayTeam date1 date2 : string) (n : number) :
  let first := {| FixtureRow.gradeCode := a;
                  FixtureRow.homeTeam := b +:+ "-" +:+ c;
                  FixtureRow.awayTeam := awayTeam;
                  FixtureRow.date := date1;
                  FixtureRow.round := n;
                  FixtureRow.gameType := None |} in
  let second := {| FixtureRow.gradeCode := a +:+ "-" +:+ b;
                   FixtureRow.homeTeam := c;
                   FixtureRow.awayTeam := awayTeam;
                   FixtureRow.date := date2;
                   FixtureRow.round := n;
                   FixtureRow.gameType := None |} in
  FixtureRow.gradeCode first ≠ FixtureRow.gradeCode second
  ∧ duplicateGame second ∈ validateCrossRowRules [first; second].
Proof.
  intros first second. split.
  - subst first second. simpl. intros H.
    assert (Hlen : String.length a = String.length (a +:+ "-" +:+ b)) by by rewrite <- H.
    rewrite !length_append in Hlen. simpl in Hlen. lia.
  - change [first; second] with ([first] ++ [second]).
    rewrite validateCrossRowRules_snoc, single_row_is_clean. unfold crossRowVerdict.
    assert (H : gameSignature first = gameSignature second).
    { subst first second. unfold gameSignature. simpl. by rewrite !append_assoc. }
    cbn [existsb]. rewrite H, String.eqb_refl. cbn [orb app].
    apply list_elem_of_here.
Qed.

End CrossRowValidatorMore.

Lemma double_booking_reported_witness :
  let lionsBears := {| FixtureRow.gradeCode := "A1";
                       FixtureRow.homeTeam := "Lions";
                       FixtureRow.awayTeam := "Bears";
                       FixtureRow.date := "15/03/2024";
                       FixtureRow.round := Finite 1;
                       FixtureRow.gameType := None |} in
  Examples.yesterday ∈ [Examples.yesterday]
  ∧ FixtureRow.gradeCode Examples.yesterday = FixtureRow.gradeCode lionsBears
  ∧ FixtureRow.round Examples.yesterday = FixtureRow.round lionsBears
  ∧ (FixtureRow.homeTeam lionsBears = FixtureRow.homeTeam Examples.yesterday
     ∨ FixtureRow.homeTeam lionsBears = FixtureRow.awayTeam Examples.yesterday)
  ∧ FixtureValidationService.doubleBooked "Lions" lionsBears
      ∈ FixtureValidationService.validateCrossRowRules ([Examples.yesterday] ++ [lionsBears]).
Proof.
  intros lionsBears.
  assert (Hin : Examples.yesterday ∈ [Examples.yesterday]) by apply list_elem_of_here.
  assert (Hteam : FixtureRow.homeTeam lionsBears = FixtureRow.homeTeam Examples.yesterday
                  ∨ FixtureRow.homeTeam lionsBears = FixtureRow.awayTeam Examples.yesterday)
    by (by left).
  split; [exact Hin|]. split; [reflexivity|]. split; [reflexivity|]. split; [exact Hteam|].
  exact (proj1 (double_booking_reported [Examples.yesterday] Examples.yesterday lionsBears
                  Hin eq_refl eq_refl) Hteam).
Defined.

Section FileFormatMore.
Import FixtureValidationService.
Context (host : Host).

Lemma Forall_pushIf {A} (P : A -> Prop) (c : bool) (e : A) (l : list A) :
  Forall P l → P e → Forall P (pushIf c e l).
Proof.
  intros Hl He. unfold pushIf. destruct c; [|done].
  apply Forall_app. split; [done|by constructor].
Qed.

(** Every error of a row carries the row's number. *)
Lemma rowFormatErrors_numbered (row : RawRow.t) (rowNumber : nat) :
  Forall (fun e => ValidationError.row e = Some rowNumber
                   ∧ ValidationError.type e = FILE_FORMAT)
         (rowFormatErrors host row rowNumber).
Proof. unfold rowFormatErrors. repeat apply Forall_pushIf; done. Qed.

(** A row without errors has the three cells that are trimmed. *)
Lemma rowFormatErrors_nil (row : RawRow.t) (rowNumber : nat) :
  rowFormatErrors host row rowNumber = [] →
  blank (RawRow.gradeCode row) = false
  ∧ blank (RawRow.homeTeam row) = false
  ∧ blank (RawRow.awayTeam row) = false
  ∧ isValidDate host (RawRow.date row) = true
  ∧ roundInvalid host (RawRow.round row) = false
  ∧ RawRow.homeTeam row ≠ RawRow.awayTeam row.
Proof.
  unfold rowFormatErrors. rewrite !pushIf_nil, negb_false_iff, bool_decide_eq_false.
  tauto.
Qed.

Lemma trimmed_present (cell : option string) :
  blank cell = false → trimmed cell = Ok (trim (default EmptyString cell)).
Proof. by destruct cell. Qed.

Lemma acceptedRow_trimmedRow (row : RawRow.t) (rowNumber : nat) :
  rowFormatErrors host row rowNumber = [] → acceptedRow row = Ok (trimmedRow row).
Proof.
  intros (Hg & Hh & Ha & _)%rowFormatErrors_nil. unfold acceptedRow.
  by rewrite (trimmed_present _ Hg), (trimmed_present _ Hh), (trimmed_present _ Ha).
Qed.

Lemma filter_row_number (old new : list ValidationError.t) (rowNumber : nat) :
  Forall (fun e => ∀ n, ValidationError.row e = Some n → (n < rowNumber)%nat) old →
  Forall (fun e => ValidationError.row e = Some rowNumber) new →
  List.filter (fun e => bool_decide (ValidationError.row e = Some rowNumber)) (old ++ new)
  = new.
Proof.
  intros Hold Hnew. rewrite List.filter_app.
  assert (H1 : List.filter (fun e => bool_decide (ValidationError.row e = Some rowNumber)) old
               = []).
  { induction Hold as [|e old He _ IH]; [done|]. simpl.
    rewrite bool_decide_eq_false_2; [done|]. intros Heq. specialize (He _ Heq). lia. }
  assert (H2 : List.filter (fun e => bool_decide (ValidationError.row e = Some rowNumber)) new
               = new).
  { induction Hnew as [|e new He _ IH]; [done|]. simpl.
    by rewrite bool_decide_eq_true_2, IH. }
  by rewrite H1, H2.
Qed.

(** The loop never throws, and its filter over the errors collected so far
    looks at the errors of the current row only. *)
Lemma parseLoop_rows (rows : list RawRow.t) :
  ∀ index st,
    Forall (fun e => ∀ n, ValidationError.row e = Some n → (n < index + 2)%nat)
           (formatErrors st) →
    parseLoop host rows index st
    = Ok {| fixtureRows := fixtureRows st ++ rowsAcceptedFrom host index rows;
            formatErrors := formatErrors st ++ rowErrorsFrom host index rows |}.
Proof.
  induction rows as [|row rows IH]; intros index st Hst.
  - cbn [parseLoop rowsAcceptedFrom rowErrorsFrom]. rewrite !app_nil_r. by destruct st.
  - cbn [parseLoop rowsAcceptedFrom rowErrorsFrom]. unfold parseStep.
    assert (Hnum := rowFormatErrors_numbered row (index + 2)).
    rewrite filter_row_number; [|done|by eapply Forall_impl; [exact Hnum|intros ? [? _]]].
    assert (Hnext : Forall (fun e => ∀ n, ValidationError.row e = Some n → (n < S index + 2)%nat)
                           (formatErrors st ++ rowFormatErrors host row (index + 2))).
    { apply Forall_app. split.
      - eapply Forall_impl; [exact Hst|]. intros e He n Hn. specialize (He n Hn). lia.
      - eapply Forall_impl; [exact Hnum|]. intros e [He _] n Hn. rewrite He in Hn.
        injection Hn as <-. lia. }
    destruct (rowFormatErrors host row (index + 2)) as [|e es] eqn:Herrors.
    + cbn [length Nat.eqb]. rewrite (acceptedRow_trimmedRow row (index + 2) Herrors).
      cbn [bind]. rewrite IH by exact Hnext. cbn [fixtureRows formatErrors].
      by rewrite <- !app_assoc.
    + cbn [length Nat.eqb bind]. rewrite IH by exact Hnext. cbn [fixtureRows formatErrors].
      by rewrite <- !app_assoc.
Qed.

Lemma parseAndValidateFile_rows (simulateExcelParsing : string -> result (list RawRow.t))
        (buffer : string) :
  parseAndValidateFile host simulateExcelParsing buffer
  = match simulateExcelParsing buffer with
    | Ok rows => {| fixtureRows := rowsAcceptedFrom host 0 rows;
                    formatErrors := rowErrorsFrom host 0 rows |}
    | Throw _ => {| fixtureRows := []; formatErrors := [unparsable] |}
    end.
Proof.
  unfold parseAndValidateFile. destruct (simulateExcelParsing buffer) as [rows|e]; [|done].
  cbn [bind]. by rewrite parseLoop_rows.
Qed.

(** X5.  File-format validation never fails on the rows themselves: when the
    decoder returns rows, the format errors are those of each row, in row
    order and numbered from 2, and the accepted rows are the rows without
    errors, trimmed, in row order; the "unable to parse" error is the
    answer to a decoder failure and to nothing else. *)
Theorem parse_is_row_by_row (simulateExcelParsing : string -> result (list RawRow.t))
        (buffer : string) :
  parseAndValidateFile host simulateExcelParsing buffer
  = match simulateExcelParsing buffer with
    | Ok rows => {| fixtureRows := rowsAcceptedFrom host 0 rows;
                    formatErrors := rowErrorsFrom host 0 rows |}
    | Throw _ => {| fixtureRows := []; formatErrors := [unparsable] |}
    end.
Proof. apply parseAndValidateFile_rows. Qed.

Lemma trim_not_empty (cell : option string) :
  blank cell = false → trim (default EmptyString cell) ≠ EmptyString.
Proof.
  destruct cell as [s|]; [|discriminate]. simpl. unfold truthy.
  rewrite negb_false_iff, negb_true_iff. intros H Heq. rewrite Heq in H. discriminate.
Qed.

Lemma rowsAcceptedFrom_valid (rows : list RawRow.t) :
  ∀ index,
    Forall (fun r => FixtureRow.gradeCode r ≠ EmptyString
                     ∧ FixtureRow.homeTeam r ≠ EmptyString
                     ∧ FixtureRow.awayTeam r ≠ EmptyString
                     ∧ isValidDate host (Some (FixtureRow.date r)) = true)
           (rowsAcceptedFrom host index rows).
Proof.
  induction rows as [|row rows IH]; intros index; cbn [rowsAcceptedFrom]; [constructor|].
  destruct (rowFormatErrors host row (index + 2)) eqn:Herrors; [|apply IH].
  constructor; [|apply IH].
  apply rowFormatErrors_nil in Herrors as (Hg & Hh & Ha & Hd & _).
  cbn [trimmedRow FixtureRow.gradeCode FixtureRow.homeTeam FixtureRow.awayTeam FixtureRow.date].
  repeat split; try by apply trim_not_empty.
  by destruct (RawRow.date row).
Qed.

(** X6.  Whatever the decoder does, every row that file-format validation
    hands on has a non-empty grade code, home team and away team, and a
    date that [isValidDate] accepts. *)
Theorem accepted_rows_are_well_formed
        (simulateExcelParsing : string -> result (list RawRow.t)) (buffer : string) :
  Forall (fun r => FixtureRow.gradeCode r ≠ EmptyString
                   ∧ FixtureRow.homeTeam r ≠ EmptyString
                   ∧ FixtureRow.awayTeam r ≠ EmptyString
                   ∧ isValidDate host (Some (FixtureRow.date r)) = true)
         (fixtureRows (parseAndValidateFile host simulateExcelParsing buffer)).
Proof.
  rewrite parseAndValidateFile_rows. destruct (simulateExcelParsing buffer); [|constructor].
  apply rowsAcceptedFrom_valid.
Qed.

Lemma Forall_pushIf_cond {A} (P : A -> Prop) (c : bool) (e : A) (l : list A) :
  Forall P l → (c = true → P e) → Forall P (pushIf c e l).
Proof.
  intros Hl He. unfold pushIf. destruct c; [|done].
  apply Forall_app. split; [done|]. constructor; [by apply He|constructor].
Qed.

(** X7.  The round check of the file format lets through a round cell that
    is not a number: a non-empty cell that the host converts to NaN raises
    no Round error, and a row whose round is NaN, as [parseInt] makes it
    when the cell starts with no digit, is never reported for exceeding a
    grade's number of rounds. *)
Theorem non_numeric_round_passes (raw : RawRow.t) (cell : string) (rowNumber : nat) :
  RawRow.round raw = Some cell →
  cell ≠ EmptyString →
  ToNumber host cell = None →
  Forall (fun e => ValidationError.column e ≠ Some "Round")
         (rowFormatErrors host raw rowNumber)
  ∧ FixtureRow.round (trimmedRow raw) = parseInt cell
  ∧ ∀ (row : FixtureRow.t) (context : ValidationContext.t) (grade : Grade.t),
      FixtureRow.round row = NaN →
      roundExceeds row grade ∉ validateFixtureRow host row context.
Proof.
  intros Hcell Hne Hnan. split; [|split].
  - unfold rowFormatErrors.
    repeat (apply Forall_pushIf_cond; [|try (intros _; simpl; discriminate)]).
    + constructor.
    + unfold roundInvalid. rewrite Hcell, Hnan. unfold truthy.
      destruct (String.eqb_spec cell EmptyString); [done|discriminate].
  - unfold trimmedRow. simpl. by rewrite Hcell.
  - intros row context grade Hround. unfold validateFixtureRow.
    destruct (List.find _ _) as [g|].
    + rewrite Hround. cbn [roundAbove]. rewrite !elem_of_pushIf.
      intros [[[[H|[_ H]]|[_ H]]|[H _]]|[_ H]]; try discriminate.
      by apply elem_of_nil in H.
    + rewrite app_nil_l, list_elem_of_singleton. discriminate.
Qed.

End FileFormatMore.

Lemma non_numeric_round_passes_witness :
  let raw := {| RawRow.gradeCode := Some "A1"; RawRow.homeTeam := Some "Lions";
                RawRow.awayTeam := Some "Tigers"; RawRow.date := Some "17/03/2024";
                RawRow.round := Some "abc"; RawRow.gameType := None |} in
  RawRow.round raw = Some "abc"
  ∧ "abc" ≠ EmptyString
  ∧ ToNumber Examples.host "abc" = None
  ∧ Forall (fun e => ValidationError.column e ≠ Some "Round")
           (FixtureValidationService.rowFormatErrors Examples.host raw 2)
  ∧ FixtureRow.round (trimmedRow raw) = parseInt "abc".
Proof.
  intros raw.
  assert (Hne : "abc" ≠ EmptyString) by discriminate.
  split; [reflexivity|]. split; [exact Hne|]. split; [reflexivity|].
  pose proof (non_numeric_round_passes Examples.host raw "abc" 2 eq_refl Hne eq_refl)
    as (H1 & H2 & _).
  split; [exact H1|exact H2].
Defined.

Section ValidationEngineMore.
Import FixtureValidationService.
Context (host : Host).
Context (simulateExcelParsing : string -> result (list RawRow.t)).
Context (repositories : ValidationRepositories).
Context (getObject : string -> string -> result string).

Abbreviation answerFor seasonID objectKey :=
  (validateS3File host simulateExcelParsing repositories getObject seasonID objectKey).

Lemma uniqueFrom_spec (xs : list string) :
  ∀ seen : gset string,
    NoDup (uniqueFrom seen xs)
    ∧ ∀ x, x ∈ uniqueFrom seen xs ↔ x ∈ xs ∧ x ∉ seen.
Proof.
  induction xs as [|y xs IH]; intros seen; cbn [uniqueFrom].
  - split; [constructor|]. intros x. split; [by intros ?%elem_of_nil|].
    intros [?%elem_of_nil _]. done.
  - case_bool_decide as Hy.
    + destruct (IH seen) as [Hnd Hin]. split; [done|]. intros x. rewrite Hin, elem_of_cons.
      split; [intros [? ?]; auto|]. intros [[-> | ?] ?]; done.
    + destruct (IH ({[y]} ∪ seen)) as [Hnd Hin]. split.
      * constructor; [|done]. rewrite Hin. intros [_ H]. apply H.
        apply elem_of_union. left. by apply elem_of_singleton.
      * intros x. rewrite !elem_of_cons, Hin. split.
        -- intros [-> | [? H]]; [auto|]. split; [auto|].
           intros Hs. apply H, elem_of_union. by right.
        -- intros [[-> | ?] ?]; [by left|]. destruct (decide (x = y)) as [->|?]; [by left|].
           right. split; [done|].
           intros [?%elem_of_singleton|?]%elem_of_union; done.
Qed.

(** X8.  The lookups of the validation context are asked about each grade
    code of the rows once: the codes handed to the grade lookup and to the
    fixture-existence lookup are duplicate-free and are exactly the grade
    codes that occur in the rows. *)
Theorem context_asks_each_code_once (seasonID : string) (fixtureRows : list FixtureRow.t) :
  ∃ codes : list string,
    NoDup codes
    ∧ (∀ code, code ∈ codes ↔ ∃ row, row ∈ fixtureRows ∧ FixtureRow.gradeCode row = code)
    ∧ loadValidationContext repositories seasonID fixtureRows
      = (let* grades := gradeRepo_findBySeasonIDAndCodes repositories seasonID codes in
         let* teams := teamRepo_findBySeasonID repositories seasonID in
         let* existingFixtures := gradeRepo_hasFixtures repositories codes in
         Ok {| ValidationContext.seasonID := seasonID;
               ValidationContext.grades := grades;
               ValidationContext.teams := teams;
               ValidationContext.existingFixtures := existingFixtures |}).
Proof.
  exists (unique (map FixtureRow.gradeCode fixtureRows)).
  destruct (uniqueFrom_spec (map FixtureRow.gradeCode fixtureRows) ∅) as [Hnd Hin].
  split; [exact Hnd|]. split; [|done].
  intros code. unfold unique. rewrite Hin, list_elem_of_fmap. split.
  - intros [(row & -> & Hrow) _]. by exists row.
  - intros (row & Hrow & <-). split; [by exists row|apply not_elem_of_empty].
Qed.

Lemma validateS3File_shape (seasonID objectKey : string) :
  validationErrors (answerFor seasonID objectKey) ≠ Some []
  ∧ FixtureValidationService.objectKey (answerFor seasonID objectKey) = objectKey
  ∧ (validationErrors (answerFor seasonID objectKey) = None →
     ∃ buffer, getObject "upload-bucket" objectKey = Ok buffer
               ∧ fileBuffer (answerFor seasonID objectKey) = Some buffer).
Proof.
  unfold validateS3File.
  destruct (getObject "upload-bucket" objectKey) as [buffer|e]; cbn [bind].
  2: { repeat split; [discriminate|discriminate]. }
  destruct (formatErrors (parseAndValidateFile host simulateExcelParsing buffer))
    as [|e es] eqn:Hformat; cbn [length Nat.ltb Nat.leb].
  2: { repeat split; [discriminate|discriminate]. }
  destruct (validateBusinessRules host repositories _ seasonID) as [violations|e]; cbn [bind].
  2: { repeat split; [discriminate|discriminate]. }
  cbn [app]. destruct violations as [|v vs]; cbn [length Nat.ltb Nat.leb].
  - repeat split; [discriminate|]. intros _. by exists buffer.
  - repeat split; [discriminate|discriminate].
Qed.

(** X9.  The answer of [validateS3File] never carries an empty list of
    messages, and an answer without messages carries the buffer that was
    fetched: the handler's non-null assertion on the buffer holds whenever
    it is reached. *)
Theorem validation_answer_shape (seasonID objectKey : string) :
  validationErrors (answerFor seasonID objectKey) ≠ Some []
  ∧ FixtureValidationService.objectKey (answerFor seasonID objectKey) = objectKey
  ∧ (validationErrors (answerFor seasonID objectKey) = None →
     ∃ buffer, getObject "upload-bucket" objectKey = Ok buffer
               ∧ fileBuffer (answerFor seasonID objectKey) = Some buffer).
Proof. apply validateS3File_shape. Qed.

(** X10.  Validation does not throw on a failing collaborator.  When the
    object cannot be fetched, or when the file has no format error and one
    of the context lookups fails, the answer is the single message "Failed
    to access or process uploaded file", without a buffer. *)
Theorem collaborator_failure_is_one_message (seasonID objectKey : string) :
  ((∃ e, getObject "upload-bucket" objectKey = Throw e)
   ∨ (∃ buffer e,
        getObject "upload-bucket" objectKey = Ok buffer
        ∧ formatErrors (parseAndValidateFile host simulateExcelParsing buffer) = []
        ∧ loadValidationContext
            repositories seasonID
            (fixtureRows (parseAndValidateFile host simulateExcelParsing buffer))
          = Throw e)) →
  answerFor seasonID objectKey
  = {| fileBuffer := None;
       validationErrors := Some ["Failed to access or process uploaded file"];
       objectKey := objectKey |}.
Proof.
  unfold validateS3File. intros [[e He]|(buffer & e & Hget & Hformat & Hcontext)].
  - by rewrite He.
  - rewrite Hget. cbn [bind]. rewrite Hformat. cbn [length Nat.ltb Nat.leb].
    unfold validateBusinessRules. by rewrite Hcontext.
Qed.

(** X11.  The existing-fixtures flags are read under the grade's id, while
    the fixture-existence lookup is asked about grade codes.  When that
    lookup answers about the codes it was asked about only, and the id of
    the row's grade is not among the grade codes of the upload, no flag of
    the lookup is ever found: whether a row dated before the processing
    time is reported depends on the grade's id alone.  It is reported
    unless the id names something every plain object inherits, whatever
    the lookup said about the grade's fixtures. *)
Theorem flag_under_id_is_not_found (seasonID : string) (fixtureRows : list FixtureRow.t)
        (context : ValidationContext.t) (row : FixtureRow.t) (grade : Grade.t) :
  (∀ codes flags, gradeRepo_hasFixtures repositories codes = Ok flags →
                  ∀ key, is_Some (flags !! key) → key ∈ codes) →
  loadValidationContext repositories seasonID fixtureRows = Ok context →
  List.find (fun g => String.eqb (Grade.code g) (FixtureRow.gradeCode row))
            (ValidationContext.grades context) = Some grade →
  Grade.id grade ∉ map FixtureRow.gradeCode fixtureRows →
  isPast host (FixtureRow.date row) = true →
  pastDate row grade ∈ validateFixtureRow host row context
  ↔ inheritedAt (Grade.id grade) = None.
Proof.
  intros Hkeys Hload Hfind Hid Hpast.
  assert (Hflag : ValidationContext.existingFixtures context !! Grade.id grade = None).
  { unfold loadValidationContext in Hload.
    destruct (gradeRepo_findBySeasonIDAndCodes _ _ _) as [grades|]; [|discriminate].
    destruct (teamRepo_findBySeasonID _ _) as [teams|]; [|discriminate].
    destruct (gradeRepo_hasFixtures _ _) as [flags|] eqn:Hflags; [|discriminate].
    cbn [bind] in Hload. injection Hload as <-. cbn [ValidationContext.existingFixtures].
    destruct (flags !! Grade.id grade) as [flag|] eqn:Hflag; [|done].
    destruct Hid.
    destruct (uniqueFrom_spec (map FixtureRow.gradeCode fixtureRows) ∅) as [_ Hin].
    apply Hin. eapply Hkeys; [exact Hflags|]. by rewrite Hflag. }
  rewrite (pastDate_pushed host row context grade Hfind), holds_get, Hflag.
  rewrite bool_decide_eq_false. split.
  - intros [_ Hnone]. destruct (inheritedAt (Grade.id grade)) as [p|]; [|done].
    destruct Hnone. by eexists.
  - intros ->. split; [done|]. by intros [? ?].
Qed.

End ValidationEngineMore.

Section ValidationEngineMoreExamples.
Import FixtureValidationService.

Lemma collaborator_failure_is_one_message_witness :
  ((∃ e, (fun _ _ : string => @Throw string (Error "NoSuchKey")) "upload-bucket" "fixtures.xlsx"
         = Throw e)
   ∨ (∃ buffer e,
        (fun _ _ : string => @Throw string (Error "NoSuchKey")) "upload-bucket" "fixtures.xlsx"
        = Ok buffer
        ∧ formatErrors (parseAndValidateFile Examples.host (fun _ => Ok Examples.mixedUpload)
                                             buffer) = []
        ∧ loadValidationContext
            Examples.repositories "s1"
            (fixtureRows (parseAndValidateFile Examples.host
                                               (fun _ => Ok Examples.mixedUpload) buffer))
          = Throw e))
  ∧ validateS3File Examples.host (fun _ => Ok Examples.mixedUpload) Examples.repositories
                   (fun _ _ => Throw (Error "NoSuchKey")) "s1" "fixtures.xlsx"
    = {| fileBuffer := None;
         validationErrors := Some ["Failed to access or process uploaded file"];
         objectKey := "fixtures.xlsx" |}.
Proof.
  assert (H : (∃ e, (fun _ _ : string => @Throw string (Error "NoSuchKey"))
                      "upload-bucket" "fixtures.xlsx" = Throw e)
              ∨ (∃ buffer e,
                   (fun _ _ : string => @Throw string (Error "NoSuchKey"))
                     "upload-bucket" "fixtures.xlsx" = Ok buffer
                   ∧ formatErrors (parseAndValidateFile Examples.host
                                     (fun _ => Ok Examples.mixedUpload) buffer) = []
                   ∧ loadValidationContext
                       Examples.repositories "s1"
                       (fixtureRows (parseAndValidateFile Examples.host
                                       (fun _ => Ok Examples.mixedUpload) buffer))
                     = Throw e)).
  { left. by eexists. }
  split; [exact H|].
  exact (collaborator_failure_is_one_message Examples.host (fun _ => Ok Examples.mixedUpload)
           Examples.repositories (fun _ _ => Throw (Error "NoSuchKey"))
           "s1" "fixtures.xlsx" H).
Defined.

End ValidationEngineMoreExamples.

Section FlagExamples.
Import FixtureValidationService.

Lemma flag_under_id_is_not_found_witness :
  (∀ codes flags,
     gradeRepo_hasFixtures MoreExamples.flaggingRepositories codes = Ok flags →
     ∀ key, is_Some (flags !! key) → key ∈ codes)
  ∧ loadValidationContext MoreExamples.flaggingRepositories "s1" [Examples.yesterday]
    = Ok MoreExamples.flaggedContext
  ∧ List.find (fun g => String.eqb (Grade.code g) (FixtureRow.gradeCode Examples.yesterday))
              (ValidationContext.grades MoreExamples.flaggedContext)
    = Some MoreExamples.gradeG1
  ∧ (Grade.id MoreExamples.gradeG1 ∉ map FixtureRow.gradeCode [Examples.yesterday])
  ∧ isPast Examples.host (FixtureRow.date Examples.yesterday) = true
  ∧ (pastDate Examples.yesterday MoreExamples.gradeG1
       ∈ validateFixtureRow Examples.host Examples.yesterday MoreExamples.flaggedContext
     ↔ inheritedAt (Grade.id MoreExamples.gradeG1) = None).
Proof.
  assert (Hkeys : ∀ codes flags,
             gradeRepo_hasFixtures MoreExamples.flaggingRepositories codes = Ok flags →
             ∀ key, is_Some (flags !! key) → key ∈ codes).
  { intros codes flags [= <-] key [flag Hflag].
    apply elem_of_list_to_map_2 in Hflag.
    apply list_elem_of_fmap in Hflag as (code & [= -> _] & Hcode). exact Hcode. }
  assert (Hload : loadValidationContext MoreExamples.flaggingRepositories "s1"
                                        [Examples.yesterday]
                  = Ok MoreExamples.flaggedContext) by (vm_compute; reflexivity).
  assert (Hid : Grade.id MoreExamples.gradeG1 ∉ map FixtureRow.gradeCode [Examples.yesterday]).
  { simpl. rewrite list_elem_of_singleton. discriminate. }
  split; [exact Hkeys|]. split; [exact Hload|]. split; [reflexivity|].
  split; [exact Hid|]. split; [reflexivity|].
  exact (flag_under_id_is_not_found Examples.host MoreExamples.flaggingRepositories
           "s1" [Examples.yesterday] MoreExamples.flaggedContext Examples.yesterday
           MoreExamples.gradeG1 Hkeys Hload eq_refl Hid eq_refl).
Defined.

End FlagExamples.

(** * Further properties of the upload handler *)

Section HandlerMore.
Import FixtureValidationService SimplifiedFixtureUploadHandler.
Context {W : Type}.
Context (host : Host).
Context (simulateExcelParsing : string -> result (list RawRow.t)).
Context (validationRepositories : ValidationRepositories).
Context (getObject : string -> string -> result string).
Context (copy : string -> string -> string -> M W unit).
Context (repositories : FixtureRepositories W).
Context (parseFixtureFile :
           option string -> string -> result (list (string * list RoundParam.t))).

Abbreviation validated command :=
  (validateS3File host simulateExcelParsing validationRepositories getObject
                  (seasonID command) (SimplifiedFixtureUploadHandler.objectKey command)).

Abbreviation handled command :=
  (handle host simulateExcelParsing validationRepositories getObject copy
          repositories parseFixtureFile command).

Abbreviation processed fileBuffer seasonID :=
  (processFixtureUpload repositories parseFixtureFile fileBuffer seasonID).

(** X12.  Every way [handle] can end.  When it returns, the error list of
    the response is the one validation produced; a response with an error
    list has no events and leaves the store as it was.  When it throws, it
    throws "Fixture upload failed" whatever failed underneath, and
    validation had reported nothing. *)
Theorem handle_outcomes (command : FixtureUploadCommand) (w : W) :
  match (handled command w).1 with
  | Ok response =>
      errors (result_ response) = validationErrors (validated command)
      ∧ (is_Some (errors (result_ response)) →
         events response = [] ∧ (handled command w).2 = w)
  | Throw e =>
      e = Error "Fixture upload failed" ∧ validationErrors (validated command) = None
  end.
Proof.
  destruct (validateS3File_shape host simulateExcelParsing validationRepositories
              getObject (seasonID command)
              (SimplifiedFixtureUploadHandler.objectKey command)) as (Hne & _ & _).
  unfold handle, tryCatch.
  destruct (validationErrors (validated command)) as [[|message messages]|]; [done| |].
  - cbn [hasErrors length Nat.ltb Nat.leb ret fst snd]. by split.
  - cbn [hasErrors]. unfold bindM.
    destruct (copy _ _ _ w) as [[[]|e] w1]; [|done].
    destruct (processFixtureUpload _ _ _ _ w1) as [[u|e] w2]; cbn [ret throw fst snd].
    + split; [done|]. by intros [? ?].
    + done.
Qed.

(** X13.  The persistence service is reached only when the workbook parser
    and the four lookups before it have all succeeded: if any of them
    fails, processing throws and has not touched the store. *)
Theorem failed_lookup_skips_persist (fileBuffer : option string) (seasonID : string)
        (w : W) :
  (∃ e, parseFixtureFile fileBuffer seasonID = Throw e)
  ∨ (∃ roundsParams,
       parseFixtureFile fileBuffer seasonID = Ok roundsParams
       ∧ ((∃ e, gradeRepo_hasFixtures repositories (Object_keys roundsParams) = Throw e)
          ∨ (∃ e, gameRepo_findByGradeIDs repositories (Object_keys roundsParams) = Throw e)
          ∨ (∃ e, competitionRepo_findBySeasonID repositories seasonID = Throw e)
          ∨ (∃ e, roundRepo_findByGradeIDs repositories (Object_keys roundsParams) = Throw e))) →
  ∃ e, processed fileBuffer seasonID w = (Throw e, w).
Proof.
  unfold processFixtureUpload, bindM, lift.
  intros [[e He]|(roundsParams & Hparse & Hlookup)].
  { rewrite He. by eexists. }
  rewrite Hparse.
  destruct (gradeRepo_hasFixtures _ _) as [flags|e1]; [|by eexists].
  destruct (gameRepo_findByGradeIDs _ _) as [games|e2]; [|by eexists].
  destruct (competitionRepo_findBySeasonID _ _) as [competition|e3]; [|by eexists].
  unfold calculateGradeAttributes.
  destruct (roundRepo_findByGradeIDs _ _) as [rounds|e4]; [|by eexists].
  destruct Hlookup as [[? ?]|[[? ?]|[[? ?]|[? ?]]]]; discriminate.
Qed.

(** X14.  Once the lookup of the persisted rounds has succeeded, the
    calculator does not throw, and it computes attributes for the grades of
    the upload and for no other grade; a failed lookup is passed on. *)
Theorem attributes_cover_upload (roundsParams : list (string * list RoundParam.t)) :
  match roundRepo_findByGradeIDs repositories (Object_keys roundsParams) with
  | Ok _ =>
      ∃ attributes,
        calculateGradeAttributes repositories roundsParams = Ok attributes
        ∧ ∀ gradeID, is_Some (attributes !! gradeID) ↔ gradeID ∈ Object_keys roundsParams
  | Throw e => calculateGradeAttributes repositories roundsParams = Throw e
  end.
Proof.
  unfold calculateGradeAttributes.
  destruct (roundRepo_findByGradeIDs _ _) as [allRoundsByGrade|e]; [|done]. cbn [bind].
  destruct (fold_attributesStep roundsParams allRoundsByGrade (Object_keys roundsParams))
    with (acc := (∅ : gmap string GradeAttributes.t)) as (attributes & Hfold & Hattr).
  { apply Forall_forall. intros k Hk. by apply Object_get_key. }
  exists attributes. split; [exact Hfold|]. intros gradeID. rewrite Hattr.
  case_bool_decide as Hin.
  - split; [done|]. intros _. destruct (Object_get_key roundsParams gradeID Hin) as [rs ->].
    by eexists.
  - rewrite lookup_empty. split; [by intros [? ?]|done].
Qed.

End HandlerMore.

Section EventsMore.
Import SimplifiedFixtureUploadHandler.

Lemma elem_of_getFixtureWebhookEvents (gradeIDs : list string) (flags : gmap string bool)
      (e : Event) :
  e ∈ getFixtureWebhookEvents gradeIDs flags
  ↔ ∃ gradeID, gradeID ∈ gradeIDs
               ∧ e = if holds (get flags gradeID)
                     then FixtureUpdated gradeID else FixtureCreated gradeID.
Proof.
  unfold getFixtureWebhookEvents. rewrite list_elem_of_fmap. split.
  - intros (g & -> & Hg). by exists g.
  - intros (g & Hg & ->). by exists g.
Qed.

(** The list of events in one piece. *)
Lemma generateEvents_parts (u : UploadResult) :
  generateEvents u
  = map CalculateLadder (gradeIDs u)
    ++ (if existingGames u is [] then [] else [GamesAllocated (existingGames u)])
    ++ (if newGameIDs u is [] then [] else [GamesAllocationCreated (newGameIDs u)])
    ++ [TeamUpdated (teamIDs u)]
    ++ getFixtureWebhookEvents (gradeIDs u) (hasFixtureByGradeIDs u).
Proof.
  unfold generateEvents.
  destruct (existingGames u), (newGameIDs u); cbn [length Nat.ltb Nat.leb];
    by rewrite <- ?app_assoc.
Qed.

(** X15.  The events of a processed upload: two per grade, one team update
    whatever the teams, even none, and a game event only for a non-empty
    list of games.  The two events of a grade are a ladder calculation and
    a fixture event, which is an update when what is read under the grade's
    id is truthy and a creation otherwise: an update for a true flag, a
    creation for a false one, and without a flag a creation unless the id
    names something every plain object inherits. *)
Theorem events_of_upload (u : UploadResult) :
  length (generateEvents u)
  = (2 * length (gradeIDs u) + 1
     + (if existingGames u is [] then 0 else 1)
     + (if newGameIDs u is [] then 0 else 1))%nat
  ∧ TeamUpdated (teamIDs u) ∈ generateEvents u
  ∧ (GamesAllocated [] ∉ generateEvents u)
  ∧ (GamesAllocationCreated [] ∉ generateEvents u)
  ∧ Forall (fun gradeID =>
              CalculateLadder gradeID ∈ generateEvents u
              ∧ match hasFixtureByGradeIDs u !! gradeID with
                | Some true => FixtureUpdated gradeID
                | Some false => FixtureCreated gradeID
                | None =>
                    if inheritedAt gradeID is Some _
                    then FixtureUpdated gradeID else FixtureCreated gradeID
                end ∈ generateEvents u)
           (gradeIDs u).
Proof.
  rewrite generateEvents_parts. split; [|split; [|split; [|split]]].
  - rewrite !length_app, length_map. unfold getFixtureWebhookEvents. rewrite length_map.
    destruct (existingGames u), (newGameIDs u); cbn [length]; lia.
  - rewrite !elem_of_app. do 3 right. left. by apply list_elem_of_singleton.
  - rewrite !elem_of_app, elem_of_getFixtureWebhookEvents, list_elem_of_singleton,
      list_elem_of_fmap.
    intros [(g & Hg & _)|[Hgames|[Hnew|[Hteam|(g & _ & Hg)]]]].
    + discriminate.
    + destruct (existingGames u); [by apply elem_of_nil in Hgames|].
      apply list_elem_of_singleton in Hgames. discriminate.
    + destruct (newGameIDs u); [by apply elem_of_nil in Hnew|].
      apply list_elem_of_singleton in Hnew. discriminate.
    + discriminate.
    + by destruct (holds _).
  - rewrite !elem_of_app, elem_of_getFixtureWebhookEvents, list_elem_of_singleton,
      list_elem_of_fmap.
    intros [(g & Hg & _)|[Hgames|[Hnew|[Hteam|(g & _ & Hg)]]]].
    + discriminate.
    + destruct (existingGames u); [by apply elem_of_nil in Hgames|].
      apply list_elem_of_singleton in Hgames. discriminate.
    + destruct (newGameIDs u); [by apply elem_of_nil in Hnew|].
      apply list_elem_of_singleton in Hnew. discriminate.
    + discriminate.
    + by destruct (holds _).
  - apply Forall_forall. intros g Hg. split.
    + rewrite !elem_of_app. left. apply list_elem_of_fmap. by exists g.
    + rewrite !elem_of_app. do 4 right. apply elem_of_getFixtureWebhookEvents.
      exists g. split; [done|]. unfold get.
      destruct (hasFixtureByGradeIDs u !! g) as [[|]|]; [done..|].
      by destruct (inheritedAt g).
Qed.

End EventsMore.

(** * Further properties of the persistence service *)

Section TransactionMore.
Import Postgres FixturePersistService.
Context (games_id_unique : bool) (fails : nat -> bool).

Abbreviation queryOn := (Postgres.query games_id_unique fails).
Abbreviation written := (writes games_id_unique fails).
Abbreviation persisted roundsParams competitionType gradeAttributes :=
  (persist games_id_unique fails roundsParams competitionType gradeAttributes).
Abbreviation rollback error :=
  (bindM (queryOn ROLLBACK) (fun _ => @throw Client PersistResult error)).

(** A write inside the open transaction either fails and changes nothing
    but the log, or is executed on the working copy. *)
Lemma query_write_cases (s : Statement) (c : Client) (db : Database) :
  isWrite s = true →
  working c = Some db →
  (∃ e, queryOn s c
        = (Throw e, {| committed := committed c; working := Some db;
                       issued := issued c ++ [(s, false)]; released := released c |}))
  ∨ (∃ db' rows,
       exec games_id_unique s db = Ok (db', rows)
       ∧ fails (length (issued c)) = false
       ∧ queryOn s c
         = (Ok rows, {| committed := committed c; working := Some db';
                        issued := issued c ++ [(s, true)]; released := released c |})).
Proof.
  intros Hwrite Hw. unfold Postgres.query, logged.
  assert (Hv : visible c = db) by (unfold visible; by rewrite Hw).
  destruct (fails (length (issued c))).
  { left. rewrite Hw. by eexists. }
  rewrite Hv, Hw.
  destruct s; try discriminate Hwrite.
  all: lazymatch goal with
       | |- context [match exec ?u ?s ?d with _ => _ end] =>
           destruct (exec u s d) as [[db' rows]|e] eqn:He
       end.
  all: first [ right; exists db', rows; by repeat split | left; by eexists ].
Qed.

Lemma written_trans (c c' c'' : Client) : written c c' → written c' c'' → written c c''.
Proof.
  induction 1 as [|c c1 c2 s Hs Hc1 _ IH]; [done|].
  intros H. eapply writes_more; [exact Hs|exact Hc1|by apply IH].
Qed.

Lemma written_query (s : Statement) (c : Client) :
  isWrite s = true → written c (queryOn s c).2.
Proof. intros Hs. eapply writes_more; [exact Hs|reflexivity|apply writes_none]. Qed.

Lemma written_bind {A B} (m : M Client A) (k : A -> M Client B) (c : Client) :
  written c (m c).2 →
  (∀ a c1, written c1 (k a c1).2) →
  written c (bindM m k c).2.
Proof.
  intros Hm Hk. unfold bindM. destruct (m c) as [[a|e] c1]; [|exact Hm].
  eapply written_trans; [exact Hm|apply Hk].
Qed.

Lemma persistGames_written (roundID : nat) (games : list RoundParam.game) :
  ∀ gameIDs teamIDs c,
    written c (persistGames games_id_unique fails roundID games gameIDs teamIDs c).2.
Proof.
  induction games as [|gameData games IH]; intros gameIDs teamIDs c; cbn [persistGames].
  - apply writes_none.
  - apply written_bind; [by apply written_query|]. intros rows c1.
    apply written_bind; [apply writes_none|]. intros id c2. apply IH.
Qed.

Lemma persistRound_written (gradeID : string) (roundParam : RoundParam.t) (c : Client) :
  written c (persistRound games_id_unique fails gradeID roundParam c).2.
Proof.
  unfold persistRound. apply written_bind; [by apply written_query|]. intros rows c1.
  apply written_bind; [apply writes_none|]. intros id c2. apply persistGames_written.
Qed.

Lemma persistRounds_written (gradeID : string) (roundParams : list RoundParam.t) :
  ∀ allGameIDs allTeamIDs c,
    written c (persistRounds games_id_unique fails gradeID roundParams
                             allGameIDs allTeamIDs c).2.
Proof.
  induction roundParams as [|roundParam roundParams IH]; intros allGameIDs allTeamIDs c;
    cbn [persistRounds].
  - apply writes_none.
  - apply written_bind; [apply persistRound_written|]. intros ids c1. apply IH.
Qed.

Lemma updateGradeAttributes_written (gradeID : string)
      (attributes : property GradeAttributes.t) (c : Client) :
  written c (updateGradeAttributes games_id_unique fails gradeID attributes c).2.
Proof.
  destruct attributes as [a|p|]; cbn [updateGradeAttributes]; [| |apply writes_none].
  - apply written_bind; [by apply written_query|]. intros _ c1. apply writes_none.
  - apply written_bind; [by apply written_query|]. intros _ c1. apply writes_none.
Qed.

Lemma persistGrades_written (roundsParams : list (string * list RoundParam.t))
      (gradeAttributes : gmap string GradeAttributes.t) (gradeIDs : list string) :
  ∀ allGameIDs allTeamIDs c,
    written c (persistGrades games_id_unique fails roundsParams gradeAttributes gradeIDs
                             allGameIDs allTeamIDs c).2.
Proof.
  induction gradeIDs as [|gradeID gradeIDs IH]; intros allGameIDs allTeamIDs c;
    cbn [persistGrades].
  - apply writes_none.
  - apply written_bind.
    { destruct (Object_get roundsParams gradeID); apply writes_none. }
    intros roundParams c1. apply written_bind; [apply persistRounds_written|].
    intros ids c2. apply written_bind; [apply updateGradeAttributes_written|].
    intros _ c3. apply IH.
Qed.

(** What write statements leave alone, and what they keep. *)
Lemma written_keeps (I : Database -> Prop) (c c' : Client) :
  keptByWrites games_id_unique I →
  written c c' →
  ∀ db, working c = Some db → I db →
        ∃ db' l,
          working c' = Some db' ∧ I db'
          ∧ committed c' = committed c ∧ released c' = released c
          ∧ issued c' = issued c ++ l
          ∧ Forall (fun e => isWrite e.1 = true) l.
Proof.
  intros Hkept. induction 1 as [c|c c1 c2 s Hs Hc1 _ IH]; intros db Hw HI.
  - exists db, []. rewrite app_nil_r. by repeat split.
  - destruct (query_write_cases s c db Hs Hw) as [[e Hq]|(db1 & rows & Hexec & _ & Hq)];
      rewrite Hq in Hc1; cbn [snd] in Hc1; subst c1.
    + destruct (IH db eq_refl HI) as (db' & l & Hw' & HI' & Hc & Hr & Hl & Hall).
      exists db', ((s, false) :: l). cbn [committed released issued] in *.
      repeat split; try done.
      * by rewrite Hl, <- app_assoc.
      * by constructor.
    + destruct (IH db1 eq_refl (Hkept s db db1 rows Hs Hexec HI))
        as (db' & l & Hw' & HI' & Hc & Hr & Hl & Hall).
      exists db', ((s, true) :: l). cbn [committed released issued] in *.
      repeat split; try done.
      * by rewrite Hl, <- app_assoc.
      * by constructor.
Qed.

(** The [catch] block followed by the [finally] block, in full. *)
Lemma rollback_release (error : exn) (c : Client) :
  finally (rollback error) release c
  = (Throw (if fails (length (issued c)) then Error "query failed" else error),
     {| committed := committed c;
        working := if fails (length (issued c)) then working c else None;
        issued := issued c ++ [(ROLLBACK, negb (fails (length (issued c))))];
        released := true |}).
Proof.
  unfold finally, bindM, Postgres.query, throw, release, logged.
  by destruct (fails (length (issued c))).
Qed.

(** The four ways through [persist]: the BEGIN fails; a step of the loops
    throws; the COMMIT fails; or everything succeeds. *)
Lemma persist_run (roundsParams : list (string * list RoundParam.t))
      (competitionType : string) (gradeAttributes : gmap string GradeAttributes.t)
      (c : Client) :
  let begun := {| committed := committed c; working := Some (visible c);
                  issued := issued c ++ [(BEGIN, true)]; released := released c |} in
  let loops := persistGrades games_id_unique fails roundsParams gradeAttributes
                             (Object_keys roundsParams) [] [] begun in
  (fails (length (issued c)) = true
   ∧ persisted roundsParams competitionType gradeAttributes c
     = finally (rollback (Error "query failed")) release
               {| committed := committed c; working := working c;
                  issued := issued c ++ [(BEGIN, false)]; released := released c |})
  ∨ (fails (length (issued c)) = false
     ∧ ∃ e, loops.1 = Throw e
            ∧ persisted roundsParams competitionType gradeAttributes c
              = finally (rollback e) release loops.2)
  ∨ (fails (length (issued c)) = false
     ∧ ∃ ids, loops.1 = Ok ids
              ∧ fails (length (issued loops.2)) = true
              ∧ persisted roundsParams competitionType gradeAttributes c
                = finally (rollback (Error "query failed")) release
                          {| committed := committed loops.2; working := working loops.2;
                             issued := issued loops.2 ++ [(COMMIT, false)];
                             released := released loops.2 |})
  ∨ (fails (length (issued c)) = false
     ∧ ∃ ids, loops.1 = Ok ids
              ∧ fails (length (issued loops.2)) = false
              ∧ persisted roundsParams competitionType gradeAttributes c
                = (Ok {| gradeIDs := Object_keys roundsParams;
                         teamIDs := unique ids.2;
                         gameIDs := ids.1 |},
                   {| committed := visible loops.2; working := None;
                      issued := issued loops.2 ++ [(COMMIT, true)];
                      released := true |})).
Proof.
  intros begun loops. unfold persist.
  set (body := bindM (Postgres.query games_id_unique fails BEGIN) _).
  assert (Hfinally : ∀ r s, body c = (r, s) →
            finally (tryCatch body (fun error => rollback error)) release c
            = match r with
              | Ok a => (Ok a, release s)
              | Throw e => finally (rollback e) release s
              end).
  { intros r s Hbody. unfold finally at 1, tryCatch. rewrite Hbody. by destruct r. }
  destruct (fails (length (issued c))) eqn:Hbegin.
  { left. split; [done|]. apply (Hfinally (Throw _)). subst body.
    apply bindM_Throw. unfold Postgres.query, logged. by rewrite Hbegin. }
  right.
  assert (Hbegun : queryOn BEGIN c = (Ok NoRows, begun)).
  { unfold Postgres.query, logged. by rewrite Hbegin. }
  destruct loops as [[ids|e] c2] eqn:Hloops; cbn [fst snd].
  2: { left. split; [done|]. exists e. split; [done|]. apply (Hfinally (Throw _)).
       subst body. rewrite (bindM_Ok _ _ _ _ _ Hbegun). by apply bindM_Throw. }
  right. destruct (fails (length (issued c2))) eqn:Hcommit.
  { left. split; [done|]. exists ids. split; [done|]. split; [done|].
    apply (Hfinally (Throw _)). subst body.
    rewrite (bindM_Ok _ _ _ _ _ Hbegun), (bindM_Ok _ _ _ _ _ Hloops).
    apply bindM_Throw. unfold Postgres.query, logged. by rewrite Hcommit. }
  right. split; [done|]. exists ids. split; [done|]. split; [done|].
  rewrite (Hfinally (Ok {| gradeIDs := Object_keys roundsParams;
                           teamIDs := unique ids.2; gameIDs := ids.1 |})
                    {| committed := visible c2; working := None;
                       issued := issued c2 ++ [(COMMIT, true)];
                       released := released c2 |}); [done|].
  subst body. rewrite (bindM_Ok _ _ _ _ _ Hbegun), (bindM_Ok _ _ _ _ _ Hloops).
  erewrite bindM_Ok; [reflexivity|]. unfold Postgres.query, logged. by rewrite Hcommit.
Qed.













(** Any property that write statements keep is kept by [persist]: it
    holds of the committed database afterwards if it held before, whether
    the call returned or threw. *)
Lemma persist_keeps (I : Database -> Prop)
      (roundsParams : list (string * list RoundParam.t)) (competitionType : string)
      (gradeAttributes : gmap string GradeAttributes.t) (c : Client) :
  keptByWrites games_id_unique I →
  working c = None →
  I (committed c) →
  I (committed (persisted roundsParams competitionType gradeAttributes c).2).
Proof.
  intros Hkept Hidle HI.
  assert (Hvisible : visible c = committed c) by (unfold visible; by rewrite Hidle).
  destruct (persist_run roundsParams competitionType gradeAttributes c)
    as [[_ Hrun]|[(_ & e & _ & Hrun)|[(_ & ids & _ & _ & Hrun)|(_ & ids & _ & _ & Hrun)]]];
    rewrite Hrun; clear Hrun; rewrite ?rollback_release; cbn [snd committed]; [done|..].
  all: destruct (written_keeps I _ _ Hkept
                   (persistGrades_written roundsParams gradeAttributes
                      (Object_keys roundsParams) [] []
                      {| committed := committed c; working := Some (visible c);
                         issued := issued c ++ [(BEGIN, true)]; released := released c |})
                   (visible c) eq_refl)
         as (db' & l & Hw & HI' & Hc & _); [by rewrite Hvisible|].
  - by rewrite Hc.
  - by rewrite Hc.
  - unfold visible at 1. by rewrite Hw.
Qed.

Lemma map_roundKey_updated (g : string) (n : Z) (d : string) (l : list RoundRow) :
  map (fun r => (round_id r, roundKey r))
      (map (fun r => if sameRound g n r
                     then {| round_id := round_id r; round_grade_id := round_grade_id r;
                             sequence_no := sequence_no r; provisional_date := d |}
                     else r) l)
  = map (fun r => (round_id r, roundKey r)) l.
Proof.
  induction l as [|r l IH]; [done|]. cbn [map]. rewrite IH.
  by destruct (sameRound g n r).
Qed.

Lemma roundKey_not_stored (g : string) (n : Z) (l : list RoundRow) :
  existsb (sameRound g n) l = false → (g, n) ∉ map roundKey l.
Proof.
  intros Hex Hin. apply list_elem_of_fmap in Hin as (r & Hkey & Hr).
  assert (Htrue : existsb (sameRound g n) l = true).
  { apply existsb_exists. exists r. split; [by apply list_elem_of_In|].
    unfold roundKey in Hkey. injection Hkey as -> ->. unfold sameRound.
    by rewrite String.eqb_refl, Z.eqb_refl. }
  rewrite Htrue in Hex. discriminate.
Qed.

Lemma upsertRound_wellFormed (g : string) (n : Z) (d : string) (db : Database) :
  roundsWellFormed db → roundsWellFormed (upsertRound g n d db).1.
Proof.
  intros (Hkeys & Hids & Hbelow). unfold roundsWellFormed, upsertRound.
  destruct (existsb (sameRound g n) (rounds db)) eqn:Hex; cbn [fst rounds next_round_id].
  -     assert (Hk : map roundKey (map (fun r => if sameRound g n r
                     then {| round_id := round_id r; round_grade_id := round_grade_id r;
                             sequence_no := sequence_no r; provisional_date := d |}
                     else r) (rounds db)) = map roundKey (rounds db)).
    { rewrite map_map. apply map_ext. intros r. by destruct (sameRound g n r). }
    assert (Hi : map round_id (map (fun r => if sameRound g n r
                     then {| round_id := round_id r; round_grade_id := round_grade_id r;
                             sequence_no := sequence_no r; provisional_date := d |}
                     else r) (rounds db)) = map round_id (rounds db)).
    { rewrite map_map. apply map_ext. intros r. by destruct (sameRound g n r). }
    rewrite Hk, Hi. repeat split; [done|done|].
    apply Forall_forall. intros r Hr. apply list_elem_of_fmap in Hr as (r0 & -> & Hr0).
    rewrite Forall_forall in Hbelow. specialize (Hbelow r0 Hr0).
    by destruct (sameRound g n r0).
  - rewrite !map_app. cbn [map]. repeat split.
    + apply NoDup_app. split; [done|]. split; [|apply NoDup_singleton].
      intros k Hk ->%list_elem_of_singleton. by apply (roundKey_not_stored g n (rounds db)).
    + apply NoDup_app. split; [done|]. split; [|apply NoDup_singleton].
      intros id Hid ->%list_elem_of_singleton.
      apply list_elem_of_fmap in Hid as (r & Hr & Hin).
      rewrite Forall_forall in Hbelow. specialize (Hbelow r Hin). simpl in Hr. lia.
    + apply Forall_app. split.
      * eapply Forall_impl; [exact Hbelow|]. intros r Hr. simpl in Hr. lia.
      * constructor; [simpl; lia|constructor].
Qed.

Lemma roundsWellFormed_kept : keptByWrites games_id_unique roundsWellFormed.
Proof.
  intros s db db' rows Hs Hexec HI. destruct s; try discriminate Hs; cbn [exec] in Hexec.
  - injection Hexec as Hexec. assert (db' = (upsertRound grade_id0 sequence_no0
                                               provisional_date0 db).1) as ->
      by by rewrite Hexec.
    by apply upsertRound_wellFormed.
  - unfold insertGame in Hexec. destruct (_ && _); [discriminate|].
    by injection Hexec as <- _.
  - by injection Hexec as <- _.
Qed.

Lemma gameIds_unique_kept :
  games_id_unique = true →
  keptByWrites games_id_unique (fun db => NoDup (gameIds db)).
Proof.
  intros Hunique s db db' rows Hs Hexec HI.
  destruct s; try discriminate Hs; cbn [exec] in Hexec.
  - injection Hexec as Hexec. assert (db' = (upsertRound grade_id0 sequence_no0
                                               provisional_date0 db).1) as ->
      by by rewrite Hexec.
    unfold upsertRound, gameIds. by destruct (existsb _ _).
  - unfold insertGame in Hexec. cbn [game_id] in Hexec. rewrite Hunique in Hexec.
    destruct (hasGame id db) eqn:Hstored; [discriminate|].
    injection Hexec as <- _. unfold gameIds. cbn [games]. rewrite map_app. cbn [map].
    apply NoDup_app. split; [done|]. split; [|apply NoDup_singleton].
    intros i Hi ->%list_elem_of_singleton.
    apply hasGame_gameIds in Hi. simpl in Hi. rewrite Hi in Hstored. discriminate.
  - by injection Hexec as <- _.
Qed.

(** Write statements only add: the grades stay the same rows by id, the
    stored games stay as they are with new ones behind them, and the stored
    rounds keep their place, id and key. *)
Lemma only_adds_kept (grades0 : list string) (games0 : list GameRow)
      (rounds0 : list (nat * (string * Z))) :
  keptByWrites games_id_unique
    (fun db => map grade_id (grades db) = grades0
               ∧ (∃ more, games db = games0 ++ more)
               ∧ (∃ more, map (fun r => (round_id r, roundKey r)) (rounds db)
                          = rounds0 ++ more)).
Proof.
  intros s db db' rows Hs Hexec (Hgrades & [moreGames Hgames] & [moreRounds Hrounds]).
  destruct s; try discriminate Hs; cbn [exec] in Hexec.
  - injection Hexec as Hexec. assert (db' = (upsertRound grade_id0 sequence_no0
                                               provisional_date0 db).1) as ->
      by by rewrite Hexec.
    unfold upsertRound. destruct (existsb _ _); cbn [fst grades games rounds].
    + rewrite map_roundKey_updated. eauto.
    + rewrite map_app, Hrounds, <- app_assoc. eauto.
  - unfold insertGame in Hexec. destruct (_ && _); [discriminate|].
    injection Hexec as <- _. cbn [grades games rounds]. rewrite Hgames, <- app_assoc. eauto.
  - injection Hexec as <- _. cbn [grades games rounds]. split; [|eauto].
    rewrite <- Hgrades, map_map. apply map_ext. intros g. by destruct (String.eqb _ _).
Qed.

(** X16.  [persist] keeps the rounds table well formed: if, in the
    committed database, no two rounds share (grade, sequence number) or an
    id and every id is below the sequence's next id, the same holds after
    the call, whether it returned or threw. *)
Theorem persist_keeps_rounds_well_formed
        (roundsParams : list (string * list RoundParam.t)) (competitionType : string)
        (gradeAttributes : gmap string GradeAttributes.t) (c : Client) :
  working c = None →
  roundsWellFormed (committed c) →
  roundsWellFormed (committed (persisted roundsParams competitionType gradeAttributes c).2).
Proof. intros. by apply persist_keeps; [apply roundsWellFormed_kept|..]. Qed.

(** X17.  Where the store holds game ids unique, [persist] keeps them
    unique, whatever ids the upload supplies. *)
Theorem persist_keeps_game_ids_unique
        (roundsParams : list (string * list RoundParam.t)) (competitionType : string)
        (gradeAttributes : gmap string GradeAttributes.t) (c : Client) :
  games_id_unique = true →
  working c = None →
  NoDup (gameIds (committed c)) →
  NoDup (gameIds (committed (persisted roundsParams competitionType gradeAttributes c).2)).
Proof.
  intros Hunique Hidle Hnodup.
  by apply (persist_keeps (fun db => NoDup (gameIds db)));
    [apply gameIds_unique_kept|..].
Qed.

(** X18.  [persist] only adds: it creates and deletes no grade, leaves
    every stored game as it is and puts new games behind them, and leaves
    every stored round in place under its id and its (grade, sequence
    number). *)
Theorem persist_only_adds
        (roundsParams : list (string * list RoundParam.t)) (competitionType : string)
        (gradeAttributes : gmap string GradeAttributes.t) (c : Client) :
  working c = None →
  let after := committed (persisted roundsParams competitionType gradeAttributes c).2 in
  map grade_id (grades after) = map grade_id (grades (committed c))
  ∧ (∃ more, games after = games (committed c) ++ more)
  ∧ (∃ more, map (fun r => (round_id r, roundKey r)) (rounds after)
             = map (fun r => (round_id r, roundKey r)) (rounds (committed c)) ++ more).
Proof.
  intros Hidle after. subst after.
  apply (persist_keeps
           (fun db => map grade_id (grades db) = map grade_id (grades (committed c))
                      ∧ (∃ more, games db = games (committed c) ++ more)
                      ∧ (∃ more, map (fun r => (round_id r, roundKey r)) (rounds db)
                                 = map (fun r => (round_id r, roundKey r))
                                       (rounds (committed c)) ++ more)));
    [apply only_adds_kept|done|].
  split; [done|]. split; exists []; by rewrite app_nil_r.
Qed.

(** X19.  The statements of one call of [persist], in order: a BEGIN; then
    write statements only; then, when the call returns, a COMMIT that
    succeeded, and when it throws, a ROLLBACK, preceded by the COMMIT if it
    was the COMMIT that failed.  The connection is released on every path,
    and no transaction is left open unless the closing statement itself
    failed. *)
Theorem persist_protocol
        (roundsParams : list (string * list RoundParam.t)) (competitionType : string)
        (gradeAttributes : gmap string GradeAttributes.t) (c : Client) :
  let outcome := persisted roundsParams competitionType gradeAttributes c in
  ∃ (begun : bool) (writesLog ending : list (Statement * bool)),
    issued outcome.2 = issued c ++ (BEGIN, begun) :: writesLog ++ ending
    ∧ Forall (fun e => isWrite e.1 = true) writesLog
    ∧ released outcome.2 = true
    ∧ match outcome.1 with
      | Ok _ => begun = true ∧ ending = [(COMMIT, true)] ∧ working outcome.2 = None
      | Throw _ =>
          ∃ rolledBack,
            (ending = [(ROLLBACK, rolledBack)]
             ∨ ending = [(COMMIT, false); (ROLLBACK, rolledBack)])
            ∧ (rolledBack = true → working outcome.2 = None)
      end.
Proof.
  intros outcome. subst outcome.
  destruct (written_keeps (fun _ => True)
              {| committed := committed c; working := Some (visible c);
                 issued := issued c ++ [(BEGIN, true)]; released := released c |}
              _ (fun _ _ _ _ _ _ _ => I)
              (persistGrades_written roundsParams gradeAttributes
                 (Object_keys roundsParams) [] [] _)
              (visible c) eq_refl I)
    as (db' & l & Hw & _ & _ & _ & Hl & Hall).
  cbn [issued] in Hl.
  destruct (persist_run roundsParams competitionType gradeAttributes c)
    as [[_ Hrun]|[(_ & e & Hloops & Hrun)|[(_ & ids & Hloops & _ & Hrun)
                                          |(_ & ids & Hloops & _ & Hrun)]]];
    rewrite Hrun; clear Hrun; rewrite ?rollback_release; cbn [fst snd issued released working].
  - exists false, [], [(ROLLBACK, negb (fails (length (issued c ++ [(BEGIN, false)]))))].
    rewrite <- app_assoc. repeat split; [constructor|].
    eexists. split; [by left|]. by intros ->%negb_true_iff.
  - exists true, l, [(ROLLBACK, negb (fails (length (issued (persistGrades
             games_id_unique fails roundsParams gradeAttributes
             (Object_keys roundsParams) [] []
             {| committed := committed c; working := Some (visible c);
                issued := issued c ++ [(BEGIN, true)]; released := released c |}).2))))].
    rewrite Hl, <- !app_assoc. repeat split; [done|].
    eexists. split; [by left|]. by intros ->%negb_true_iff.
  - exists true, l, [(COMMIT, false);
                     (ROLLBACK, negb (fails (length (issued (persistGrades
             games_id_unique fails roundsParams gradeAttributes
             (Object_keys roundsParams) [] []
             {| committed := committed c; working := Some (visible c);
                issued := issued c ++ [(BEGIN, true)]; released := released c |}).2
                                               ++ [(COMMIT, false)]))))].
    rewrite Hl, <- !app_assoc. repeat split; [done|].
    eexists. split; [by right|]. by intros ->%negb_true_iff.
  - exists true, l, [(COMMIT, true)]. rewrite Hl, <- !app_assoc. by repeat split.
Qed.

Lemma bindM_Ok_inv {S A B} (m : M S A) (k : A -> M S B) (s s' : S) (b : B) :
  bindM m k s = (Ok b, s') → ∃ a s1, m s = (Ok a, s1) ∧ k a s1 = (Ok b, s').
Proof.
  unfold bindM. destruct (m s) as [[a|e] s1]; [|discriminate]. intros H. by exists a, s1.
Qed.

Lemma query_write_Ok (s : Statement) (c c' : Client) (db : Database) (rows : Rows) :
  working c = Some db →
  queryOn s c = (Ok rows, c') →
  isWrite s = true →
  ∃ db', exec games_id_unique s db = Ok (db', rows) ∧ working c' = Some db'.
Proof.
  intros Hw Hq Hs.
  destruct (query_write_cases s c db Hs Hw) as [[e Hq']|(db' & rows' & Hexec & _ & Hq')];
    rewrite Hq' in Hq; [discriminate|].
  injection Hq as <- <-. by exists db'.
Qed.

(** What the loops have done when they return: the team ids collected,
    and the grades table. *)
Lemma persistGames_Ok (roundID : nat) (games : list RoundParam.game) :
  ∀ gameIDs teamIDs c c' ids db,
    persistGames games_id_unique fails roundID games gameIDs teamIDs c = (Ok ids, c') →
    working c = Some db →
    ids.2 = teamIDs ++ gamesTeamIDs games
    ∧ ∃ db', working c' = Some db' ∧ grades db' = grades db.
Proof.
  induction games as [|gameData games IH]; intros gameIDs teamIDs c c' ids db Hrun Hw;
    cbn [persistGames] in Hrun.
  - injection Hrun as <- <-. cbn [snd]. unfold gamesTeamIDs. cbn [map concat].
    rewrite app_nil_r. split; [done|]. by exists db.
  - apply bindM_Ok_inv in Hrun as (rows & c1 & Hq & Hrun).
    apply bindM_Ok_inv in Hrun as (id & c2 & Hid & Hrun).
    destruct (query_write_Ok _ _ _ _ _ Hw Hq eq_refl) as (db1 & Hexec & Hw1).
    unfold lift in Hid. injection Hid as _ <-.
    destruct (IH _ _ _ _ _ _ Hrun Hw1) as (Hids & db' & Hw' & Hgrades).
    split.
    + rewrite Hids. unfold gamesTeamIDs. cbn [map concat]. by rewrite <- app_assoc.
    + exists db'. split; [done|]. rewrite Hgrades.
      cbn [exec] in Hexec. unfold insertGame in Hexec.
      destruct (_ && _); [discriminate|]. by injection Hexec as <- _.
Qed.

Lemma persistRound_Ok (gradeID : string) (roundParam : RoundParam.t)
      (c c' : Client) (ids : list string * list string) (db : Database) :
  persistRound games_id_unique fails gradeID roundParam c = (Ok ids, c') →
  working c = Some db →
  ids.2 = gamesTeamIDs (RoundParam.games roundParam)
  ∧ ∃ db', working c' = Some db' ∧ grades db' = grades db.
Proof.
  unfold persistRound. intros Hrun Hw.
  apply bindM_Ok_inv in Hrun as (rows & c1 & Hq & Hrun).
  apply bindM_Ok_inv in Hrun as (id & c2 & Hid & Hrun).
  destruct (query_write_Ok _ _ _ _ _ Hw Hq eq_refl) as (db1 & Hexec & Hw1).
  unfold lift in Hid. injection Hid as _ <-.
  destruct (persistGames_Ok _ _ _ _ _ _ _ _ Hrun Hw1) as (Hids & db' & Hw' & Hgrades).
  split; [exact Hids|]. exists db'. split; [done|]. rewrite Hgrades.
  cbn [exec] in Hexec. injection Hexec as Hexec.
  assert (db1 = (upsertRound gradeID
                   (RoundParam.sequenceNo (RoundParam.round roundParam))
                   (RoundParam.provisionalDate (RoundParam.round roundParam)) db).1) as ->
    by by rewrite Hexec.
  unfold upsertRound. by destruct (existsb _ _).
Qed.

Lemma persistRounds_Ok (gradeID : string) (roundParams : list RoundParam.t) :
  ∀ allGameIDs allTeamIDs c c' ids db,
    persistRounds games_id_unique fails gradeID roundParams allGameIDs allTeamIDs c
    = (Ok ids, c') →
    working c = Some db →
    ids.2 = allTeamIDs ++ roundsTeamIDs roundParams
    ∧ ∃ db', working c' = Some db' ∧ grades db' = grades db.
Proof.
  induction roundParams as [|roundParam roundParams IH];
    intros allGameIDs allTeamIDs c c' ids db Hrun Hw; cbn [persistRounds] in Hrun.
  - injection Hrun as <- <-. cbn [snd]. unfold roundsTeamIDs. cbn [map concat].
    rewrite app_nil_r. split; [done|]. by exists db.
  - apply bindM_Ok_inv in Hrun as (ids1 & c1 & Hround & Hrun).
    destruct (persistRound_Ok _ _ _ _ _ _ Hround Hw) as (Hids1 & db1 & Hw1 & Hgrades1).
    destruct (IH _ _ _ _ _ _ Hrun Hw1) as (Hids & db' & Hw' & Hgrades).
    split.
    + rewrite Hids, Hids1. unfold roundsTeamIDs. cbn [map concat]. by rewrite <- app_assoc.
    + exists db'. split; [done|]. by rewrite Hgrades.
Qed.

Lemma updateGradeAttributes_Ok (gradeID : string) (attributes : property GradeAttributes.t)
      (c c' : Client) (db : Database) :
  updateGradeAttributes games_id_unique fails gradeID attributes c = (Ok (), c') →
  working c = Some db →
  attributes ≠ Undefined
  ∧ ∃ db', working c' = Some db'
           ∧ grades db' = withAttributes gradeID attributes (grades db).
Proof.
  destruct attributes as [a|p|]; cbn [updateGradeAttributes]; [| |discriminate].
  - intros Hrun Hw. apply bindM_Ok_inv in Hrun as (rows & c1 & Hq & Hrun).
    injection Hrun as <-.
    destruct (query_write_Ok _ _ _ _ _ Hw Hq eq_refl) as (db1 & Hexec & Hw1).
    split; [done|]. exists db1. split; [done|].
    cbn [exec] in Hexec. by injection Hexec as <- _.
  - intros Hrun Hw. apply bindM_Ok_inv in Hrun as (rows & c1 & Hq & Hrun).
    injection Hrun as <-.
    destruct (query_write_Ok _ _ _ _ _ Hw Hq eq_refl) as (db1 & Hexec & Hw1).
    split; [done|]. exists db1. split; [done|].
    cbn [exec] in Hexec. by injection Hexec as <- _.
Qed.

Lemma persistGrades_Ok (roundsParams : list (string * list RoundParam.t))
      (gradeAttributes : gmap string GradeAttributes.t) (gradeIDs : list string) :
  ∀ allGameIDs allTeamIDs c c' ids db,
    persistGrades games_id_unique fails roundsParams gradeAttributes gradeIDs
                  allGameIDs allTeamIDs c = (Ok ids, c') →
    working c = Some db →
    ids.2 = allTeamIDs ++ gradesTeamIDs roundsParams gradeIDs
    ∧ Forall (fun gradeID => get gradeAttributes gradeID ≠ Undefined) gradeIDs
    ∧ ∃ db', working c' = Some db'
             ∧ grades db'
               = fold_left (fun gs gradeID =>
                              withAttributes gradeID (get gradeAttributes gradeID) gs)
                           gradeIDs (grades db).
Proof.
  induction gradeIDs as [|gradeID gradeIDs IH];
    intros allGameIDs allTeamIDs c c' ids db Hrun Hw; cbn [persistGrades] in Hrun.
  - injection Hrun as <- <-. cbn [snd fold_left]. unfold gradesTeamIDs. cbn [map concat].
    rewrite app_nil_r. split; [done|]. split; [constructor|]. by exists db.
  - apply bindM_Ok_inv in Hrun as (roundParams & c1 & Hget & Hrun).
    destruct (Object_get roundsParams gradeID) as [rs|] eqn:Hrs; [|discriminate].
    injection Hget as <- <-.
    apply bindM_Ok_inv in Hrun as (ids1 & c2 & Hrounds & Hrun).
    apply bindM_Ok_inv in Hrun as ([] & c3 & Hupdate & Hrun).
    destruct (persistRounds_Ok _ _ _ _ _ _ _ _ Hrounds Hw) as (Hids1 & db1 & Hw1 & Hgrades1).
    destruct (updateGradeAttributes_Ok _ _ _ _ _ Hupdate Hw1)
      as (Ha & db2 & Hw2 & Hgrades2).
    destruct (IH _ _ _ _ _ _ Hrun Hw2) as (Hids & Hall & db' & Hw' & Hgrades).
    split; [|split].
    + rewrite Hids, Hids1. unfold gradesTeamIDs. cbn [map concat].
      by rewrite Hrs, <- app_assoc.
    + by constructor.
    + exists db'. split; [done|]. cbn [fold_left]. by rewrite Hgrades, Hgrades2, Hgrades1.
Qed.

(** A call of [persist] that returns went through the loops and the
    COMMIT. *)
Lemma persist_Ok (roundsParams : list (string * list RoundParam.t))
      (competitionType : string) (gradeAttributes : gmap string GradeAttributes.t)
      (c : Client) (res : PersistResult) :
  (persisted roundsParams competitionType gradeAttributes c).1 = Ok res →
  ∃ ids c2,
    persistGrades games_id_unique fails roundsParams gradeAttributes
                  (Object_keys roundsParams) [] []
                  {| committed := committed c; working := Some (visible c);
                     issued := issued c ++ [(BEGIN, true)]; released := released c |}
    = (Ok ids, c2)
    ∧ res = {| gradeIDs := Object_keys roundsParams;
               teamIDs := unique ids.2; gameIDs := ids.1 |}
    ∧ committed (persisted roundsParams competitionType gradeAttributes c).2 = visible c2.
Proof.
  destruct (persist_run roundsParams competitionType gradeAttributes c)
    as [[_ Hrun]|[(_ & e & _ & Hrun)|[(_ & ids & _ & _ & Hrun)|(_ & ids & Hloops & _ & Hrun)]]];
    rewrite Hrun; rewrite ?rollback_release; cbn [fst snd]; try discriminate.
  intros [= <-]. exists ids. eexists. split; [|split; [reflexivity|reflexivity]].
  by destruct (persistGrades _ _ _ _ _ _ _ _) as [[?|?] ?]; simplify_eq/=.
Qed.

Lemma persist_values
        (roundsParams : list (string * list RoundParam.t)) (competitionType : string)
        (gradeAttributes : gmap string GradeAttributes.t) (c : Client) :
  match (persisted roundsParams competitionType gradeAttributes c).1 with
  | Ok res =>
      gradeIDs res = Object_keys roundsParams
      ∧ gameIDs res = suppliedGameIDs roundsParams
      ∧ NoDup (teamIDs res)
      ∧ ∀ team, team ∈ teamIDs res ↔ team ∈ suppliedTeamIDs roundsParams
  | Throw _ => True
  end.
Proof.
  pose proof (persist_outcome games_id_unique fails roundsParams competitionType
                gradeAttributes c) as (l & _ & Hout).
  destruct (persisted roundsParams competitionType gradeAttributes c).1 as [res|e] eqn:Hres;
    [|done].
  destruct Hout as (_ & Hgames & _).
  destruct (persist_Ok _ _ _ _ _ Hres) as (ids & c2 & Hloops & -> & _).
  destruct (persistGrades_Ok _ _ _ _ _ _ _ _ _ Hloops eq_refl) as (Hteams & _).
  cbn [gradeIDs teamIDs gameIDs] in *. rewrite Hteams. cbn [app].
  destruct (uniqueFrom_spec (suppliedTeamIDs roundsParams) ∅) as [Hnd Hin].
  repeat split; try done.
  - by intros [? _]%Hin.
  - intros Ht. apply Hin. split; [done|apply not_elem_of_empty].
Qed.

(** X20.  What [persist] reports when it returns: the grades of the
    upload in key order, the supplied game ids in order, and the team ids
    of the supplied games, each once. *)
Theorem persist_reports
        (roundsParams : list (string * list RoundParam.t)) (competitionType : string)
        (gradeAttributes : gmap string GradeAttributes.t) (c : Client) :
  match (persisted roundsParams competitionType gradeAttributes c).1 with
  | Ok res =>
      gradeIDs res = Object_keys roundsParams
      ∧ gameIDs res = suppliedGameIDs roundsParams
      ∧ NoDup (teamIDs res)
      ∧ ∀ team, team ∈ teamIDs res ↔ team ∈ suppliedTeamIDs roundsParams
  | Throw _ => True
  end.
Proof. apply persist_values. Qed.

(** X21.  An upload with a grade under whose id reading the attributes
    gives [undefined] (no attributes are supplied for it, and the id names
    nothing that a plain object inherits) is not persisted: [persist]
    throws, and the committed database is the one it started from. *)
Theorem missing_attributes_abort
        (roundsParams : list (string * list RoundParam.t)) (competitionType : string)
        (gradeAttributes : gmap string GradeAttributes.t) (c : Client) (gradeID : string) :
  gradeID ∈ Object_keys roundsParams →
  gradeAttributes !! gradeID = None →
  inheritedAt gradeID = None →
  (∃ e, (persisted roundsParams competitionType gradeAttributes c).1 = Throw e)
  ∧ committed (persisted roundsParams competitionType gradeAttributes c).2 = committed c.
Proof.
  intros Hin Hnone Hplain.
  pose proof (persist_outcome games_id_unique fails roundsParams competitionType
                gradeAttributes c) as (l & _ & Hout).
  destruct (persisted roundsParams competitionType gradeAttributes c).1 as [res|e] eqn:Hres;
    [|by eauto].
  exfalso.
  destruct (persist_Ok _ _ _ _ _ Hres) as (ids & c2 & Hloops & _ & _).
  destruct (persistGrades_Ok _ _ _ _ _ _ _ _ _ Hloops eq_refl) as (_ & Hall & _).
  rewrite Forall_forall in Hall. destruct (Hall gradeID Hin).
  unfold get. by rewrite Hnone, Hplain.
Qed.

Lemma attributed_idem (attributes : property GradeAttributes.t) (g : GradeRow) :
  grade_id (attributed attributes g) = grade_id g
  ∧ attributed attributes (attributed attributes g) = attributed attributes g.
Proof. by destruct attributes. Qed.

Lemma withAttributes_rolledUp (gradeIDs : list string)
      (gradeAttributes : gmap string GradeAttributes.t) :
  ∀ gs,
    fold_left (fun gs gradeID =>
                 withAttributes gradeID (get gradeAttributes gradeID) gs) gradeIDs gs
    = map (rolledUp gradeIDs gradeAttributes) gs.
Proof.
  induction gradeIDs as [|k gradeIDs IH]; intros gs; cbn [fold_left].
  - unfold rolledUp. rewrite <- (map_id gs) at 1. apply map_ext. intros g.
    by rewrite bool_decide_eq_false_2 by apply not_elem_of_nil.
  - rewrite IH. unfold withAttributes. rewrite map_map. apply map_ext. intros g.
    unfold rolledUp. destruct (String.eqb_spec (grade_id g) k) as [Hk|Hk].
    + rewrite (bool_decide_eq_true_2 (grade_id g ∈ k :: gradeIDs))
        by (rewrite Hk; apply list_elem_of_here).
      destruct (attributed_idem (get gradeAttributes k) g) as [Hid Hidem].
      rewrite Hid, Hk. by case_bool_decide.
    + assert (Hmem : bool_decide (grade_id g ∈ k :: gradeIDs)
                     = bool_decide (grade_id g ∈ gradeIDs)).
      { apply bool_decide_ext. rewrite elem_of_cons. split; [by intros [?|?]|by right]. }
      by rewrite Hmem.
Qed.

Lemma persist_grades
        (roundsParams : list (string * list RoundParam.t)) (competitionType : string)
        (gradeAttributes : gmap string GradeAttributes.t) (c : Client) (res : PersistResult) :
  (persisted roundsParams competitionType gradeAttributes c).1 = Ok res →
  grades (committed (persisted roundsParams competitionType gradeAttributes c).2)
  = map (rolledUp (Object_keys roundsParams) gradeAttributes) (grades (visible c)).
Proof.
  intros Hres.
  destruct (persist_Ok _ _ _ _ _ Hres) as (ids & c2 & Hloops & _ & Hcommitted).
  destruct (persistGrades_Ok _ _ _ _ _ _ _ _ _ Hloops eq_refl)
    as (_ & _ & db' & Hw & Hgrades).
  assert (Hafter : visible c2 = db') by (unfold visible; by rewrite Hw).
  by rewrite Hcommitted, Hafter, Hgrades, withAttributes_rolledUp.
Qed.

(** X22.  When [persist] returns, the committed grades table holds, for
    every grade of the upload, the round count and start date supplied for
    it, and every other grade row as the connection saw it before the
    call. *)
Theorem persist_rolls_up_grades
        (roundsParams : list (string * list RoundParam.t)) (competitionType : string)
        (gradeAttributes : gmap string GradeAttributes.t) (c : Client) (res : PersistResult) :
  (persisted roundsParams competitionType gradeAttributes c).1 = Ok res →
  grades (committed (persisted roundsParams competitionType gradeAttributes c).2)
  = map (rolledUp (Object_keys roundsParams) gradeAttributes) (grades (visible c)).
Proof. apply persist_grades. Qed.

Section NoFailure.
Hypothesis never_fails : ∀ n, fails n = false.

Lemma query_write_runs (s : Statement) (c : Client) (db db' : Database) (rows : Rows) :
  working c = Some db →
  exec games_id_unique s db = Ok (db', rows) →
  isWrite s = true →
  queryOn s c = (Ok rows, {| committed := committed c; working := Some db';
                             issued := issued c ++ [(s, true)];
                             released := released c |}).
Proof.
  intros Hw Hexec Hs. unfold Postgres.query. rewrite never_fails.
  assert (Hv : visible c = db) by (unfold visible; by rewrite Hw).
  destruct s; try discriminate; rewrite Hv, Hexec, Hw; reflexivity.
Qed.

Lemma freshGames_app (new1 new2 stored : list string) :
  freshGames games_id_unique (new1 ++ new2) stored →
  freshGames games_id_unique new1 stored
  ∧ freshGames games_id_unique new2 (stored ++ new1).
Proof.
  unfold freshGames. intros H. split; intros Hu; destruct (H Hu) as [Hnd Hall];
    apply NoDup_app in Hnd as (Hnd1 & Hdis & Hnd2); apply Forall_app in Hall as [H1 H2].
  - done.
  - split; [done|]. rewrite Forall_forall in H2 |- *. intros id Hid Hin.
    apply elem_of_app in Hin as [Hin|Hin]; [by apply (H2 id)|by apply (Hdis id)].
Qed.

Lemma runs_seq {A B} (m : M Client A) (k : A -> M Client B) (new1 new2 : list string) :
  runsWhen games_id_unique m new1 →
  (∀ a, runsWhen games_id_unique (k a) new2) →
  runsWhen games_id_unique (bindM m k) (new1 ++ new2).
Proof.
  intros Hm Hk c db Hw Hfresh. apply freshGames_app in Hfresh as [H1 H2].
  destruct (Hm c db Hw H1) as (a & c1 & db1 & Hrun1 & Hw1 & Hids1).
  rewrite <- Hids1 in H2.
  destruct (Hk a c1 db1 Hw1 H2) as (b & c2 & db2 & Hrun2 & Hw2 & Hids2).
  exists b, c2, db2. rewrite (bindM_Ok _ _ _ _ _ Hrun1). split; [done|]. split; [done|].
  by rewrite Hids2, Hids1, app_assoc.
Qed.

Lemma persistGames_runs (roundID : nat) (games : list RoundParam.game) :
  ∀ gameIDs teamIDs,
    runsWhen games_id_unique
             (persistGames games_id_unique fails roundID games gameIDs teamIDs)
             (map RoundParam.id games).
Proof.
  induction games as [|gameData games IH]; intros gameIDs teamIDs c db Hw Hfresh.
  - exists (gameIDs, teamIDs), c, db. cbn [map]. by rewrite app_nil_r.
  - cbn [persistGames map]. cbn [map] in Hfresh.
    apply (freshGames_app [RoundParam.id gameData]) in Hfresh as [Hone Hrest].
    set (row := {| game_id := RoundParam.id gameData; game_round_id := roundID;
                   home_team_id := RoundParam.homeTeamID gameData;
                   away_team_id := RoundParam.awayTeamID gameData;
                   game_date := RoundParam.date gameData;
                   provisional_dates := default [] (RoundParam.provisionalDates gameData) |}).
    assert (Hfree : games_id_unique && hasGame (game_id row) db = false).
    { destruct (hasGame (game_id row) db) eqn:Hhas; [|apply andb_false_r].
      destruct (bool_dec games_id_unique true) as [Hu|Hu];
        [|apply not_true_is_false in Hu; by rewrite Hu].
      destruct (Hone Hu) as [_ Hall]. apply Forall_cons in Hall as [Hnew _].
      apply hasGame_gameIds in Hhas. by destruct Hnew. }
    set (db1 := {| rounds := rounds db; games := Postgres.games db ++ [row];
                   grades := grades db; next_round_id := next_round_id db |}).
    assert (Hq : queryOn (InsertGame (RoundParam.id gameData) roundID
                            (RoundParam.homeTeamID gameData)
                            (RoundParam.awayTeamID gameData)
                            (RoundParam.date gameData)
                            (default [] (RoundParam.provisionalDates gameData))) c
                 = (Ok (GameIds [RoundParam.id gameData]),
                    {| committed := committed c; working := Some db1;
                       issued := issued c ++ [(InsertGame (RoundParam.id gameData) roundID
                            (RoundParam.homeTeamID gameData)
                            (RoundParam.awayTeamID gameData)
                            (RoundParam.date gameData)
                            (default [] (RoundParam.provisionalDates gameData)), true)];
                       released := released c |})).
    { apply (query_write_runs _ c db _ _ Hw); [|done].
      cbn [exec]. fold row. unfold insertGame. by rewrite Hfree. }
    rewrite (bindM_Ok _ _ _ _ _ Hq). unfold lift at 1. cbn [firstGameId bindM].
    assert (Hids1 : gameIds db1 = gameIds db ++ [RoundParam.id gameData]).
    { unfold gameIds, db1. cbn [Postgres.games]. by rewrite map_app. }
    rewrite <- Hids1 in Hrest.
    match goal with
    | |- context [persistGames _ _ _ _ ?gs ?ts ?c1] =>
        destruct (IH gs ts c1 db1 eq_refl Hrest) as (ids & c' & db' & Hrun & Hw' & Hids)
    end.
    exists ids, c', db'. split; [exact Hrun|]. split; [done|].
    by rewrite Hids, Hids1, <- app_assoc.
Qed.

Lemma persistRound_runs (gradeID : string) (roundParam : RoundParam.t) :
  runsWhen games_id_unique (persistRound games_id_unique fails gradeID roundParam)
           (roundGameIDs roundParam).
Proof.
  intros c db Hw Hfresh. unfold persistRound.
  destruct (upsertRound gradeID (RoundParam.sequenceNo (RoundParam.round roundParam))
              (RoundParam.provisionalDate (RoundParam.round roundParam)) db)
    as [db1 rows] eqn:Hup.
  assert (Hq := query_write_runs
                  (UpsertRound gradeID (RoundParam.sequenceNo (RoundParam.round roundParam))
                     (RoundParam.provisionalDate (RoundParam.round roundParam)))
                  c db db1 rows Hw (f_equal Ok Hup) eq_refl).
  rewrite (bindM_Ok _ _ _ _ _ Hq).
  assert (Hrows : ∃ id more, rows = RoundIds (id :: more) ∧ gameIds db1 = gameIds db).
  { unfold upsertRound in Hup.
    destruct (existsb _ _) eqn:Hex; injection Hup as <- <-; [|by eauto].
    apply existsb_exists in Hex as (r & Hin & Hr).
    assert (Hf : In r (List.filter
                         (sameRound gradeID
                            (RoundParam.sequenceNo (RoundParam.round roundParam)))
                         (rounds db))) by by apply filter_In.
    destruct (List.filter _ (rounds db)) as [|r0 rest]; [done|]. cbn [map]. by eauto. }
  destruct Hrows as (id & more & -> & Hsame).
  unfold lift at 1. cbn [firstRoundId bindM].
  rewrite <- Hsame in Hfresh.
  match goal with
  | |- context [persistGames _ _ _ _ _ _ ?c1] =>
      destruct (persistGames_runs id (RoundParam.games roundParam) [] [] c1 db1 eq_refl Hfresh)
        as (ids & c' & db' & Hrun & Hw' & Hids)
  end.
  exists ids, c', db'. split; [exact Hrun|]. split; [done|]. by rewrite Hids, Hsame.
Qed.

Lemma persistGames_rounds (roundID : nat) (games : list RoundParam.game) :
  ∀ gameIDs teamIDs c c' ids db,
    persistGames games_id_unique fails roundID games gameIDs teamIDs c = (Ok ids, c') →
    working c = Some db →
    ∃ db', working c' = Some db' ∧ rounds db' = rounds db.
Proof.
  induction games as [|gameData games IH]; intros gameIDs teamIDs c c' ids db Hrun Hw;
    cbn [persistGames] in Hrun.
  - injection Hrun as <- <-. by exists db.
  - apply bindM_Ok_inv in Hrun as (rows & c1 & Hq & Hrun).
    apply bindM_Ok_inv in Hrun as (id & c2 & Hid & Hrun).
    destruct (query_write_Ok _ _ _ _ _ Hw Hq eq_refl) as (db1 & Hexec & Hw1).
    unfold lift in Hid. injection Hid as _ <-.
    destruct (IH _ _ _ _ _ _ Hrun Hw1) as (db' & Hw' & Hrounds).
    exists db'. split; [done|]. rewrite Hrounds.
    cbn [exec] in Hexec. unfold insertGame in Hexec.
    destruct (_ && _); [discriminate|]. by injection Hexec as <- _.
Qed.

(** A call of [persistRound] that returns has upserted under the key
    (grade, sequence number of the round) with the round's date, and
    changed nothing else of the rounds table. *)
Lemma persistRound_rounds (gradeID : string) (roundParam : RoundParam.t)
      (c c' : Client) (db : Database) (ids : list string * list string) :
  persistRound games_id_unique fails gradeID roundParam c = (Ok ids, c') →
  working c = Some db →
  ∃ db',
    working c' = Some db'
    ∧ rounds db'
      = rounds (upsertRound gradeID
                  (RoundParam.sequenceNo (RoundParam.round roundParam))
                  (RoundParam.provisionalDate (RoundParam.round roundParam)) db).1.
Proof.
  intros Hrun Hw. unfold persistRound in Hrun.
  apply bindM_Ok_inv in Hrun as (rows & c1 & Hq & Hrun).
  apply bindM_Ok_inv in Hrun as (id & c2 & Hid & Hrun).
  destruct (query_write_Ok _ _ _ _ _ Hw Hq eq_refl) as (db1 & Hexec & Hw1).
  unfold lift in Hid. injection Hid as _ <-.
  destruct (persistGames_rounds _ _ _ _ _ _ _ _ Hrun Hw1) as (db' & Hw' & Hrounds).
  exists db'. split; [exact Hw'|]. rewrite Hrounds.
  cbn [exec] in Hexec. injection Hexec as Hexec. by rewrite Hexec.
Qed.

Lemma persistRounds_runs (gradeID : string) (roundParams : list RoundParam.t) :
  ∀ allGameIDs allTeamIDs,
    runsWhen games_id_unique
             (persistRounds games_id_unique fails gradeID roundParams allGameIDs allTeamIDs)
             (roundsGameIDs roundParams).
Proof.
  induction roundParams as [|roundParam roundParams IH]; intros allGameIDs allTeamIDs.
  - intros c db Hw _. exists (allGameIDs, allTeamIDs), c, db.
    unfold roundsGameIDs. cbn [map concat]. by rewrite app_nil_r.
  - cbn [persistRounds]. unfold roundsGameIDs. cbn [map concat].
    apply runs_seq; [apply persistRound_runs|intros ids; apply IH].
Qed.

Lemma updateGradeAttributes_runs (gradeID : string) (a : GradeAttributes.t) :
  runsWhen games_id_unique
           (updateGradeAttributes games_id_unique fails gradeID (Own a)) [].
Proof.
  intros c db Hw _. cbn [updateGradeAttributes].
  assert (Hq := query_write_runs
                  (UpdateGrade gradeID (Some (GradeAttributes.noOfRounds a))
                               (GradeAttributes.startDate a))
                  c db _ _ Hw eq_refl eq_refl).
  rewrite (bindM_Ok _ _ _ _ _ Hq). eexists _, _, _. split; [reflexivity|].
  split; [reflexivity|]. by rewrite app_nil_r.
Qed.

Lemma persistGrades_runs (roundsParams : list (string * list RoundParam.t))
      (gradeAttributes : gmap string GradeAttributes.t) (gradeIDs : list string) :
  Forall (fun gradeID => is_Some (Object_get roundsParams gradeID)
                         ∧ is_Some (gradeAttributes !! gradeID)) gradeIDs →
  ∀ allGameIDs allTeamIDs,
    runsWhen games_id_unique
             (persistGrades games_id_unique fails roundsParams gradeAttributes gradeIDs
                            allGameIDs allTeamIDs)
             (gradesGameIDs roundsParams gradeIDs).
Proof.
  induction 1 as [|gradeID gradeIDs [[rs Hrs] [a Ha]] _ IH]; intros allGameIDs allTeamIDs.
  - intros c db Hw _. exists (allGameIDs, allTeamIDs), c, db.
    unfold gradesGameIDs. cbn [map concat]. by rewrite app_nil_r.
  - cbn [persistGrades]. unfold gradesGameIDs. cbn [map concat].
    unfold get. rewrite Hrs, Ha. cbn [default from_option].
    change (bindM (ret rs) ?k) with (k rs). cbn beta.
    apply runs_seq; [apply persistRounds_runs|]. intros ids.
    change (concat ?l) with ([] ++ concat l).
    apply runs_seq; [apply updateGradeAttributes_runs|]. intros _. apply IH.
Qed.

End NoFailure.

(** C6.  Within a transaction, on a rounds table that holds at most one
    row under the key (grade, sequence number), as its unique index
    demands: whenever two calls of [persistRound] for the same grade, with
    rounds of the same sequence number and two provisional dates, return
    one after the other, exactly one row is under the key and it carries
    the date of the later call, and the rows under other keys are
    untouched.  Both calls do return when no statement fails and the
    supplied game ids can be inserted. *)
Theorem round_upsert_keeps_one_row (gradeID : string) (earlier later : RoundParam.t)
        (c : Client) (db : Database) :
  working c = Some db →
  (length (List.filter
             (sameRound gradeID (RoundParam.sequenceNo (RoundParam.round earlier)))
             (rounds db)) ≤ 1)%nat →
  RoundParam.sequenceNo (RoundParam.round later)
  = RoundParam.sequenceNo (RoundParam.round earlier) →
  (∀ ids1 c1 ids2 c2,
     persistRound games_id_unique fails gradeID earlier c = (Ok ids1, c1) →
     persistRound games_id_unique fails gradeID later c1 = (Ok ids2, c2) →
     ∃ db2,
       working c2 = Some db2
       ∧ (∃ r, List.filter
                 (sameRound gradeID (RoundParam.sequenceNo (RoundParam.round earlier)))
                 (rounds db2) = [r]
               ∧ round_grade_id r = gradeID
               ∧ sequence_no r = RoundParam.sequenceNo (RoundParam.round earlier)
               ∧ provisional_date r = RoundParam.provisionalDate (RoundParam.round later))
       ∧ List.filter
           (fun r => negb (sameRound gradeID
                             (RoundParam.sequenceNo (RoundParam.round earlier)) r))
           (rounds db2)
         = List.filter
             (fun r => negb (sameRound gradeID
                               (RoundParam.sequenceNo (RoundParam.round earlier)) r))
             (rounds db))
  ∧ ((∀ n, fails n = false) →
     freshGames games_id_unique (roundGameIDs earlier ++ roundGameIDs later) (gameIds db) →
     ∃ ids1 c1 ids2 c2,
       persistRound games_id_unique fails gradeID earlier c = (Ok ids1, c1)
       ∧ persistRound games_id_unique fails gradeID later c1 = (Ok ids2, c2)).
Proof.
  intros Hw Hunique Hsame. split.
  - intros ids1 c1 ids2 c2 Hrun1 Hrun2.
    destruct (persistRound_rounds _ _ _ _ _ _ Hrun1 Hw) as (db1 & Hw1 & Hrounds1).
    destruct (persistRound_rounds _ _ _ _ _ _ Hrun2 Hw1) as (db2 & Hw2 & Hrounds2).
    exists db2. split; [exact Hw2|]. rewrite Hrounds2, Hsame.
    set (n := RoundParam.sequenceNo (RoundParam.round earlier)) in *.
    destruct (upsertRound_once gradeID n
                (RoundParam.provisionalDate (RoundParam.round earlier)) db Hunique)
      as [(r1 & Hr1 & _) Hrest1].
    rewrite <- Hrounds1 in Hr1, Hrest1.
    destruct (upsertRound_once gradeID n
                (RoundParam.provisionalDate (RoundParam.round later)) db1)
      as [(r2 & Hr2 & Hd2) Hrest2].
    { by rewrite Hr1. }
    split; [|by rewrite Hrest2].
    exists r2. split; [exact Hr2|].
    assert (Hkey : sameRound gradeID n r2 = true).
    { assert (Hin : In r2 (List.filter (sameRound gradeID n)
                             (rounds (upsertRound gradeID n
                                        (RoundParam.provisionalDate (RoundParam.round later))
                                        db1).1))).
      { rewrite Hr2. by left. }
      by apply List.filter_In in Hin as [_ Hin]. }
    unfold sameRound in Hkey. apply andb_true_iff in Hkey as [Hg Hn].
    apply String.eqb_eq in Hg. apply Z.eqb_eq in Hn. done.
  - intros Hnever Hfresh. apply freshGames_app in Hfresh as [Hfresh1 Hfresh2].
    destruct (persistRound_runs Hnever gradeID earlier c db Hw Hfresh1)
      as (ids1 & c1 & db1 & Hrun1 & Hw1 & Hids1).
    rewrite <- Hids1 in Hfresh2.
    destruct (persistRound_runs Hnever gradeID later c1 db1 Hw1 Hfresh2)
      as (ids2 & c2 & db2 & Hrun2 & _ & _).
    by exists ids1, c1, ids2, c2.
Qed.

Lemma persist_returns
        (roundsParams : list (string * list RoundParam.t)) (competitionType : string)
        (gradeAttributes : gmap string GradeAttributes.t) (c : Client) :
  (∀ n, fails n = false) →
  Forall (fun gradeID => is_Some (gradeAttributes !! gradeID)) (Object_keys roundsParams) →
  freshGames games_id_unique (suppliedGameIDs roundsParams) (gameIds (visible c)) →
  (∃ res, (persisted roundsParams competitionType gradeAttributes c).1 = Ok res)
  ∧ gameIds (committed (persisted roundsParams competitionType gradeAttributes c).2)
    = gameIds (visible c) ++ suppliedGameIDs roundsParams.
Proof.
  intros Hnever Hattrs Hfresh.
  assert (Hall : Forall (fun gradeID => is_Some (Object_get roundsParams gradeID)
                                        ∧ is_Some (gradeAttributes !! gradeID))
                        (Object_keys roundsParams)).
  { rewrite Forall_forall in Hattrs |- *. intros k Hk.
    split; [by apply Object_get_key|by apply Hattrs]. }
  destruct (persistGrades_runs Hnever roundsParams gradeAttributes _ Hall [] []
              {| committed := committed c; working := Some (visible c);
                 issued := issued c ++ [(BEGIN, true)]; released := released c |}
              (visible c) eq_refl Hfresh) as (ids & c2 & db2 & Hrun & Hw2 & Hids).
  destruct (persist_run roundsParams competitionType gradeAttributes c)
    as [[Hf _]|[(_ & e & He & _)|[(_ & ids' & _ & Hf & _)|(_ & ids' & _ & _ & Hp)]]].
  - by rewrite Hnever in Hf.
  - by rewrite Hrun in He.
  - by rewrite Hnever in Hf.
  - rewrite Hp. cbn [fst snd committed]. split; [by eexists|].
    rewrite Hrun. cbn [snd]. unfold visible at 1. rewrite Hw2. exact Hids.
Qed.

(** X23.  When no statement fails, every grade of the upload has
    attributes, and the supplied game ids can be inserted (always when
    game ids need not be unique, otherwise when they are pairwise distinct
    and not stored yet), [persist] returns and the committed games table is
    the one it started from followed by the supplied games. *)
Theorem persist_succeeds
        (roundsParams : list (string * list RoundParam.t)) (competitionType : string)
        (gradeAttributes : gmap string GradeAttributes.t) (c : Client) :
  (∀ n, fails n = false) →
  Forall (fun gradeID => is_Some (gradeAttributes !! gradeID)) (Object_keys roundsParams) →
  freshGames games_id_unique (suppliedGameIDs roundsParams) (gameIds (visible c)) →
  (∃ res, (persisted roundsParams competitionType gradeAttributes c).1 = Ok res)
  ∧ gameIds (committed (persisted roundsParams competitionType gradeAttributes c).2)
    = gameIds (visible c) ++ suppliedGameIDs roundsParams.
Proof. apply persist_returns. Qed.

End TransactionMore.

Section AggregationMore.
Import Repository.
Context {Row V : Type} (grade_id : Row -> string) (item : Row -> V).

Lemma fold_aggregateStep_Throw (rows : list Row) (e : exn) :
  fold_left (aggregateStep grade_id item) rows (Throw e) = Throw e.
Proof. induction rows as [|row rows IH]; [done|exact IH]. Qed.

(** The loop from a map whose keys name nothing inherited: it ends in a
    TypeError at the first row whose grade does, and otherwise appends to
    each group what is pushed for its rows. *)
Lemma fold_aggregateStep (rows : list Row) :
  ∀ grouped : gmap string (list V),
    (∀ k, is_Some (grouped !! k) → inheritedAt k = None) →
    match fold_left (aggregateStep grade_id item) rows (Ok grouped) with
    | Ok grouped' =>
        Forall (fun row => inheritedAt (grade_id row) = None) rows
        ∧ ∀ k, grouped' !! k
               = match List.filter (fun row => String.eqb (grade_id row) k) rows with
                 | [] => grouped !! k
                 | found => Some (default [] (grouped !! k) ++ map item found)
                 end
    | Throw e =>
        e = TypeError "grouped[row.grade_id].push is not a function"
        ∧ Exists (fun row => is_Some (inheritedAt (grade_id row))) rows
    end.
Proof.
  induction rows as [|row rows IH]; intros grouped Hkeys; cbn [fold_left].
  { split; [constructor|done]. }
  assert (Hnext : ∀ items : list V,
             get grouped (grade_id row) = Undefined ∧ items = []
             ∨ get grouped (grade_id row) = Own items →
             inheritedAt (grade_id row) = None →
             match fold_left (aggregateStep grade_id item) rows
                     (Ok (<[grade_id row := items ++ [item row]]> grouped)) with
             | Ok grouped' =>
                 Forall (fun row => inheritedAt (grade_id row) = None) (row :: rows)
                 ∧ ∀ k, grouped' !! k
                        = match List.filter (fun row => String.eqb (grade_id row) k)
                                            (row :: rows) with
                          | [] => grouped !! k
                          | found => Some (default [] (grouped !! k) ++ map item found)
                          end
             | Throw e =>
                 e = TypeError "grouped[row.grade_id].push is not a function"
                 ∧ Exists (fun row => is_Some (inheritedAt (grade_id row))) (row :: rows)
             end).
  { intros items Hitems Hplain.
    assert (Hold : default [] (grouped !! grade_id row) = items).
    { unfold get in Hitems. destruct (grouped !! grade_id row) as [old|].
      - destruct Hitems as [[? _]|[= ->]]; done.
      - rewrite Hplain in Hitems. by destruct Hitems as [[_ ->]|?]. }
    specialize (IH (<[grade_id row := items ++ [item row]]> grouped)).
    destruct (fold_left _ rows _) as [grouped'|e].
    - destruct IH as [Hall Hlookup].
      { intros k [v Hv]. destruct (decide (grade_id row = k)) as [<-|Hne]; [done|].
        rewrite lookup_insert_ne in Hv by done. apply Hkeys. by eexists. }
      split; [by constructor|]. intros k. rewrite Hlookup. cbn [List.filter].
      destruct (String.eqb_spec (grade_id row) k) as [<-|Hne].
      + rewrite lookup_insert_eq, Hold. cbn [default from_option id].
        destruct (List.filter _ rows) as [|r found]; [done|].
        cbn [map]. by rewrite <- app_assoc.
      + by rewrite lookup_insert_ne.
    - destruct IH as [-> Hex].
      { intros k [v Hv]. destruct (decide (grade_id row = k)) as [<-|Hne]; [done|].
        rewrite lookup_insert_ne in Hv by done. apply Hkeys. by eexists. }
      split; [done|]. by apply Exists_cons_tl. }
  unfold aggregateStep at 2. cbn [bind].
  destruct (get grouped (grade_id row)) as [items|p|] eqn:Hget.
  - apply Hnext; [by right|]. apply Hkeys. unfold get in Hget.
    destruct (grouped !! grade_id row); [by eexists|].
    by destruct (inheritedAt (grade_id row)).
  - rewrite fold_aggregateStep_Throw. split; [done|]. apply Exists_cons_hd.
    unfold get in Hget. destruct (grouped !! grade_id row); [done|].
    destruct (inheritedAt (grade_id row)); [by eexists|done].
  - apply (Hnext []); [by left|]. unfold get in Hget.
    destruct (grouped !! grade_id row); [done|].
    by destruct (inheritedAt (grade_id row)).
Qed.

(** X24.  The manual aggregation of a query result.  When no row's grade id
    names something every plain object inherits, it groups the rows by
    their grade: under a grade it holds what was pushed for the rows of
    that grade, in the order of the result, and it has no entry for a grade
    without rows.  When a row's grade id does, no group is created for it
    and the push on what is inherited is a TypeError. *)
Theorem aggregation_groups_by_grade (rows : list Row) :
  match aggregate grade_id item rows with
  | Ok grouped =>
      Forall (fun row => inheritedAt (grade_id row) = None) rows
      ∧ ∀ k, grouped !! k
             = match List.filter (fun row => String.eqb (grade_id row) k) rows with
               | [] => None
               | found => Some (map item found)
               end
  | Throw e =>
      e = TypeError "grouped[row.grade_id].push is not a function"
      ∧ Exists (fun row => is_Some (inheritedAt (grade_id row))) rows
  end.
Proof.
  unfold aggregate.
  pose proof (fold_aggregateStep rows ∅) as Hfold.
  destruct (fold_left _ rows _) as [grouped|e].
  - destruct Hfold as [Hall Hlookup]; [by intros k [? ?]|].
    split; [done|]. intros k. rewrite Hlookup, lookup_empty.
    by destruct (List.filter _ rows).
  - apply Hfold. by intros k [? ?].
Qed.

End AggregationMore.

Section AttributesFromRows.
Import Repository SimplifiedFixtureUploadHandler.
Context {W Row : Type} (grade_id : Row -> string) (asRound : Row -> Round.t).
Context (query : list string -> result (list Row)).
Context (repositories : FixtureRepositories W).

(** X25.  With the round repository of repository.ts behind the
    calculator: when no row the query returned has a grade id that names
    something every plain object inherits, the round count of a grade of
    the upload whose id names no such thing either is the number of rows
    returned for that grade plus the number of supplied rounds; when a row
    has such a grade id, the calculator throws the TypeError of the
    aggregation. *)
Theorem round_count_counts_query_rows
        (roundsParams : list (string * list RoundParam.t)) (rows : list Row)
        (gradeID : string) (supplied : list RoundParam.t) :
  roundRepo_findByGradeIDs repositories
  = RoundRepository_findByGradeIDs grade_id asRound query →
  query (Object_keys roundsParams) = Ok rows →
  Object_get roundsParams gradeID = Some supplied →
  gradeID ∈ Object_keys roundsParams →
  (Forall (fun row => inheritedAt (grade_id row) = None) rows →
   inheritedAt gradeID = None →
   ∃ attributes,
     calculateGradeAttributes repositories roundsParams = Ok attributes
     ∧ GradeAttributes.noOfRounds <$> attributes !! gradeID
       = Some (Finite (Z.of_nat
                       (length (List.filter (fun row => String.eqb (grade_id row) gradeID)
                                            rows)
                        + length supplied))))
  ∧ (Exists (fun row => is_Some (inheritedAt (grade_id row))) rows →
     calculateGradeAttributes repositories roundsParams
     = Throw (TypeError "grouped[row.grade_id].push is not a function")).
Proof.
  intros Hrepo Hquery Hsupplied Hin.
  unfold calculateGradeAttributes. rewrite Hrepo.
  unfold RoundRepository_findByGradeIDs. rewrite Hquery. cbn [bind].
  unfold aggregate.
  pose proof (fold_aggregateStep grade_id asRound rows ∅) as Hfold.
  destruct (fold_left _ rows _) as [grouped|e]; cbn [bind].
  - destruct Hfold as [Hall Hlookup]; [by intros k [? ?]|]. split.
    + intros _ Hplain.
      destruct (fold_attributesStep roundsParams grouped (Object_keys roundsParams))
        with (acc := (∅ : gmap string GradeAttributes.t)) as (attributes & Hfold & Hattr).
      { apply Forall_forall. intros k Hk. by apply Object_get_key. }
      exists attributes. split; [exact Hfold|].
      rewrite Hattr, (bool_decide_eq_true_2 _ Hin), Hsupplied.
      cbn [fmap option_fmap option_map].
      rewrite (get_plain grouped gradeID) by by right.
      unfold gradeAttributesOf. cbn [GradeAttributes.noOfRounds]. rewrite Hlookup, lookup_empty.
      destruct (List.filter _ rows) as [|r found];
        cbn [lengthOf length fmap option_fmap option_map plus]; [done|].
      cbn [default from_option id app]. do 2 f_equal. rewrite length_map.
      cbn [length]. lia.
    + intros Hex. exfalso. apply Exists_exists in Hex as (row & Hrow & [p Hp]).
      rewrite Forall_forall in Hall.
      specialize (Hall row Hrow). congruence.
  - destruct Hfold as [-> Hex]; [by intros k [? ?]|]. split; [|done].
    intros Hall _. exfalso. apply Exists_exists in Hex as (row & Hrow & [p Hp]).
    rewrite Forall_forall in Hall.
    specialize (Hall row Hrow). congruence.
Qed.

End AttributesFromRows.

Section DatesMore.
Import Js FixtureValidationService.

Lemma digit_is_no_slash (a : ascii) : is_digit a = true → Ascii.eqb a "/" = false.
Proof.
  intros Hd. destruct (Ascii.eqb_spec a "/") as [->|]; [|done].
  vm_compute in Hd. discriminate.
Qed.

(** X26.  On a string of the shape DD/MM/YYYY, [parseDate] swaps the day
    and the month and keeps the year; the result has the same shape, and
    converting twice gives the string back. *)
Theorem parseDate_swaps_day_and_month (s : string) :
  dateRegex_test s = true →
  parseDate s = substring 3 2 s +:+ "/" +:+ substring 0 2 s +:+ "/" +:+ substring 6 4 s
  ∧ dateRegex_test (parseDate s) = true
  ∧ parseDate (parseDate s) = s.
Proof.
  unfold dateRegex_test.
  do 10 (destruct s as [|? s]; [discriminate|]). destruct s; [|discriminate].
  cbn [list_ascii_of_string]. rewrite !andb_true_iff.
  intros [[[[[[[[[H1 H2] S1] H3] H4] S2] H5] H6] H7] H8].
  apply Ascii.eqb_eq in S1 as ->. apply Ascii.eqb_eq in S2 as ->.
  assert (Hparse : ∀ x1 x2 x3 x4 x5 x6 x7 x8 : ascii,
             is_digit x1 = true → is_digit x2 = true → is_digit x3 = true →
             is_digit x4 = true → is_digit x5 = true → is_digit x6 = true →
             is_digit x7 = true → is_digit x8 = true →
             parseDate (String x1 (String x2 (String "/" (String x3 (String x4 (String "/"
                         (String x5 (String x6 (String x7 (String x8 EmptyString))))))))))
             = String x3 (String x4 (String "/" (String x1 (String x2 (String "/"
                         (String x5 (String x6 (String x7 (String x8 EmptyString)))))))))).
  { intros x1 x2 x3 x4 x5 x6 x7 x8 D1 D2 D3 D4 D5 D6 D7 D8. unfold parseDate. cbn [split].
    rewrite (digit_is_no_slash x1 D1), (digit_is_no_slash x2 D2), (digit_is_no_slash x3 D3),
      (digit_is_no_slash x4 D4), (digit_is_no_slash x5 D5), (digit_is_no_slash x6 D6),
      (digit_is_no_slash x7 D7), (digit_is_no_slash x8 D8).
    reflexivity. }
  rewrite !Hparse by done. split; [reflexivity|]. split; [|reflexivity].
  cbn [list_ascii_of_string]. rewrite H1, H2, H3, H4, H5, H6, H7, H8. reflexivity.
Qed.

End DatesMore.

Section UploadMore.
Import Postgres SimplifiedFixtureUploadHandler.
Context (games_id_unique : bool) (fails : nat -> bool).
Context (repositories : FixtureRepositories Client).
Context (parseFixtureFile :
           option string -> string -> result (list (string * list RoundParam.t))).

(** X27.  Processing over the persist service of repository.ts: when the
    workbook parser and the four lookups succeed, no statement fails and
    the supplied game ids can be inserted, processing returns.  It reports
    the grades of the upload, the supplied game ids, the games found before
    and the fixture flags; the committed games table has grown by the
    supplied games, and the committed grades table carries the attributes
    the calculator computed.  In particular the calculator leaves no grade
    of the upload without attributes. *)
Theorem upload_is_persisted
        (fileBuffer : option string) (seasonID : string)
        (roundsParams : list (string * list RoundParam.t))
        (flags : gmap string bool) (gamesByGradeIDs : list (string * list GameNode.t))
        (competition : option Competition.t) (rounds : gmap string (list Round.t))
        (c : Client) :
  persistService_persist repositories = FixturePersistService.persist games_id_unique fails →
  parseFixtureFile fileBuffer seasonID = Ok roundsParams →
  gradeRepo_hasFixtures repositories (Object_keys roundsParams) = Ok flags →
  gameRepo_findByGradeIDs repositories (Object_keys roundsParams) = Ok gamesByGradeIDs →
  competitionRepo_findBySeasonID repositories seasonID = Ok competition →
  roundRepo_findByGradeIDs repositories (Object_keys roundsParams) = Ok rounds →
  (∀ n, fails n = false) →
  freshGames games_id_unique (suppliedGameIDs roundsParams) (gameIds (visible c)) →
  ∃ upload attributes,
    (processFixtureUpload repositories parseFixtureFile fileBuffer seasonID c).1 = Ok upload
    ∧ gradeIDs upload = Object_keys roundsParams
    ∧ newGameIDs upload = suppliedGameIDs roundsParams
    ∧ existingGames upload = concat (map snd gamesByGradeIDs)
    ∧ hasFixtureByGradeIDs upload = flags
    ∧ calculateGradeAttributes repositories roundsParams = Ok attributes
    ∧ gameIds (committed
                 (processFixtureUpload repositories parseFixtureFile fileBuffer seasonID c).2)
      = gameIds (visible c) ++ suppliedGameIDs roundsParams
    ∧ grades (committed
                (processFixtureUpload repositories parseFixtureFile fileBuffer seasonID c).2)
      = map (rolledUp (Object_keys roundsParams) attributes) (grades (visible c)).
Proof.
  intros Hpersist Hparse Hflags Hgames Hcompetition Hrounds Hnever Hfresh.
  destruct (fold_attributesStep roundsParams rounds (Object_keys roundsParams))
    with (acc := (∅ : gmap string GradeAttributes.t)) as (attributes & Hfold & Hattr).
  { apply Forall_forall. intros k Hk. by apply Object_get_key. }
  assert (Hcalc : calculateGradeAttributes repositories roundsParams = Ok attributes).
  { unfold calculateGradeAttributes. by rewrite Hrounds. }
  assert (Hcover : Forall (fun gradeID => is_Some (attributes !! gradeID))
                          (Object_keys roundsParams)).
  { apply Forall_forall. intros k Hk. rewrite Hattr, (bool_decide_eq_true_2 _ Hk).
    destruct (Object_get_key roundsParams k Hk) as [rs ->]. by eexists. }
  set (competitionType :=
         default "DOMESTIC"
           ((fun c0 => Competition.kind_to_string (Competition.type c0)) <$> competition)).
  destruct (persist_returns games_id_unique fails roundsParams competitionType attributes c
              Hnever Hcover Hfresh) as [[res Hres] Hids].
  pose proof (persist_values games_id_unique fails roundsParams competitionType attributes c)
    as Hvalues.
  rewrite Hres in Hvalues. destruct Hvalues as (Hkeys & Hreported & _).
  pose proof (persist_grades games_id_unique fails roundsParams competitionType attributes c
                res Hres) as Hgrades.
  assert (Hrun : processFixtureUpload repositories parseFixtureFile fileBuffer seasonID c
                 = match FixturePersistService.persist games_id_unique fails roundsParams
                           competitionType attributes c with
                   | (Ok persistResult, c') =>
                       (Ok {| gradeIDs := FixturePersistService.gradeIDs persistResult;
                              teamIDs := FixturePersistService.teamIDs persistResult;
                              newGameIDs := FixturePersistService.gameIDs persistResult;
                              existingGames := concat (map snd gamesByGradeIDs);
                              hasFixtureByGradeIDs := flags |}, c')
                   | (Throw e, c') => (Throw e, c')
                   end).
  { unfold processFixtureUpload, bindM, lift.
    by rewrite Hparse, Hflags, Hgames, Hcompetition, Hcalc, Hpersist. }
  rewrite Hrun.
  destruct (FixturePersistService.persist games_id_unique fails roundsParams
              competitionType attributes c) as [[persistResult|e] c'];
    cbn [fst snd] in *; [|discriminate].
  injection Hres as ->. eexists _, attributes. split; [reflexivity|].
  cbn [gradeIDs newGameIDs existingGames hasFixtureByGradeIDs].
  by repeat split.
Qed.

End UploadMore.

Section PostgresHandlerMore.
Import Postgres FixtureValidationService SimplifiedFixtureUploadHandler.
Context (games_id_unique : bool) (fails : nat -> bool).
Context (host : Host).
Context (simulateExcelParsing : string -> result (list RawRow.t)).
Context (validationRepositories : ValidationRepositories).
Context (getObject : string -> string -> result string).
Context (repositories : FixtureRepositories Client).
Context (parseFixtureFile :
           option string -> string -> result (list (string * list RoundParam.t))).

(** Processing either stops at the parser or a lookup, with the connection
    untouched, or ends as the persist service ends. *)
Lemma processFixtureUpload_cases (fileBuffer : option string) (seasonID : string)
      (c : Client) :
  persistService_persist repositories = FixturePersistService.persist games_id_unique fails →
  (∃ e, processFixtureUpload repositories parseFixtureFile fileBuffer seasonID c
        = (Throw e, c))
  ∨ (∃ roundsParams competitionType gradeAttributes,
       parseFixtureFile fileBuffer seasonID = Ok roundsParams
       ∧ (processFixtureUpload repositories parseFixtureFile fileBuffer seasonID c).2
         = (FixturePersistService.persist games_id_unique fails roundsParams
              competitionType gradeAttributes c).2
       ∧ match (FixturePersistService.persist games_id_unique fails roundsParams
                  competitionType gradeAttributes c).1 with
         | Ok _ => ∃ upload,
             (processFixtureUpload repositories parseFixtureFile fileBuffer seasonID c).1
             = Ok upload
         | Throw e =>
             (processFixtureUpload repositories parseFixtureFile fileBuffer seasonID c).1
             = Throw e
         end).
Proof.
  intros Hpersist. unfold processFixtureUpload, bindM, lift. rewrite Hpersist.
  destruct (parseFixtureFile fileBuffer seasonID) as [roundsParams|e0]; [|by left; eexists].
  destruct (gradeRepo_hasFixtures _ _) as [flags|e1]; [|by left; eexists].
  destruct (gameRepo_findByGradeIDs _ _) as [games|e2]; [|by left; eexists].
  destruct (competitionRepo_findBySeasonID _ _) as [competition|e3]; [|by left; eexists].
  destruct (calculateGradeAttributes _ _) as [gradeAttributes|e4]; [|by left; eexists].
  right. exists roundsParams.
  exists (default "DOMESTIC"
            ((fun c0 => Competition.kind_to_string (Competition.type c0)) <$> competition)).
  exists gradeAttributes. split; [reflexivity|].
  destruct (FixturePersistService.persist _ _ _ _ _ c) as [[res|e] c']; cbn [fst snd ret].
  - split; [reflexivity|]. by eexists.
  - by split.
Qed.

(** X28.  The handler of fixture-handler.ts over the persist service of
    repository.ts commits an upload as a whole or not at all.  A response
    with an error list has at least one message and no events, and the
    connection is untouched.  A response without an error list means the
    fetched file was parsed and the committed games table has grown by
    exactly the supplied games.  When the handler throws, it throws
    "Fixture upload failed" and the committed database is the one it
    started from. *)
Theorem upload_commits_all_or_nothing (command : FixtureUploadCommand) (c : Client) :
  persistService_persist repositories = FixturePersistService.persist games_id_unique fails →
  let outcome :=
    FixtureUploadHandler.handle host simulateExcelParsing validationRepositories getObject
                                repositories parseFixtureFile command c in
  match outcome.1 with
  | Ok response =>
      match errors (result_ response) with
      | Some messages => messages ≠ [] ∧ events response = [] ∧ outcome.2 = c
      | None =>
          ∃ buffer roundsParams,
            getObject "upload-bucket" (SimplifiedFixtureUploadHandler.objectKey command)
            = Ok buffer
            ∧ parseFixtureFile (Some buffer) (seasonID command) = Ok roundsParams
            ∧ gameIds (committed outcome.2)
              = gameIds (visible c) ++ suppliedGameIDs roundsParams
      end
  | Throw e => e = Error "Fixture upload failed" ∧ committed outcome.2 = committed c
  end.
Proof.
  intros Hpersist. cbv zeta.
  destruct (validateS3File_shape host simulateExcelParsing validationRepositories
              getObject (seasonID command)
              (SimplifiedFixtureUploadHandler.objectKey command)) as (Hne & _ & Hbuffer).
  unfold FixtureUploadHandler.handle, tryCatch.
  destruct (validationErrors _) as [[|message messages]|] eqn:Herrors; [done| |].
  - cbn [hasErrors length Nat.ltb Nat.leb ret fst snd result_ errors events].
    by repeat split.
  - cbn [hasErrors]. destruct (Hbuffer eq_refl) as (buffer & Hget & Hfile). rewrite Hfile.
    unfold bindM.
    destruct (processFixtureUpload_cases (Some buffer) (seasonID command) c Hpersist)
      as [[e Hrun]|(roundsParams & competitionType & gradeAttributes & Hparse & Hstate & Hrun)].
    { rewrite Hrun. cbn [throw fst snd]. by split. }
    pose proof (persist_outcome games_id_unique fails roundsParams competitionType
                  gradeAttributes c) as (l & _ & Hout).
    destruct (processFixtureUpload _ _ _ _ c) as [r c'] eqn:Hprocessed.
    cbn [fst snd] in Hstate, Hrun. subst c'.
    destruct (FixturePersistService.persist _ _ _ _ _ c).1 as [res|e].
    + destruct Hrun as [upload ->]. cbn [ret fst snd result_ errors].
      destruct Hout as (_ & _ & Hids & _). by exists buffer, roundsParams.
    + rewrite Hrun. cbn [throw fst snd]. by split.
Qed.

End PostgresHandlerMore.

Section UploadWitnesses.
Import Postgres FixturePersistService.

Lemma failed_lookup_skips_persist_witness :
  ((∃ e, UploadExamples.parseTwoGames None "s1" = Throw e)
   ∨ (∃ roundsParams,
        UploadExamples.parseTwoGames None "s1" = Ok roundsParams
        ∧ ((∃ e, SimplifiedFixtureUploadHandler.gradeRepo_hasFixtures
                   UploadExamples.failingRounds (Object_keys roundsParams) = Throw e)
           ∨ (∃ e, SimplifiedFixtureUploadHandler.gameRepo_findByGradeIDs
                     UploadExamples.failingRounds (Object_keys roundsParams) = Throw e)
           ∨ (∃ e, SimplifiedFixtureUploadHandler.competitionRepo_findBySeasonID
                     UploadExamples.failingRounds "s1" = Throw e)
           ∨ (∃ e, SimplifiedFixtureUploadHandler.roundRepo_findByGradeIDs
                     UploadExamples.failingRounds (Object_keys roundsParams) = Throw e))))
  ∧ ∃ e, SimplifiedFixtureUploadHandler.processFixtureUpload
           UploadExamples.failingRounds UploadExamples.parseTwoGames None "s1" 0%nat
         = (Throw e, 0%nat).
Proof.
  assert (H : (∃ e, UploadExamples.parseTwoGames None "s1" = Throw e)
   ∨ (∃ roundsParams,
        UploadExamples.parseTwoGames None "s1" = Ok roundsParams
        ∧ ((∃ e, SimplifiedFixtureUploadHandler.gradeRepo_hasFixtures
                   UploadExamples.failingRounds (Object_keys roundsParams) = Throw e)
           ∨ (∃ e, SimplifiedFixtureUploadHandler.gameRepo_findByGradeIDs
                     UploadExamples.failingRounds (Object_keys roundsParams) = Throw e)
           ∨ (∃ e, SimplifiedFixtureUploadHandler.competitionRepo_findBySeasonID
                     UploadExamples.failingRounds "s1" = Throw e)
           ∨ (∃ e, SimplifiedFixtureUploadHandler.roundRepo_findByGradeIDs
                     UploadExamples.failingRounds (Object_keys roundsParams) = Throw e)))).
  { right. exists Examples.twoGames. split; [reflexivity|].
    do 3 right. exists (Error "connection lost"). reflexivity. }
  split; [exact H|].
  exact (failed_lookup_skips_persist UploadExamples.failingRounds UploadExamples.parseTwoGames
           None "s1" 0%nat H).
Defined.

Lemma seeded_rounds_well_formed : roundsWellFormed Examples.seededDatabase.
Proof.
  unfold roundsWellFormed. cbn [rounds Examples.seededDatabase map next_round_id].
  split; [apply NoDup_singleton|]. split; [apply NoDup_singleton|].
  constructor; [|constructor]. cbn [round_id]. lia.
Defined.

Lemma persist_keeps_rounds_well_formed_witness :
  working (Examples.client Examples.seededDatabase) = None
  ∧ roundsWellFormed (committed (Examples.client Examples.seededDatabase))
  ∧ roundsWellFormed
      (committed (persist true Examples.noFailure Examples.twoGames "DOMESTIC"
                          Examples.twoGamesAttributes
                          (Examples.client Examples.seededDatabase)).2).
Proof.
  split; [reflexivity|]. split; [exact seeded_rounds_well_formed|].
  exact (persist_keeps_rounds_well_formed true Examples.noFailure Examples.twoGames
           "DOMESTIC" Examples.twoGamesAttributes (Examples.client Examples.seededDatabase)
           eq_refl seeded_rounds_well_formed).
Defined.

Lemma persist_keeps_game_ids_unique_witness :
  true = true
  ∧ working (Examples.client Examples.seededDatabase) = None
  ∧ NoDup (gameIds (committed (Examples.client Examples.seededDatabase)))
  ∧ NoDup (gameIds
             (committed (persist true Examples.noFailure Examples.twoGames "DOMESTIC"
                                 Examples.twoGamesAttributes
                                 (Examples.client Examples.seededDatabase)).2)).
Proof.
  split; [reflexivity|]. split; [reflexivity|]. split; [apply NoDup_nil_2|].
  exact (persist_keeps_game_ids_unique true Examples.noFailure Examples.twoGames
           "DOMESTIC" Examples.twoGamesAttributes (Examples.client Examples.seededDatabase)
           eq_refl eq_refl (NoDup_nil_2 (A := string))).
Defined.

Lemma persist_only_adds_witness :
  working (Examples.client Examples.seededDatabase) = None
  ∧ let after :=
      committed (persist true (Examples.failAt 3) Examples.twoGames "DOMESTIC"
                         Examples.twoGamesAttributes
                         (Examples.client Examples.seededDatabase)).2 in
    map grade_id (grades after)
    = map grade_id (grades (committed (Examples.client Examples.seededDatabase)))
    ∧ (∃ more, games after
               = games (committed (Examples.client Examples.seededDatabase)) ++ more)
    ∧ (∃ more, map (fun r => (round_id r, roundKey r)) (rounds after)
               = map (fun r => (round_id r, roundKey r))
                     (rounds (committed (Examples.client Examples.seededDatabase))) ++ more).
Proof.
  split; [reflexivity|].
  exact (persist_only_adds true (Examples.failAt 3) Examples.twoGames "DOMESTIC"
           Examples.twoGamesAttributes (Examples.client Examples.seededDatabase) eq_refl).
Defined.

Lemma missing_attributes_abort_witness :
  "g1" ∈ Object_keys Examples.twoGames
  ∧ (∅ : gmap string GradeAttributes.t) !! "g1" = None
  ∧ inheritedAt "g1" = None
  ∧ (∃ e, (persist true Examples.noFailure Examples.twoGames "DOMESTIC" ∅
                   (Examples.client Examples.seededDatabase)).1 = Throw e)
  ∧ committed (persist true Examples.noFailure Examples.twoGames "DOMESTIC" ∅
                       (Examples.client Examples.seededDatabase)).2
    = committed (Examples.client Examples.seededDatabase).
Proof.
  assert (Hin : "g1" ∈ Object_keys Examples.twoGames) by apply list_elem_of_here.
  split; [exact Hin|]. split; [apply lookup_empty|]. split; [reflexivity|].
  exact (missing_attributes_abort true Examples.noFailure Examples.twoGames "DOMESTIC" ∅
           (Examples.client Examples.seededDatabase) "g1" Hin (lookup_empty _) eq_refl).
Defined.

Lemma persist_rolls_up_grades_witness :
  let run := persist true Examples.noFailure Examples.twoGames "DOMESTIC"
                     Examples.twoGamesAttributes
                     (Examples.client Examples.seededDatabase) in
  run.1 = Ok {| gradeIDs := ["g1"]; teamIDs := ["t1"; "t2"; "t3"]; gameIDs := ["x1"; "x2"] |}
  ∧ grades (committed run.2)
    = map (rolledUp (Object_keys Examples.twoGames) Examples.twoGamesAttributes)
          (grades (visible (Examples.client Examples.seededDatabase))).
Proof.
  intros run.
  assert (H : run.1 = Ok {| gradeIDs := ["g1"]; teamIDs := ["t1"; "t2"; "t3"];
                            gameIDs := ["x1"; "x2"] |}) by (vm_compute; reflexivity).
  split; [exact H|].
  exact (persist_rolls_up_grades true Examples.noFailure Examples.twoGames "DOMESTIC"
           Examples.twoGamesAttributes (Examples.client Examples.seededDatabase) _ H).
Defined.

Lemma two_games_have_attributes :
  Forall (fun gradeID => is_Some (Examples.twoGamesAttributes !! gradeID))
         (Object_keys Examples.twoGames).
Proof.
  constructor; [|constructor]. eexists. vm_compute. reflexivity.
Defined.

Lemma two_games_are_fresh :
  freshGames true (suppliedGameIDs Examples.twoGames)
             (gameIds (visible (Examples.client Examples.seededDatabase))).
Proof.
  intros _. split.
  - apply NoDup_cons_2; [|apply NoDup_singleton].
    intros H. apply list_elem_of_singleton in H. discriminate.
  - repeat constructor; apply not_elem_of_nil.
Defined.

Lemma persist_succeeds_witness :
  (∀ n, Examples.noFailure n = false)
  ∧ Forall (fun gradeID => is_Some (Examples.twoGamesAttributes !! gradeID))
           (Object_keys Examples.twoGames)
  ∧ freshGames true (suppliedGameIDs Examples.twoGames)
               (gameIds (visible (Examples.client Examples.seededDatabase)))
  ∧ (∃ res, (persist true Examples.noFailure Examples.twoGames "DOMESTIC"
                     Examples.twoGamesAttributes
                     (Examples.client Examples.seededDatabase)).1 = Ok res)
  ∧ gameIds (committed (persist true Examples.noFailure Examples.twoGames "DOMESTIC"
                                Examples.twoGamesAttributes
                                (Examples.client Examples.seededDatabase)).2)
    = gameIds (visible (Examples.client Examples.seededDatabase))
      ++ suppliedGameIDs Examples.twoGames.
Proof.
  split; [reflexivity|]. split; [exact two_games_have_attributes|].
  split; [exact two_games_are_fresh|].
  exact (persist_succeeds true Examples.noFailure Examples.twoGames "DOMESTIC"
           Examples.twoGamesAttributes (Examples.client Examples.seededDatabase)
           (fun _ => eq_refl) two_games_have_attributes two_games_are_fresh).
Defined.

Lemma round_count_counts_query_rows_witness :
  SimplifiedFixtureUploadHandler.roundRepo_findByGradeIDs
    UploadExamples.aggregatingRepositories
  = Repository.RoundRepository_findByGradeIDs fst snd UploadExamples.roundQuery
  ∧ UploadExamples.roundQuery (Object_keys Examples.secondRound)
    = Ok UploadExamples.roundRows
  ∧ "g1" ∈ Object_keys Examples.secondRound
  ∧ Forall (fun row : string * Round.t => inheritedAt row.1 = None) UploadExamples.roundRows
  ∧ inheritedAt "g1" = None
  ∧ ∃ supplied attributes,
      Object_get Examples.secondRound "g1" = Some supplied
      ∧ SimplifiedFixtureUploadHandler.calculateGradeAttributes
          UploadExamples.aggregatingRepositories Examples.secondRound = Ok attributes
      ∧ GradeAttributes.noOfRounds <$> attributes !! "g1"
        = Some (Finite (Z.of_nat
                        (length (List.filter (fun row => String.eqb row.1 "g1")
                                             UploadExamples.roundRows)
                         + length supplied))).
Proof.
  assert (Hin : "g1" ∈ Object_keys Examples.secondRound) by apply list_elem_of_here.
  assert (Hrows : Forall (fun row : string * Round.t => inheritedAt row.1 = None)
                         UploadExamples.roundRows) by (repeat constructor).
  split; [reflexivity|]. split; [reflexivity|]. split; [exact Hin|].
  split; [exact Hrows|]. split; [reflexivity|].
  eexists.
  destruct (proj1 (round_count_counts_query_rows fst snd UploadExamples.roundQuery
                     UploadExamples.aggregatingRepositories Examples.secondRound
                     UploadExamples.roundRows "g1" _ eq_refl eq_refl eq_refl Hin)
                  Hrows eq_refl)
    as (attributes & Hcalc & Hcount).
  exists attributes. split; [reflexivity|]. split; [exact Hcalc|exact Hcount].
Defined.

Lemma parseDate_swaps_day_and_month_witness :
  FixtureValidationService.dateRegex_test "15/03/2024" = true
  ∧ FixtureValidationService.parseDate "15/03/2024"
    = substring 3 2 "15/03/2024" +:+ "/" +:+ substring 0 2 "15/03/2024" +:+ "/"
      +:+ substring 6 4 "15/03/2024"
  ∧ FixtureValidationService.dateRegex_test
      (FixtureValidationService.parseDate "15/03/2024") = true
  ∧ FixtureValidationService.parseDate (FixtureValidationService.parseDate "15/03/2024")
    = "15/03/2024".
Proof.
  split; [reflexivity|].
  exact (parseDate_swaps_day_and_month "15/03/2024" eq_refl).
Defined.

Lemma upload_is_persisted_witness :
  SimplifiedFixtureUploadHandler.persistService_persist UploadExamples.postgresRepositories
  = persist true Examples.noFailure
  ∧ UploadExamples.parseTwoGames None "s1" = Ok Examples.twoGames
  ∧ (∀ n, Examples.noFailure n = false)
  ∧ freshGames true (suppliedGameIDs Examples.twoGames)
               (gameIds (visible (Examples.client Examples.seededDatabase)))
  ∧ ∃ upload attributes,
    (SimplifiedFixtureUploadHandler.processFixtureUpload
       UploadExamples.postgresRepositories UploadExamples.parseTwoGames None "s1"
       (Examples.client Examples.seededDatabase)).1 = Ok upload
    ∧ SimplifiedFixtureUploadHandler.gradeIDs upload = Object_keys Examples.twoGames
    ∧ SimplifiedFixtureUploadHandler.newGameIDs upload = suppliedGameIDs Examples.twoGames
    ∧ SimplifiedFixtureUploadHandler.existingGames upload
      = concat (map snd ([] : list (string * list GameNode.t)))
    ∧ SimplifiedFixtureUploadHandler.hasFixtureByGradeIDs upload = ∅
    ∧ SimplifiedFixtureUploadHandler.calculateGradeAttributes
        UploadExamples.postgresRepositories Examples.twoGames = Ok attributes
    ∧ gameIds (committed
                 (SimplifiedFixtureUploadHandler.processFixtureUpload
                    UploadExamples.postgresRepositories UploadExamples.parseTwoGames None "s1"
                    (Examples.client Examples.seededDatabase)).2)
      = gameIds (visible (Examples.client Examples.seededDatabase))
        ++ suppliedGameIDs Examples.twoGames
    ∧ grades (committed
                (SimplifiedFixtureUploadHandler.processFixtureUpload
                   UploadExamples.postgresRepositories UploadExamples.parseTwoGames None "s1"
                   (Examples.client Examples.seededDatabase)).2)
      = map (rolledUp (Object_keys Examples.twoGames) attributes)
            (grades (visible (Examples.client Examples.seededDatabase))).
Proof.
  split; [reflexivity|]. split; [reflexivity|]. split; [reflexivity|].
  split; [exact two_games_are_fresh|].
  exact (upload_is_persisted true Examples.noFailure UploadExamples.postgresRepositories
           UploadExamples.parseTwoGames None "s1" Examples.twoGames ∅ [] None ∅
           (Examples.client Examples.seededDatabase)
           eq_refl eq_refl eq_refl eq_refl eq_refl eq_refl (fun _ => eq_refl)
           two_games_are_fresh).
Defined.

Lemma upload_commits_all_or_nothing_witness :
  SimplifiedFixtureUploadHandler.persistService_persist UploadExamples.postgresRepositories
  = persist true Examples.noFailure
  ∧ let outcome :=
      FixtureUploadHandler.handle Examples.host (fun _ => Ok []) Examples.repositories
        Examples.getObject UploadExamples.postgresRepositories UploadExamples.parseTwoGames
        Examples.command (Examples.client Examples.seededDatabase) in
    match outcome.1 with
    | Ok response =>
        match SimplifiedFixtureUploadHandler.errors
                (SimplifiedFixtureUploadHandler.result_ response) with
        | Some messages =>
            messages ≠ [] ∧ SimplifiedFixtureUploadHandler.events response = []
            ∧ outcome.2 = Examples.client Examples.seededDatabase
        | None =>
            ∃ buffer roundsParams,
              Examples.getObject "upload-bucket"
                (SimplifiedFixtureUploadHandler.objectKey Examples.command) = Ok buffer
              ∧ UploadExamples.parseTwoGames (Some buffer)
                  (SimplifiedFixtureUploadHandler.seasonID Examples.command)
                = Ok roundsParams
              ∧ gameIds (committed outcome.2)
                = gameIds (visible (Examples.client Examples.seededDatabase))
                  ++ suppliedGameIDs roundsParams
        end
    | Throw e =>
        e = Error "Fixture upload failed"
        ∧ committed outcome.2 = committed (Examples.client Examples.seededDatabase)
    end.
Proof.
  split; [reflexivity|].
  exact (upload_commits_all_or_nothing true Examples.noFailure Examples.host
           (fun _ => Ok []) Examples.repositories Examples.getObject
           UploadExamples.postgresRepositories UploadExamples.parseTwoGames
           Examples.command (Examples.client Examples.seededDatabase) eq_refl).
Defined.



Lemma round_upsert_keeps_one_row_witness :
  let earlier :=
    {| RoundParam.round := {| RoundParam.sequenceNo := 2;
                              RoundParam.provisionalDate := "2024-03-22" |};
       RoundParam.games := [Examples.game "x1" "t1" "t2"] |} in
  let later :=
    {| RoundParam.round := {| RoundParam.sequenceNo := 2;
                              RoundParam.provisionalDate := "2024-03-29" |};
       RoundParam.games := [Examples.game "x2" "t3" "t1"] |} in
  let c := {| committed := Examples.seededDatabase;
              working := Some Examples.seededDatabase;
              issued := [(BEGIN, true)];
              released := false |} in
  working c = Some Examples.seededDatabase
  ∧ (length (List.filter (sameRound "g1" 2) (rounds Examples.seededDatabase)) ≤ 1)%nat
  ∧ RoundParam.sequenceNo (RoundParam.round later)
    = RoundParam.sequenceNo (RoundParam.round earlier)
  ∧ (∀ n, Examples.noFailure n = false)
  ∧ freshGames true (roundGameIDs earlier ++ roundGameIDs later)
               (gameIds Examples.seededDatabase)
  ∧ ∃ ids1 c1 ids2 c2 db2,
      persistRound true Examples.noFailure "g1" earlier c = (Ok ids1, c1)
      ∧ persistRound true Examples.noFailure "g1" later c1 = (Ok ids2, c2)
      ∧ working c2 = Some db2
      ∧ (∃ r, List.filter (sameRound "g1" 2) (rounds db2) = [r]
              ∧ round_grade_id r = "g1"
              ∧ sequence_no r = 2%Z
              ∧ provisional_date r = "2024-03-29")
      ∧ List.filter (fun r => negb (sameRound "g1" 2 r)) (rounds db2)
        = List.filter (fun r => negb (sameRound "g1" 2 r))
                      (rounds Examples.seededDatabase).
Proof.
  intros earlier later c.
  assert (Hunique : (length (List.filter (sameRound "g1" 2)
                               (rounds Examples.seededDatabase)) ≤ 1)%nat).
  { vm_compute. lia. }
  assert (Hfresh : freshGames true (roundGameIDs earlier ++ roundGameIDs later)
                              (gameIds Examples.seededDatabase)).
  { intros _. split.
    - vm_compute. apply NoDup_cons. split; [|apply NoDup_singleton].
      intros Hin. apply list_elem_of_singleton in Hin. discriminate.
    - vm_compute. repeat constructor; intros Hin; by apply elem_of_nil in Hin. }
  split; [reflexivity|]. split; [exact Hunique|]. split; [reflexivity|].
  split; [reflexivity|]. split; [exact Hfresh|].
  destruct (round_upsert_keeps_one_row true Examples.noFailure "g1" earlier later c
              Examples.seededDatabase eq_refl Hunique eq_refl) as [Hresult Hruns].
  destruct (Hruns (fun _ => eq_refl) Hfresh) as (ids1 & c1 & ids2 & c2 & Hrun1 & Hrun2).
  destruct (Hresult ids1 c1 ids2 c2 Hrun1 Hrun2) as (db2 & Hw2 & Hone & Hothers).
  by exists ids1, c1, ids2, c2, db2.
Defined.

End UploadWitnesses.
